(** * The pf input plugin: parsing the output of [pfctl -s info]

    A shallow embedding of [plugins/inputs/pf/pf.go] and of the earlier
    variant of the same file, and the properties of the stanza scanner and
    of the field extractor.

    Go strings are byte strings: they are [string]s of 8-bit [ascii]
    characters here.  The package-level tables ([pfctlOutputStanzas],
    [InterfaceTable], [StateTable], [CounterTable]) are mutated in place by
    the Go code; they are threaded explicitly as a [Globals] value.  The
    metrics sink ([telegraf.Accumulator]) is the list of the calls it
    received. *)

From Stdlib Require Import ZArith NArith Ascii String List Bool Lia.
From stdpp Require Import base gmap strings list.

Local Open Scope char_scope.

(** ** Character classes of the regular expressions *)

(** [\s] of Go's regexp syntax: [[\t\n\f\r ]]. *)
Definition is_space (c : ascii) : bool :=
  match c with
  | "009" | "010" | "012" | "013" | " " => true
  | _ => false
  end.

(** [\d]: [[0-9]]. *)
Definition is_digit (c : ascii) : bool :=
  match c with
  | "0" | "1" | "2" | "3" | "4" | "5" | "6" | "7" | "8" | "9" => true
  | _ => false
  end.

(** [[A-Z]]. *)
Definition is_upper (c : ascii) : bool :=
  ((65 <=? N_of_ascii c) && (N_of_ascii c <=? 90))%N.

(** [.] without the [s] flag: any character but a line feed. *)
Definition is_dot (c : ascii) : bool :=
  match c with
  | "010" => false
  | _ => true
  end.

Local Close Scope char_scope.

(** ** A backtracking matcher with Go's leftmost-first semantics

    Go's [regexp] returns, among the leftmost matches, the one a
    backtracking search finds first.  The matcher below is that search,
    in continuation-passing style, for the fragment of the syntax the
    plugin uses: repetition is over a character class only.  The
    continuation receives the text matched by the sub-expression, the rest
    of the input and the capture groups. *)

Inductive regexp : Type :=
  | Bol                                               (* ^ *)
  | Lit (l : string)                                  (* literal text *)
  | Cls (cls : ascii -> bool)                         (* one character *)
  | Rep (greedy : bool) (min : nat) (cls : ascii -> bool)
                                                      (* c*, c+, c*? *)
  | Cat (r1 r2 : regexp)                              (* r1r2 *)
  | Alt (r1 r2 : regexp)                              (* r1|r2 *)
  | Grp (i : nat) (r : regexp).                       (* (r), group i *)

Fixpoint strip_prefix (l s : string) : option string :=
  match l with
  | EmptyString => Some s
  | String a l' =>
      match s with
      | String b s' => if Ascii.eqb a b then strip_prefix l' s' else None
      | EmptyString => None
      end
  end.

Section Matcher.
Context {R : Type}.

Fixpoint rep_greedy (cls : ascii -> bool) (min : nat) (s : string)
    (k : string -> string -> option R) : option R :=
  match
    match s with
    | String a s' =>
        if cls a
        then rep_greedy cls (pred min) s' (fun m => k (String a m))
        else None
    | EmptyString => None
    end
  with
  | Some r => Some r
  | None => match min with O => k EmptyString s | S _ => None end
  end.

Fixpoint rep_lazy (cls : ascii -> bool) (min : nat) (s : string)
    (k : string -> string -> option R) : option R :=
  match match min with O => k EmptyString s | S _ => None end with
  | Some r => Some r
  | None =>
      match s with
      | String a s' =>
          if cls a
          then rep_lazy cls (pred min) s' (fun m => k (String a m))
          else None
      | EmptyString => None
      end
  end.

Fixpoint exec (r : regexp) (pos : nat) (s : string) (c : list string)
    (k : string -> string -> list string -> option R) : option R :=
  match r with
  | Bol => match pos with O => k EmptyString s c | S _ => None end
  | Lit l =>
      match strip_prefix l s with
      | Some s' => k l s' c
      | None => None
      end
  | Cls cls =>
      match s with
      | String a s' => if cls a then k (String a EmptyString) s' c else None
      | EmptyString => None
      end
  | Rep true min cls => rep_greedy cls min s (fun m s' => k m s' c)
  | Rep false min cls => rep_lazy cls min s (fun m s' => k m s' c)
  | Cat r1 r2 =>
      exec r1 pos s c (fun m1 s1 c1 =>
        exec r2 (pos + String.length m1) s1 c1 (fun m2 s2 c2 =>
          k (m1 +:+ m2) s2 c2))
  | Alt r1 r2 =>
      match exec r1 pos s c k with
      | Some x => Some x
      | None => exec r2 pos s c k
      end
  | Grp i r => exec r pos s c (fun m s' c' => k m s' (<[i := m]> c'))
  end.
End Matcher.

Fixpoint ngroups (r : regexp) : nat :=
  match r with
  | Cat r1 r2 | Alt r1 r2 => ngroups r1 `max` ngroups r2
  | Grp i r => i `max` ngroups r
  | _ => 0
  end.

(** The leftmost match: every start offset in turn. *)
Fixpoint find_from (r : regexp) (n pos : nat) (s : string)
    : option (list string) :=
  match exec r pos s (replicate (S n) EmptyString)
          (fun m _ c => Some (<[0 := m]> c)) with
  | Some x => Some x
  | None =>
      match s with
      | String _ s' => find_from r n (S pos) s'
      | EmptyString => None
      end
  end.

(** [Regexp.FindStringSubmatch]: [None] is Go's [nil]; element 0 is the
    whole match, element [i] the text of group [i], empty when the group
    took no part in the match. *)
Definition FindStringSubmatch (r : regexp) (s : string) : option (list string) :=
  find_from r (ngroups r) 0 s.

(** [Regexp.MatchString]. *)
Definition MatchString (r : regexp) (s : string) : bool :=
  match FindStringSubmatch r s with Some _ => true | None => false end.

Arguments FindStringSubmatch : simpl never.
Arguments MatchString : simpl never.

Declare Scope regexp_scope.
Delimit Scope regexp_scope with re.
Bind Scope regexp_scope with regexp.
Infix "+>" := Cat (at level 60, right associativity) : regexp_scope.
Infix "</>" := Alt (at level 65, right associativity) : regexp_scope.

(** [\s+], [\d+] and [.*?]. *)
Definition sp : regexp := Rep true 1 is_space.
Definition num : regexp := Rep true 1 is_digit.
Definition any_lazy : regexp := Rep false 0 is_dot.

(** ** The regular expressions of the plugin *)

Module RE.
Local Open Scope regexp_scope.

(** ["^[A-Z]"]. *)
Definition anyTableHeaderRE : regexp := Bol +> Cls is_upper.

(** [`^(\s+Packets In|\s+Packets Out)`]. *)
Definition packetsRE : regexp :=
  Bol +> Grp 1 ((sp +> Lit "Packets In") </> (sp +> Lit "Packets Out")).

(** [`^(\s+Bytes In|\s+Bytes Out)\s+(\d+)\s+(\d+)`]. *)
Definition bytesRE : regexp :=
  Bol +> Grp 1 ((sp +> Lit "Bytes In") </> (sp +> Lit "Bytes Out")) +>
  sp +> Grp 2 num +> sp +> Grp 3 num.

(** [`^\s+(.*?)\s+(\d+)\s+(\d+)`]. *)
Definition IPvRE : regexp :=
  Bol +> sp +> Grp 1 any_lazy +> sp +> Grp 2 num +> sp +> Grp 3 num.

(** [`^\s+(.*?)\s+(\d+)`], the value of [interfaceTableRE],
    [stateTableRE] and [counterTableRE] alike. *)
Definition tableRE : regexp :=
  Bol +> sp +> Grp 1 any_lazy +> sp +> Grp 2 num.
Definition interfaceTableRE : regexp := tableRE.
Definition stateTableRE : regexp := tableRE.
Definition counterTableRE : regexp := tableRE.

(** The earlier variant's [`^\s+(Packets In)|\s+(Packets Out)`]:
    alternation binds loosest, so only the first branch is anchored. *)
Definition packetsRE0 : regexp :=
  (Bol +> sp +> Grp 1 (Lit "Packets In")) </> (sp +> Grp 2 (Lit "Packets Out")).
End RE.

(** ** [bufio.Scanner] with the default [ScanLines] split function

    The tokens are the lines of the text, without their line feed and
    without one trailing carriage return; a final line needs no line feed,
    and an empty final line is no token.  (Lines are taken to be shorter
    than [bufio.MaxScanTokenSize], 64 KiB.) *)

Definition LF : ascii := "010"%char.
Definition CR : ascii := "013"%char.

Fixpoint dropCR (s : string) : string :=
  match s with
  | EmptyString => EmptyString
  | String c EmptyString => if Ascii.eqb c CR then EmptyString else s
  | String c s' => String c (dropCR s')
  end.

Fixpoint split_lines (s : string) : list string :=
  match s with
  | EmptyString => []
  | String c s' =>
      if Ascii.eqb c LF then EmptyString :: split_lines s'
      else match split_lines s' with
           | [] => [String c EmptyString]
           | l :: ls => String c l :: ls
           end
  end.

Definition ScanLines (s : string) : list string := dropCR <$> split_lines s.

(** ** [strconv.ParseInt(s, 10, 64)] *)

Inductive num_err : Type := ErrSyntax | ErrRange.

Definition digit_val (c : ascii) : N := (N_of_ascii c - 48)%N.

(** The loop of [ParseUint] for base 10 and 64 bits: [n] is the value
    read so far. *)
Fixpoint parse_uint (s : string) (n : N) : N + num_err :=
  match s with
  | EmptyString => inl n
  | String c s' =>
      if is_digit c then
        if (2 ^ 64 `div` 10 + 1 <=? n)%N then inr ErrRange
        else
          let n1 := (n * 10 + digit_val c)%N in
          if (2 ^ 64 - 1 <? n1)%N then inr ErrRange else parse_uint s' n1
      else inr ErrSyntax
  end.

Definition ParseUint (s : string) : N * option num_err :=
  match s with
  | EmptyString => (0%N, Some ErrSyntax)
  | _ =>
      match parse_uint s 0 with
      | inl n => (n, None)
      | inr ErrSyntax => (0%N, Some ErrSyntax)
      | inr ErrRange => ((2 ^ 64 - 1)%N, Some ErrRange)
      end
  end.

(** ** Errors *)

Inductive error : Type :=
  | errParseHeader
  | errMissingData (tag : string)
  | NumError (func num : string) (err : num_err).

Definition ParseInt (s0 : string) : Z * option error :=
  match s0 with
  | EmptyString => (0%Z, Some (NumError "ParseInt" s0 ErrSyntax))
  | String c s1 =>
      let neg := Ascii.eqb c "-" in
      let s := if Ascii.eqb c "+" || neg then s1 else s0 in
      match ParseUint s with
      | (_, Some ErrSyntax) => (0%Z, Some (NumError "ParseInt" s0 ErrSyntax))
      | (un, _) =>
          let cutoff := (2 ^ 63)%N in
          if negb neg && (cutoff <=? un)%N
          then ((2 ^ 63 - 1)%Z, Some (NumError "ParseInt" s0 ErrRange))
          else if neg && (cutoff <? un)%N
          then ((- 2 ^ 63)%Z, Some (NumError "ParseInt" s0 ErrRange))
          else ((if neg then - Z.of_N un else Z.of_N un)%Z, None)
      end
  end.

Definition pfctlCommand : string := "pfctl".
Definition measurement : string := "pf".
Definition quote : string := String "034"%char EmptyString.

(** [error.Error()], the message of an error. *)
Definition Error (e : error) : string :=
  match e with
  | errParseHeader => "Cannot find header in " +:+ pfctlCommand +:+ " output"
  | errMissingData tag =>
      "struct data for tag " +:+ quote +:+ tag +:+ quote +:+
      " not found in " +:+ pfctlCommand +:+ " output"
  | NumError func num err =>
      "strconv." +:+ func +:+ ": parsing " +:+ quote +:+ num +:+ quote +:+ ": " +:+
      match err with
      | ErrSyntax => "invalid syntax"
      | ErrRange => "value out of range"
      end
  end.

(** ** The data model *)

(** [type Entry struct]. *)
Record Entry : Type := mkEntry {
  Field : string;
  PfctlTitle : string;
  Value : Z
}.

(** The three package-level entry tables, as they currently stand. *)
Record Tables : Type := mkTables {
  interfaceTable : list Entry;
  stateTable : list Entry;
  counterTable : list Entry
}.

(** A [ParseFunc] takes the lines of a stanza and the [fields] map; it
    updates one global table and the map. *)
Definition parse_func : Type :=
  list string -> gmap string Z -> Tables -> Tables * gmap string Z * option error.

(** [type pfctlOutputStanza struct]. *)
Record pfctlOutputStanza : Type := mkStanza {
  HeaderRE : regexp;
  ParseFunc : parse_func;
  Found : bool;
  Optional : bool
}.

Record Globals : Type := mkGlobals {
  pfctlOutputStanzas : list pfctlOutputStanza;
  tables : Tables
}.

(** The calls received by a [telegraf.Accumulator]. *)
Inductive acc_call : Type :=
  | AddFields (m : string) (fields : gmap string Z) (tags : gmap string string)
  | AddError (e : error).

(** ** The field extractor, [storeFieldValues] *)

(** [for _, f := range entryTable]: every entry whose title is the label
    takes the parsed value; [f.Value] is assigned before the error is
    looked at. *)
Fixpoint store_value (title digits : string) (entryTable : list Entry)
    : list Entry * option error :=
  match entryTable with
  | [] => ([], None)
  | f :: rest =>
      if String.eqb (PfctlTitle f) title then
        let '(v, err) := ParseInt digits in
        let f' := mkEntry (Field f) (PfctlTitle f) v in
        match err with
        | Some e => (f' :: rest, Some e)
        | None =>
            let '(rest', e) := store_value title digits rest in
            (f' :: rest', e)
        end
      else
        let '(rest', e) := store_value title digits rest in
        (f :: rest', e)
  end.

(** [for _, v := range lines]. *)
Fixpoint store_lines (lines : list string) (regex : regexp)
    (entryTable : list Entry) : list Entry * option error :=
  match lines with
  | [] => (entryTable, None)
  | v :: lines' =>
      match FindStringSubmatch regex v with
      | Some entries =>
          match store_value (entries !!! 1) (entries !!! 2) entryTable with
          | (t, Some err) => (t, Some err)
          | (t, None) => store_lines lines' regex t
          end
      | None => store_lines lines' regex entryTable
      end
  end.

(** [for _, v := range entryTable]: the completeness check and the copy
    into [fields]. *)
Fixpoint store_fields (entryTable : list Entry) (fields : gmap string Z)
    : gmap string Z * option error :=
  match entryTable with
  | [] => (fields, None)
  | v :: rest =>
      if (Value v =? -1)%Z then (fields, Some (errMissingData (PfctlTitle v)))
      else store_fields rest (<[Field v := Value v]> fields)
  end.

Definition storeFieldValues (lines : list string) (regex : regexp)
    (fields : gmap string Z) (entryTable : list Entry)
    : list Entry * gmap string Z * option error :=
  match store_lines lines regex entryTable with
  | (t, Some err) => (t, fields, Some err)
  | (t, None) =>
      let '(fields', err) := store_fields t fields in
      (t, fields', err)
  end.

Definition parseInterfaceTable : parse_func := fun lines fields T =>
  let '(t, fields', err) :=
    storeFieldValues lines RE.interfaceTableRE fields (interfaceTable T) in
  (mkTables t (stateTable T) (counterTable T), fields', err).

Definition parseStateTable : parse_func := fun lines fields T =>
  let '(t, fields', err) :=
    storeFieldValues lines RE.stateTableRE fields (stateTable T) in
  (mkTables (interfaceTable T) t (counterTable T), fields', err).

Definition parseCounterTable : parse_func := fun lines fields T =>
  let '(t, fields', err) :=
    storeFieldValues lines RE.counterTableRE fields (counterTable T) in
  (mkTables (interfaceTable T) (stateTable T) t, fields', err).

Definition StateTable : list Entry := [
  mkEntry "entries" "current entries" (-1);
  mkEntry "searches" "searches" (-1);
  mkEntry "inserts" "inserts" (-1);
  mkEntry "removals" "removals" (-1)
].

Definition CounterTable : list Entry := [
  mkEntry "match" "match" (-1);
  mkEntry "bad-offset" "bad-offset" (-1);
  mkEntry "fragment" "fragment" (-1);
  mkEntry "short" "short" (-1);
  mkEntry "normalize" "normalize" (-1);
  mkEntry "memory" "memory" (-1);
  mkEntry "bad-timestamp" "bad-timestamp" (-1);
  mkEntry "congestion" "congestion" (-1);
  mkEntry "ip-option" "ip-option" (-1);
  mkEntry "proto-cksum" "proto-cksum" (-1);
  mkEntry "state-mismatch" "state-mismatch" (-1);
  mkEntry "state-insert" "state-insert" (-1);
  mkEntry "state-limit" "state-limit" (-1);
  mkEntry "src-limit" "src-limit" (-1);
  mkEntry "synproxy" "synproxy" (-1)
].

(** [var pfctlOutputStanzas], as declared. *)
Definition pfctlOutputStanzas0 : list pfctlOutputStanza := [
  mkStanza (Bol +> Lit "Interface Stats") parseInterfaceTable false true;
  mkStanza (Bol +> Lit "State Table") parseStateTable false false;
  mkStanza (Bol +> Lit "Counters") parseCounterTable false false
].

(** ** The stanza scanner, [parsePfctlOutput]

    The scanner is the list [pending] of the tokens not read yet:
    [scanner.Scan()] pops one, and [scanner.Text()] is the empty string
    once a [Scan] has failed.  The two versions of the file differ in
    the collection of the lines of a stanza only, from
    [var stanzaLines []string] to the end of the loop
    [for !anyTableHeaderRE.MatchString(line)].  This is the parameter
    [collect]: from the pending tokens it gives the collected lines, the
    value of [line] when the loop is left and the tokens still pending. *)

Section Parse.
Variable collect : list string -> list string * string * list string.

(** [for _, s := range pfctlOutputStanzas], for one value of [line]
    read by the outer loop; [line] and the scanner are shared by the
    iterations. *)
Fixpoint range_stanzas (ss : list pfctlOutputStanza) (line : string)
    (pending : list string) (fields : gmap string Z) (T : Tables)
    : list pfctlOutputStanza * list string * gmap string Z * Tables * option error :=
  match ss with
  | [] => ([], pending, fields, T, None)
  | s :: rest =>
      if MatchString (HeaderRE s) line then
        let '(stanzaLines, line2, pending2) := collect pending in
        match ParseFunc s stanzaLines fields T with
        | (T', fields', Some perr) => (s :: rest, pending2, fields', T', Some perr)
        | (T', fields', None) =>
            let s' := mkStanza (HeaderRE s) (ParseFunc s) true (Optional s) in
            let '(rest', pending3, fields'', T'', err) :=
              range_stanzas rest line2 pending2 fields' T' in
            (s' :: rest', pending3, fields'', T'', err)
        end
      else
        let '(rest', pending', fields', T', err) :=
          range_stanzas rest line pending fields T in
        (s :: rest', pending', fields', T', err)
  end.

(** [for scanner.Scan()]; [None] when the fuel runs out. *)
Fixpoint scan_loop (fuel : nat) (pending : list string)
    (ss : list pfctlOutputStanza) (fields : gmap string Z) (T : Tables)
    : option (list pfctlOutputStanza * gmap string Z * Tables * option error) :=
  match fuel with
  | O => None
  | S fuel' =>
      match pending with
      | [] => Some (ss, fields, T, None)
      | line :: pending1 =>
          match range_stanzas ss line pending1 fields T with
          | (ss', _, fields', T', Some perr) => Some (ss', fields', T', Some perr)
          | (ss', pending2, fields', T', None) =>
              scan_loop fuel' pending2 ss' fields' T'
          end
      end
  end.

(** Every turn of the loop takes a token: one more than their number
    is fuel enough. *)
Definition scan_all (pending : list string) :=
  scan_loop (S (length pending)) pending.

(** The final loop: every stanza not optional must have been found. *)
Fixpoint check_found (ss : list pfctlOutputStanza) : option error :=
  match ss with
  | [] => None
  | s :: rest =>
      if Optional s then check_found rest
      else if negb (Found s) then Some errParseHeader
      else check_found rest
  end.

Definition parsePfctlOutput (pfoutput : string) (acc : list acc_call)
    (G : Globals) : option (Globals * list acc_call * option error) :=
  let fields : gmap string Z := ∅ in
  let scanner := ScanLines pfoutput in
  match scan_all scanner (pfctlOutputStanzas G) fields (tables G) with
  | None => None
  | Some (ss, fields, T, Some perr) => Some (mkGlobals ss T, acc, Some perr)
  | Some (ss, fields, T, None) =>
      match check_found ss with
      | Some err => Some (mkGlobals ss T, acc, Some err)
      | None =>
          Some (mkGlobals ss T, acc ++ [AddFields measurement fields ∅], None)
      end
  end.
End Parse.

(** ** [pf.go] *)

Module Pf.

(** [fmt.Sprintf("%s %s IPv4 %s", ...)] and its IPv6 twin appended to
    [stanzaLines], when [line] matches [IPvRE]. *)
Definition expand_packets (entries : list string) (line : string)
    (stanzaLines : list string) : list string :=
  match FindStringSubmatch RE.IPvRE line with
  | Some statsEntries =>
      stanzaLines
      ++ [(entries !!! 1) +:+ " " +:+ (statsEntries !!! 1) +:+ " IPv4 " +:+ (statsEntries !!! 2)]
      ++ [(entries !!! 1) +:+ " " +:+ (statsEntries !!! 1) +:+ " IPv6 " +:+ (statsEntries !!! 3)]
  | None => stanzaLines
  end.

(** The loop [for !anyTableHeaderRE.MatchString(line)].  In the
    [Packets] branch the two [scanner.Scan()] of the inner loop and the
    one that ends the body are the three tokens taken from [pending]. *)
Fixpoint stanza_lines (line : string) (pending stanzaLines : list string)
    {struct pending} : list string * string * list string :=
  if MatchString RE.anyTableHeaderRE line then (stanzaLines, line, pending)
  else
    match FindStringSubmatch RE.packetsRE line with
    | Some entries =>
        match pending with
        | [] => (stanzaLines, line, [])
        | [l1] => (expand_packets entries l1 stanzaLines, l1, [])
        | [l1; l2] =>
            (expand_packets entries l2 (expand_packets entries l1 stanzaLines), l2, [])
        | l1 :: l2 :: l3 :: p =>
            stanza_lines l3 p
              (expand_packets entries l2 (expand_packets entries l1 stanzaLines))
        end
    | None =>
        let stanzaLines' :=
          match FindStringSubmatch RE.bytesRE line with
          | Some entries =>
              stanzaLines
              ++ [(entries !!! 1) +:+ " IPv4 " +:+ (entries !!! 2)]
              ++ [(entries !!! 1) +:+ " IPv6 " +:+ (entries !!! 3)]
          | None => stanzaLines ++ [line]
          end in
        match pending with
        | [] => (stanzaLines', line, [])
        | l :: p => stanza_lines l p stanzaLines'
        end
    end.

(** The end of the body of the loop: [more := scanner.Scan()], then
    the next turn of the loop, or [break]. *)
Definition next_turn (line : string) (pending stanzaLines : list string)
    : list string * string * list string :=
  match pending with
  | [] => (stanzaLines, line, [])
  | l :: p => stanza_lines l p stanzaLines
  end.

Definition InterfaceTable : list Entry := [
  mkEntry "bytes4-in" "Bytes In IPv4" (-1);
  mkEntry "bytes4-out" "Bytes Out IPv4" (-1);
  mkEntry "bytes6-in" "Bytes In IPv6" (-1);
  mkEntry "bytes6-out" "Bytes Out IPv6" (-1);
  mkEntry "packets4-in-passed" "Packets In Passed IPv4" (-1);
  mkEntry "packets4-in-blocked" "Packets In Blocked IPv4" (-1);
  mkEntry "packets4-out-passed" "Packets Out Passed IPv4" (-1);
  mkEntry "packets4-out-blocked" "Packets Out Blocked IPv4" (-1);
  mkEntry "packets6-in-passed" "Packets In Passed IPv6" (-1);
  mkEntry "packets6-in-blocked" "Packets In Blocked IPv6" (-1);
  mkEntry "packets6-out-passed" "Packets Out Passed IPv6" (-1);
  mkEntry "packets6-out-blocked" "Packets Out Blocked IPv6" (-1)
].

(** The package-level variables when the program starts. *)
Definition init : Globals :=
  mkGlobals pfctlOutputStanzas0 (mkTables InterfaceTable StateTable CounterTable).

(** [scanner.Scan(); line = scanner.Text()], then the loop. *)
Definition collect (pending : list string) : list string * string * list string :=
  match pending with
  | [] => stanza_lines "" [] []
  | l :: p => stanza_lines l p []
  end.

Definition parsePfctlOutput := parsePfctlOutput collect.

End Pf.

(** ** The earlier variant of the file (one key per counter) *)

Module Pf0.

(** [strings.TrimLeft(line, " ")]. *)
Fixpoint TrimLeft_space (s : string) : string :=
  match s with
  | String " " s' => TrimLeft_space s'
  | _ => s
  end.

(** [entries[0] + " " + strings.TrimLeft(line, " ")] appended to
    [stanzaLines]. *)
Definition expand_packets (entries : list string) (line : string)
    (stanzaLines : list string) : list string :=
  stanzaLines ++ [(entries !!! 0) +:+ " " +:+ TrimLeft_space line].

Fixpoint stanza_lines (line : string) (pending stanzaLines : list string)
    {struct pending} : list string * string * list string :=
  if MatchString RE.anyTableHeaderRE line then (stanzaLines, line, pending)
  else
    match FindStringSubmatch RE.packetsRE0 line with
    | Some entries =>
        match pending with
        | [] => (stanzaLines, line, [])
        | [l1] => (expand_packets entries l1 stanzaLines, l1, [])
        | [l1; l2] =>
            (expand_packets entries l2 (expand_packets entries l1 stanzaLines), l2, [])
        | l1 :: l2 :: l3 :: p =>
            stanza_lines l3 p
              (expand_packets entries l2 (expand_packets entries l1 stanzaLines))
        end
    | None =>
        match pending with
        | [] => (stanzaLines ++ [line], line, [])
        | l :: p => stanza_lines l p (stanzaLines ++ [line])
        end
    end.

Definition InterfaceTable : list Entry := [
  mkEntry "bytes-in" "Bytes In" (-1);
  mkEntry "bytes-out" "Bytes Out" (-1);
  mkEntry "packets-in-passed" "Packets In Passed" (-1);
  mkEntry "packets-in-blocked" "Packets In Blocked" (-1);
  mkEntry "packets-out-passed" "Packets Out Passed" (-1);
  mkEntry "packets-out-blocked" "Packets Out Blocked" (-1)
].

Definition init : Globals :=
  mkGlobals pfctlOutputStanzas0 (mkTables InterfaceTable StateTable CounterTable).

Definition collect (pending : list string) : list string * string * list string :=
  match pending with
  | [] => stanza_lines "" [] []
  | l :: p => stanza_lines l p []
  end.

Definition parsePfctlOutput := parsePfctlOutput collect.

End Pf0.

(** ** Shapes of lines *)

Fixpoint all (p : ascii -> bool) (s : string) : bool :=
  match s with
  | EmptyString => true
  | String a s' => p a && all p s'
  end.

(** Does the string start with a character of the class? *)
Definition starts (p : ascii -> bool) (s : string) : bool :=
  match s with
  | String a _ => p a
  | EmptyString => false
  end.

Fixpoint ends (p : ascii -> bool) (s : string) : bool :=
  match s with
  | EmptyString => false
  | String a EmptyString => p a
  | String _ s' => ends p s'
  end.

(** No white space immediately followed by a digit. *)
Fixpoint no_sp_digit (s : string) : bool :=
  match s with
  | String a s' => negb (is_space a && starts is_digit s') && no_sp_digit s'
  | EmptyString => true
  end.

(** A label the table expression can capture whole: it starts and ends
    with something that is not white space, and offers the expression no
    earlier place to stop. *)
Definition label_ok (l : string) : bool :=
  starts (fun c => negb (is_space c)) l && ends (fun c => negb (is_space c)) l
  && all is_dot l && no_sp_digit l.

(** The integer a run of decimal digits stands for. *)
Fixpoint decimal_from (n : N) (s : string) : N :=
  match s with
  | EmptyString => n
  | String c s' => decimal_from (n * 10 + digit_val c) s'
  end.

Definition decimal (s : string) : N := decimal_from 0 s.

(** The literal integer of a sample, as the [int64] it denotes. *)
Definition value (s : string) : Z := Z.of_N (decimal s).

(** A decimal literal that fits [int64]. *)
Definition number (s : string) : bool :=
  negb (String.eqb s "") && all is_digit s && (decimal s <? 2 ^ 63)%N.

Definition is_blank (c : ascii) : bool :=
  match c with
  | " "%char | "009"%char => true
  | _ => false
  end.

(** White space between the columns: spaces and tabs, at least one. *)
Definition blank (s : string) : bool := negb (String.eqb s "") && all is_blank s.

(** Text without line feed or carriage return. *)
Definition clean (s : string) : bool :=
  all (fun c => negb (Ascii.eqb c LF) && negb (Ascii.eqb c CR)) s.

(** What may follow a number on its line. *)
Definition rest_ok (s : string) : bool := clean s && negb (starts is_digit s).

(** A line with a label and one number: indentation, label, white space,
    digits, rest of the line. *)
Record row : Type := Row {
  ind : string;
  gap : string;
  digits : string;
  rest : string
}.

Definition row_ok (r : row) : bool :=
  blank (ind r) && blank (gap r) && number (digits r) && rest_ok (rest r).

Definition row_line (label : string) (r : row) : string :=
  ind r +:+ label +:+ gap r +:+ digits r +:+ rest r.

(** A line with a label and the IPv4 and IPv6 columns. *)
Record row2 : Type := Row2 {
  ind2 : string;
  gap2 : string;
  ipv4 : string;
  mid : string;
  ipv6 : string;
  rest2 : string
}.

Definition row2_ok (r : row2) : bool :=
  blank (ind2 r) && blank (gap2 r) && number (ipv4 r) && blank (mid r)
  && number (ipv6 r) && rest_ok (rest2 r).

Definition row2_line (label : string) (r : row2) : string :=
  ind2 r +:+ label +:+ gap2 r +:+ ipv4 r +:+ mid r +:+ ipv6 r +:+ rest2 r.

(** The first column of a two-column line, with the second column as
    the rest of the line. *)
Definition first_column (r : row2) : row :=
  Row (ind2 r) (gap2 r) (ipv4 r) (mid r +:+ ipv6 r +:+ rest2 r).

(** A label of the state or counter stanza: a label that does not start
    a [Packets] or [Bytes] line. *)
Definition plain_label (l : string) : bool :=
  label_ok l && negb (starts (fun c => Ascii.eqb "P" c || Ascii.eqb "B" c) l).

(** Setting the value of the entries with a given title. *)
Definition assign (title : string) (v : Z) (t : list Entry) : list Entry :=
  (fun f => if String.eqb (PfctlTitle f) title
            then mkEntry (Field f) (PfctlTitle f) v else f) <$> t.

(** ** Well-formed samples of [pfctl -s info]

    A sample is given by what varies from one run of [pfctl] to the
    next: the text around the stanzas, the white space between the
    columns and the numbers.  The rows of a stanza come in the order of
    its table. *)

Record interface_stanza : Type := Interface {
  if_title : string;                 (* after "Interface Stats" *)
  bytes_in : row2;
  bytes_out : row2;
  pin_ind : string;                  (* the "Packets In" line *)
  pin_rest : string;
  in_passed : row2;
  in_blocked : row2;
  pout_ind : string;                 (* the "Packets Out" line *)
  pout_rest : string;
  out_passed : row2;
  out_blocked : row2;
  if_blank : nat                     (* empty lines after the stanza *)
}.

Record sample : Type := Sample {
  preamble : list string;            (* lines before the first stanza *)
  interface : option interface_stanza;
  st_title : string;                 (* after "State Table" *)
  state : list row;
  st_blank : nat;
  ct_title : string;                 (* after "Counters" *)
  counters : list row;
  ct_blank : nat
}.

Definition no_header (l : string) : bool :=
  negb (String.prefix "Interface Stats" l)
  && negb (String.prefix "State Table" l)
  && negb (String.prefix "Counters" l).

Definition interface_ok (i : interface_stanza) : bool :=
  clean (if_title i)
  && row2_ok (bytes_in i) && row2_ok (bytes_out i)
  && blank (pin_ind i) && clean (pin_rest i)
  && row2_ok (in_passed i) && row2_ok (in_blocked i)
  && blank (pout_ind i) && clean (pout_rest i)
  && row2_ok (out_passed i) && row2_ok (out_blocked i).

Definition sample_ok (s : sample) : bool :=
  forallb (fun l => clean l && no_header l) (preamble s)
  && from_option interface_ok true (interface s)
  && clean (st_title s)
  && (length (state s) =? length StateTable) && forallb row_ok (state s)
  && clean (ct_title s)
  && (length (counters s) =? length CounterTable) && forallb row_ok (counters s).

Definition interface_rows (i : interface_stanza) : list string :=
  [ row2_line "Bytes In" (bytes_in i);
    row2_line "Bytes Out" (bytes_out i);
    pin_ind i +:+ "Packets In" +:+ pin_rest i;
    row2_line "Passed" (in_passed i);
    row2_line "Blocked" (in_blocked i);
    pout_ind i +:+ "Packets Out" +:+ pout_rest i;
    row2_line "Passed" (out_passed i);
    row2_line "Blocked" (out_blocked i) ]
  ++ replicate (if_blank i) "".

Definition interface_header (i : interface_stanza) : string :=
  "Interface Stats" +:+ if_title i.

Definition rows_of (table : list Entry) (rows : list row) : list string :=
  zip_with row_line (PfctlTitle <$> table) rows.

Definition state_header (s : sample) : string := "State Table" +:+ st_title s.
Definition state_rows (s : sample) : list string :=
  rows_of StateTable (state s) ++ replicate (st_blank s) "".

Definition counter_header (s : sample) : string := "Counters" +:+ ct_title s.
Definition counter_rows (s : sample) : list string :=
  rows_of CounterTable (counters s) ++ replicate (ct_blank s) "".

Definition interface_lines (s : sample) : list string :=
  match interface s with
  | Some i => interface_header i :: interface_rows i
  | None => []
  end.

(** The lines of the sample. *)
Definition sample_lines (s : sample) : list string :=
  preamble s ++ interface_lines s
  ++ state_header s :: state_rows s
  ++ counter_header s :: counter_rows s.

(** The text of a list of lines, each ended by [eol]. *)
Fixpoint unlines (eol : string) (ls : list string) : string :=
  match ls with
  | [] => ""
  | l :: ls' => l +:+ eol +:+ unlines eol ls'
  end.

(** The two line endings. *)
Definition is_eol (eol : string) : bool :=
  String.eqb eol (String LF "") || String.eqb eol (String CR (String LF "")).

(** The values a table takes from its rows. *)
Definition values_of (rows : list row) : list Z := (fun r => value (digits r)) <$> rows.

Definition keys_of (table : list Entry) : list string := Field <$> table.

(** A line that the stanza loop of [pf.go] appends as it is. *)
Definition plain (l : string) : Prop :=
  starts is_upper l = false
  /\ FindStringSubmatch RE.packetsRE l = None
  /\ FindStringSubmatch RE.bytesRE l = None.

(** The line [pf.go] makes for one column: the indentation and the
    label, one space, the number. *)
Definition synthetic (label i d : string) : string := row_line label (Row i " " d "").

(** The lines [pf.go] collects from the rows of the interface stanza. *)
Definition interface_synthetic (i : interface_stanza) : list string :=
  [ synthetic "Bytes In IPv4" (ind2 (bytes_in i)) (ipv4 (bytes_in i));
    synthetic "Bytes In IPv6" (ind2 (bytes_in i)) (ipv6 (bytes_in i));
    synthetic "Bytes Out IPv4" (ind2 (bytes_out i)) (ipv4 (bytes_out i));
    synthetic "Bytes Out IPv6" (ind2 (bytes_out i)) (ipv6 (bytes_out i));
    synthetic "Packets In Passed IPv4" (pin_ind i) (ipv4 (in_passed i));
    synthetic "Packets In Passed IPv6" (pin_ind i) (ipv6 (in_passed i));
    synthetic "Packets In Blocked IPv4" (pin_ind i) (ipv4 (in_blocked i));
    synthetic "Packets In Blocked IPv6" (pin_ind i) (ipv6 (in_blocked i));
    synthetic "Packets Out Passed IPv4" (pout_ind i) (ipv4 (out_passed i));
    synthetic "Packets Out Passed IPv6" (pout_ind i) (ipv6 (out_passed i));
    synthetic "Packets Out Blocked IPv4" (pout_ind i) (ipv4 (out_blocked i));
    synthetic "Packets Out Blocked IPv6" (pout_ind i) (ipv6 (out_blocked i)) ].

(** A table with given values. *)
Definition with_values (table : list Entry) (vals : list Z) : list Entry :=
  zip_with (fun e v => mkEntry (Field e) (PfctlTitle e) v) table vals.

(** The copy of a complete table into [fields]. *)
Definition put_all (table : list Entry) (fields : gmap string Z) : gmap string Z :=
  foldl (fun m e => <[Field e := Value e]> m) fields table.

(** The values of the interface stanza, in the order of
    [Pf.InterfaceTable]. *)
Definition interface_values (i : interface_stanza) : list Z :=
  [ value (ipv4 (bytes_in i)); value (ipv4 (bytes_out i));
    value (ipv6 (bytes_in i)); value (ipv6 (bytes_out i));
    value (ipv4 (in_passed i)); value (ipv4 (in_blocked i));
    value (ipv4 (out_passed i)); value (ipv4 (out_blocked i));
    value (ipv6 (in_passed i)); value (ipv6 (in_blocked i));
    value (ipv6 (out_passed i)); value (ipv6 (out_blocked i)) ].

(** The stanza table with given [Found] flags: only these change. *)
Definition stanzas (fI fS fC : bool) : list pfctlOutputStanza := [
  mkStanza (Bol +> Lit "Interface Stats") parseInterfaceTable fI true;
  mkStanza (Bol +> Lit "State Table") parseStateTable fS false;
  mkStanza (Bol +> Lit "Counters") parseCounterTable fC false
].

(** The output map as the list of its keys and values. *)
Definition table_fields (table : list Entry) (vals : list Z) : gmap string Z :=
  list_to_map (zip (keys_of table) vals).

(** The state of the package-level variables: the tables with some
    values, the stanzas with some [Found] flags. *)
Definition globals_of (I : list Entry) (fI fS fC : bool) (vI vS vC : list Z) : Globals :=
  mkGlobals (stanzas fI fS fC)
    (mkTables (with_values I vI) (with_values StateTable vS) (with_values CounterTable vC)).

(** States the program can be in between two calls. *)
Definition reachable (I : list Entry) (G : Globals) : Prop :=
  exists fI fS fC vI vS vC,
    length vI = length I /\ length vS = length StateTable
    /\ length vC = length CounterTable
    /\ G = globals_of I fI fS fC vI vS vC.

(** The output map of [pf.go] on a sample: each column of the interface
    stanza under its own key. *)
Definition state_counter_fields (s : sample) : gmap string Z :=
  table_fields CounterTable (values_of (counters s))
  ∪ table_fields StateTable (values_of (state s)).

Definition Pf_fields (s : sample) : gmap string Z :=
  match interface s with
  | Some i =>
      state_counter_fields s ∪ table_fields Pf.InterfaceTable (interface_values i)
  | None => state_counter_fields s
  end.

(** The sample without the header line of the interface stanza: the
    rows of the stanza are lines before the first stanza. *)
Definition drop_interface_header (s : sample) : sample :=
  Sample (preamble s ++ from_option interface_rows [] (interface s)) None
    (st_title s) (state s) (st_blank s) (ct_title s) (counters s) (ct_blank s).

(** The package-level variables after [pf.go] has parsed a sample. *)
Definition Pf_after (s : sample) (G : Globals) : Globals :=
  mkGlobals
    (stanzas
       (match interface s with
        | Some _ => true
        | None => from_option Found false (pfctlOutputStanzas G !! 0)
        end) true true)
    (mkTables
       (match interface s with
        | Some i => with_values Pf.InterfaceTable (interface_values i)
        | None => interfaceTable (tables G)
        end)
       (with_values StateTable (values_of (state s)))
       (with_values CounterTable (values_of (counters s)))).

(** The sample without the header line of the state table. *)
Definition without_state_header (s : sample) : list string :=
  preamble s ++ interface_lines s
  ++ state_rows s
  ++ counter_header s :: counter_rows s.

(** The sample without the header line of the interface stanza. *)
Definition without_interface_header (s : sample) : list string :=
  preamble s ++ from_option interface_rows [] (interface s)
  ++ state_header s :: state_rows s
  ++ counter_header s :: counter_rows s.

(** The sample with its text cut right after the line [Packets In]. *)
Definition cut_after_packets_in (s : sample) : list string :=
  preamble s
  ++ match interface s with
     | Some i => interface_header i :: take 3 (interface_rows i)
     | None => []
     end.

(** The sample without the [removals] line, the last row of the state
    table. *)
Definition without_removals (s : sample) : list string :=
  preamble s ++ interface_lines s
  ++ state_header s :: (rows_of StateTable (take 3 (state s)) ++ replicate (st_blank s) "")
  ++ counter_header s :: counter_rows s.

(** The output of [pfctl -s info] used by the tests of the plugin. *)
Definition pfctl_interface : interface_stanza :=
  Interface " for em0               IPv4             IPv6"
    (Row2 "  " "                        " "11254003" "                " "0" "")
    (Row2 "  " "                         " "420351" "              " "288" "")
    "  " ""
    (Row2 "    " "                           " "30" "                " "0" "")
    (Row2 "    " "                        " "79196" "              " "0" "")
    "  " ""
    (Row2 "    " "                         " "2461" "                " "4" "")
    (Row2 "    " "                            " "0" "                " "0" "")
    1.

Definition pfctl_sample : sample :=
  Sample
    ["Status: Enabled for 0 days 00:26:05           Debug: Urgent"; ""]
    (Some pfctl_interface)
    "                          Total             Rate"
    [ Row "  " "                        " "2" "";
      Row "  " "                           " "11325" "            7.2/s";
      Row "  " "                                " "5" "            0.0/s";
      Row "  " "                               " "3" "            0.0/s" ]
    0
    ""
    [ Row "  " "                              " "11226" "            7.2/s";
      Row "  " "                             " "0" "            0.0/s";
      Row "  " "                               " "0" "            0.0/s";
      Row "  " "                                  " "0" "            0.0/s";
      Row "  " "                              " "0" "            0.0/s";
      Row "  " "                                 " "0" "            0.0/s";
      Row "  " "                          " "0" "            0.0/s";
      Row "  " "                             " "0" "            0.0/s";
      Row "  " "                              " "0" "            0.0/s";
      Row "  " "                            " "0" "            0.0/s";
      Row "  " "                         " "0" "            0.0/s";
      Row "  " "                           " "0" "            0.0/s";
      Row "  " "                            " "0" "            0.0/s";
      Row "  " "                              " "0" "            0.0/s";
      Row "  " "                               " "0" "            0.0/s" ]
    0.

Definition newline : string := String LF "".

(** The keys the specification lists for the output map. *)
Definition spec_keys : gset string :=
  list_to_set
    [ "bytes-in"; "bytes-out"; "packets-in-passed"; "packets-in-blocked";
      "packets-out-passed"; "packets-out-blocked";
      "entries"; "searches"; "inserts"; "removals";
      "match"; "bad-offset"; "fragment"; "short"; "normalize"; "memory";
      "bad-timestamp"; "congestion"; "ip-option"; "proto-cksum";
      "state-mismatch"; "state-insert"; "state-limit"; "src-limit"; "synproxy" ].

(** The keys of the output map of [pf.go]. *)
Definition Pf_keys : gset string :=
  list_to_set
    [ "bytes4-in"; "bytes4-out"; "bytes6-in"; "bytes6-out";
      "packets4-in-passed"; "packets4-in-blocked";
      "packets4-out-passed"; "packets4-out-blocked";
      "packets6-in-passed"; "packets6-in-blocked";
      "packets6-out-passed"; "packets6-out-blocked";
      "entries"; "searches"; "inserts"; "removals";
      "match"; "bad-offset"; "fragment"; "short"; "normalize"; "memory";
      "bad-timestamp"; "congestion"; "ip-option"; "proto-cksum";
      "state-mismatch"; "state-insert"; "state-limit"; "src-limit"; "synproxy" ].

(** What a parse may do to a stanza of the table: set its [Found] flag,
    and only upon a token that matches its header. *)
Definition stanza_step (toks : list string) (st st' : pfctlOutputStanza) : Prop :=
  HeaderRE st' = HeaderRE st /\ ParseFunc st' = ParseFunc st
  /\ Optional st' = Optional st
  /\ (Found st' = true ->
      Found st = true
      \/ exists line, (line = "" \/ line ∈ toks) /\ MatchString (HeaderRE st) line = true).

(** The values of a table are the sentinel [-1] or counters read from a
    text: none is below [-1]. *)
Definition values_ge (t : list Entry) : Prop := Forall (fun e => (-1 <= Value e)%Z) t.

Definition tables_ge (T : Tables) : Prop :=
  values_ge (interfaceTable T) /\ values_ge (stateTable T) /\ values_ge (counterTable T).

(** No value of the map is negative. *)
Definition fields_nonneg (fields : gmap string Z) : Prop :=
  forall k v, fields !! k = Some v -> (0 <= v)%Z.

(** A [ParseFunc] that keeps the tables and the map so. *)
Definition keeps_nonneg (f : parse_func) : Prop :=
  forall lines fields T,
    tables_ge T -> fields_nonneg fields ->
    tables_ge (f lines fields T).1.1 /\ fields_nonneg (f lines fields T).1.2.

(** Fresh state of the package-level variables: every [Found] flag is
    false and every [Value] is the sentinel; the rest is as declared. *)
Definition fresh_entries (t t0 : list Entry) : Prop :=
  Forall2 (fun e e0 =>
    Field e = Field e0 /\ PfctlTitle e = PfctlTitle e0 /\ Value e = (-1)%Z) t t0.

Definition fresh_stanzas (ss : list pfctlOutputStanza) : Prop :=
  Forall2 (fun st st0 =>
    HeaderRE st = HeaderRE st0 /\ ParseFunc st = ParseFunc st0
    /\ Optional st = Optional st0 /\ Found st = false) ss pfctlOutputStanzas0.

Definition fresh (I : list Entry) (G : Globals) : Prop :=
  fresh_stanzas (pfctlOutputStanzas G)
  /\ fresh_entries (interfaceTable (tables G)) I
  /\ fresh_entries (stateTable (tables G)) StateTable
  /\ fresh_entries (counterTable (tables G)) CounterTable.

(** The sample with the two lines after [Packets In] replaced. *)
Definition malformed_packets_in (s : sample) (l1 l2 : string) : list string :=
  preamble s
  ++ match interface s with
     | Some i =>
         interface_header i
         :: take 3 (interface_rows i) ++ l1 :: l2 :: drop 5 (interface_rows i)
     | None => []
     end
  ++ state_header s :: state_rows s
  ++ counter_header s :: counter_rows s.

(** The sample with the lines of the specification: [Bytes In] with
    100 and 200, [Bytes Out] with 300 and 400, and after [Packets In] a
    [Passed] line with 10 and 20 and a [Blocked] line with 30 and 40. *)
Definition spec_interface : interface_stanza :=
  Interface (if_title pfctl_interface)
    (Row2 "  " "    " "100" "    " "200" "")
    (Row2 "  " "   " "300" "    " "400" "")
    "  " ""
    (Row2 "    " "    " "10" "    " "20" "")
    (Row2 "    " "   " "30" "    " "40" "")
    "  " ""
    (out_passed pfctl_interface) (out_blocked pfctl_interface) 1.

Definition spec_sample : sample :=
  Sample (preamble pfctl_sample) (Some spec_interface)
    (st_title pfctl_sample) (state pfctl_sample) (st_blank pfctl_sample)
    (ct_title pfctl_sample) (counters pfctl_sample) (ct_blank pfctl_sample).

(** ** What a parse can end in, on any text *)

(** The tables keep their keys and titles: a parse changes values only. *)
Definition same_entries (t t0 : list Entry) : Prop :=
  Forall2 (fun e e0 => Field e = Field e0 /\ PfctlTitle e = PfctlTitle e0) t t0.

Definition tables_of (I : list Entry) (T : Tables) : Prop :=
  same_entries (interfaceTable T) I
  /\ same_entries (stateTable T) StateTable
  /\ same_entries (counterTable T) CounterTable.

(** The titles of the three tables. *)
Definition titles_of (I : list Entry) : list string :=
  PfctlTitle <$> (I ++ StateTable ++ CounterTable).

(** The errors of [storeFieldValues]: a title without a value, or a run
    of digits that does not fit [int64]. *)
Definition extractor_error (titles : list string) (e : error) : Prop :=
  (exists L, e = errMissingData L /\ L ∈ titles)
  \/ (exists d, e = NumError "ParseInt" d ErrRange
        /\ d <> "" /\ all is_digit d = true /\ (2 ^ 63 <= decimal d)%N).

(** The keys a table gives to the map. *)
Definition key_set (table : list Entry) : gset string := list_to_set (keys_of table).

(** The keys of the stanzas marked as found, given the keys of each. *)
Fixpoint found_keys (ss : list pfctlOutputStanza) (Ks : list (gset string))
    : gset string :=
  match ss, Ks with
  | s :: ss', K :: Ks' => (if Found s then K else ∅) ∪ found_keys ss' Ks'
  | _, _ => ∅
  end.

(** What a [ParseFunc] does, for tables that satisfy [wf]: it keeps them
    so; when it returns no error it has added its keys [K] to the map, and
    its errors satisfy [errs]. *)
Definition parse_func_spec (wf : Tables -> Prop) (errs : error -> Prop)
    (f : parse_func) (K : gset string) : Prop :=
  forall lines fields T, wf T ->
    wf (f lines fields T).1.1
    /\ match (f lines fields T).2 with
       | None => dom (f lines fields T).1.2 = dom fields ∪ K
       | Some e => errs e
       end.

(** ** Stanzas with any rows, in any order

    The rows of the state table and of the counters are labelled rows in
    any number and order; sections the plugin does not know may follow each
    stanza. *)

(** A row with its label. *)
Definition lrow : Type := (string * row)%type.

Definition lrow_ok (lr : lrow) : bool :=
  plain_label lr.1 && clean lr.1 && row_ok lr.2.

Definition lrow_line (lr : lrow) : string := row_line lr.1 lr.2.

(** The last of the rows with a given label. *)
Fixpoint last_row (title : string) (rows : list lrow) : option row :=
  match rows with
  | [] => None
  | lr :: rows' =>
      match last_row title rows' with
      | Some r => Some r
      | None => if String.eqb title lr.1 then Some lr.2 else None
      end
  end.

(** The value the rows leave in an entry that held [v]. *)
Definition last_value (title : string) (rows : list lrow) (v : Z) : Z :=
  from_option (fun r => value (digits r)) v (last_row title rows).

(** The table after the rows have been read. *)
Definition read_rows (rows : list lrow) (t : list Entry) : list Entry :=
  (fun e => mkEntry (Field e) (PfctlTitle e)
              (last_value (PfctlTitle e) rows (Value e))) <$> t.

(** What follows the lines of a stanza: the end of the text, or a line
    that starts with an upper-case letter. *)
Definition ends_stanza (tl : list string) : Prop :=
  match tl with
  | [] => True
  | l :: _ => starts is_upper l = true
  end.

(** A section the plugin does not know: a first line that starts with
    an upper-case letter, and no stanza header. *)
Definition section_ok (g : list string) : bool :=
  match g with
  | [] => true
  | l :: _ => starts is_upper l
  end
  && forallb (fun l => clean l && no_header l) g.

Record gsample : Type := GSample {
  g_preamble : list string;
  g_interface : option interface_stanza;
  g_section1 : list string;
  g_st_title : string;
  g_state : list lrow;
  g_st_blank : nat;
  g_section2 : list string;
  g_ct_title : string;
  g_counters : list lrow;
  g_ct_blank : nat;
  g_section3 : list string
}.

Definition gsample_ok (gs : gsample) : bool :=
  forallb (fun l => clean l && no_header l) (g_preamble gs)
  && from_option interface_ok true (g_interface gs)
  && section_ok (g_section1 gs)
  && clean (g_st_title gs) && forallb lrow_ok (g_state gs)
  && section_ok (g_section2 gs)
  && clean (g_ct_title gs) && forallb lrow_ok (g_counters gs)
  && section_ok (g_section3 gs).

Definition g_state_lines (gs : gsample) : list string :=
  ("State Table" +:+ g_st_title gs)
  :: (lrow_line <$> g_state gs) ++ replicate (g_st_blank gs) "".

Definition g_counter_lines (gs : gsample) : list string :=
  ("Counters" +:+ g_ct_title gs)
  :: (lrow_line <$> g_counters gs) ++ replicate (g_ct_blank gs) "".

Definition g_interface_lines (gs : gsample) : list string :=
  match g_interface gs with
  | Some i => interface_header i :: interface_rows i
  | None => []
  end.

Definition gsample_lines (gs : gsample) : list string :=
  g_preamble gs ++ g_interface_lines gs ++ g_section1 gs
  ++ g_state_lines gs ++ g_section2 gs
  ++ g_counter_lines gs ++ g_section3 gs.

(** The same with the counters before the state table. *)
Definition counters_first (gs : gsample) : list string :=
  g_preamble gs ++ g_interface_lines gs ++ g_section1 gs
  ++ g_counter_lines gs ++ g_section2 gs
  ++ g_state_lines gs ++ g_section3 gs.

(** The tables after [pf.go] has parsed the text without error. *)
Definition g_tables (gs : gsample) (T : Tables) : Tables :=
  mkTables
    (match g_interface gs with
     | Some i => with_values Pf.InterfaceTable (interface_values i)
     | None => interfaceTable T
     end)
    (read_rows (g_state gs) (stateTable T))
    (read_rows (g_counters gs) (counterTable T)).

(** The map [pf.go] hands to the sink. *)
Definition g_fields (gs : gsample) (T : Tables) : gmap string Z :=
  put_all (counterTable (g_tables gs T))
    (put_all (stateTable (g_tables gs T))
       (match g_interface gs with
        | Some i => put_all (interfaceTable (g_tables gs T)) ∅
        | None => ∅
        end)).

(** No entry holds the sentinel. *)
Definition complete (t : list Entry) : Prop := Forall (fun e => Value e <> (-1)%Z) t.

(** Does every title of the table label one of the rows? *)
Definition has_rows (t : list Entry) (rows : list lrow) : bool :=
  forallb (fun e => bool_decide (PfctlTitle e ∈ rows.*1)) t.

(** An output of [pfctl -s info] with more rows than the plugin knows,
    and a section after the counters. *)
Definition pfctl_gsample : gsample :=
  GSample
    ["Status: Enabled for 0 days 00:26:05           Debug: err"; ""]
    None []
    "                          Total             Rate"
    [ ("current entries", Row "  " "                        " "2" "");
      ("half-open tcp", Row "  " "                          " "0" "");
      ("searches", Row "  " "                           " "11325" "            7.2/s");
      ("inserts", Row "  " "                                " "5" "            0.0/s");
      ("removals", Row "  " "                               " "3" "            0.0/s") ]
    0 []
    ""
    [ ("match", Row "  " "                              " "11226" "            7.2/s");
      ("bad-offset", Row "  " "                             " "0" "            0.0/s");
      ("fragment", Row "  " "                               " "0" "            0.0/s");
      ("short", Row "  " "                                  " "0" "            0.0/s");
      ("normalize", Row "  " "                              " "0" "            0.0/s");
      ("memory", Row "  " "                                 " "0" "            0.0/s");
      ("bad-timestamp", Row "  " "                          " "0" "            0.0/s");
      ("congestion", Row "  " "                             " "0" "            0.0/s");
      ("ip-option", Row "  " "                              " "0" "            0.0/s");
      ("proto-cksum", Row "  " "                            " "0" "            0.0/s");
      ("state-mismatch", Row "  " "                         " "0" "            0.0/s");
      ("state-insert", Row "  " "                           " "0" "            0.0/s");
      ("state-limit", Row "  " "                            " "0" "            0.0/s");
      ("src-limit", Row "  " "                              " "0" "            0.0/s");
      ("synproxy", Row "  " "                               " "0" "            0.0/s");
      ("translate", Row "  " "                              " "0" "            0.0/s");
      ("no-route", Row "  " "                               " "0" "            0.0/s") ]
    0
    [ "Limit Counters";
      "  max states per rule                    0            0.0/s" ].

(** The same without rows: the two headers only. *)
Definition headers_only : gsample :=
  GSample [] None [] "" [] 0 [] "" [] 0 [].

(** ** A number that does not fit [int64] *)

(** A row whose number is a run of digits for 2^63 or more. *)
Definition big_row_ok (L : string) (r : row) : bool :=
  plain_label L && clean L && blank (ind r) && blank (gap r)
  && negb (String.eqb (digits r) "") && all is_digit (digits r)
  && (2 ^ 63 <=? decimal (digits r))%N && rest_ok (rest r).

(** A text whose state table has such a row, after rows that are well
    formed; anything may follow. *)
Definition overflow_lines (pre : list string) (title : string) (rows : list lrow)
    (L : string) (r : row) (more : list string) : list string :=
  pre ++ ("State Table" +:+ title) :: (lrow_line <$> rows) ++ row_line L r :: more.

(** ** The plugin: [Gather], [buildPfctlCmd] and [callPfctl]

    The two versions of the file have the same text for these.  What is
    outside of the program is a parameter: [execLookPath] and the run of a
    command, [execCommand(...).Output()], are the two fields of [Env]. *)

(** [type PF struct], without [infoFunc], which is a parameter of
    [Gather]; the field [StateTable] is [PF_StateTable] here. *)
Record PF : Type := mkPF {
  PfctlCommand : string;
  PfctlArgs : list string;
  UseSudo : bool;
  PF_StateTable : list Entry
}.

(** The errors the plugin gives to the sink: those of the parse, and
    those made by [fmt.Errorf], which are their message. *)
Inductive plugin_error : Type :=
  | ParseError (e : error)
  | Errorf (msg : string).

Definition plugin_error_msg (e : plugin_error) : string :=
  match e with
  | ParseError e => Error e
  | Errorf msg => msg
  end.

(** The calls received by the [telegraf.Accumulator] of [Gather]. *)
Inductive gather_call : Type :=
  | GatherFields (m : string) (fields : gmap string Z) (tags : gmap string string)
  | GatherError (e : plugin_error).

Definition gather_call_of (c : acc_call) : gather_call :=
  match c with
  | AddFields m fields tags => GatherFields m fields tags
  | AddError e => GatherError (ParseError e)
  end.

(** The error of [Cmd.Output]: an [*exec.ExitError] with what the
    command wrote to its standard error, or another error. *)
Inductive output_error : Type :=
  | ExitError (msg stderr : string)
  | OtherError (msg : string).

Record Env : Type := mkEnv {
  execLookPath : string -> string * option string;
  cmdOutput : string -> list string -> string * option output_error
}.

Definition buildPfctlCmd (env : Env) (pf : PF)
    : string * list string * option plugin_error :=
  let '(cmd, err) := execLookPath env pfctlCommand in
  match err with
  | Some err =>
      ("", [], Some (Errorf ("can't locate " +:+ pfctlCommand +:+ ": " +:+ err)))
  | None =>
      let args := ["-s"; "info"] in
      if UseSudo pf then
        let args := [cmd] ++ args in
        let '(cmd, err) := execLookPath env "doas" in
        match err with
        | Some err => ("", [], Some (Errorf ("can't locate doas: " +:+ err)))
        | None => (cmd, args, None)
        end
      else (cmd, args, None)
  end.

Definition callPfctl (env : Env) (pf : PF) : string * option plugin_error :=
  let '(out, oerr) := cmdOutput env (PfctlCommand pf) (PfctlArgs pf) in
  match oerr with
  | Some (OtherError msg) =>
      (out, Some (Errorf ("error running " +:+ pfctlCommand +:+ ": " +:+ msg
                          +:+ ": (unable to get stderr)")))
  | Some (ExitError msg stderr) =>
      (out, Some (Errorf ("error running " +:+ pfctlCommand +:+ ": " +:+ msg
                          +:+ ": " +:+ stderr)))
  | None => (out, None)
  end.

(** [Gather]: the receiver, the package-level tables and the sink are
    the state; the last component is the error returned.  [parse] is the
    [parsePfctlOutput] of the file; it only adds calls to the sink, so it is
    run on an empty list of calls, which are then added to those of
    [Gather]. *)
Definition Gather (infoFunc : PF -> string * option plugin_error)
    (parse : string -> list acc_call -> Globals
             -> option (Globals * list acc_call * option error))
    (env : Env) (pf : PF) (G : Globals) (acc : list gather_call)
    : option (PF * Globals * list gather_call * option plugin_error) :=
  let pf := mkPF (PfctlCommand pf) (PfctlArgs pf) true (PF_StateTable pf) in
  let '(pf, err) :=
    if String.eqb (PfctlCommand pf) "" then
      let '(cmd, args, err) := buildPfctlCmd env pf in
      (mkPF cmd args (UseSudo pf) (PF_StateTable pf), err)
    else (pf, None) in
  match err with
  | Some err =>
      Some (pf, G,
            acc ++ [GatherError
                      (Errorf ("Can't construct pfctl commandline: "
                               +:+ plugin_error_msg err))],
            None)
  | None =>
      let '(o, err) := infoFunc pf in
      match err with
      | Some err => Some (pf, G, acc ++ [GatherError err], None)
      | None =>
          match parse o [] G with
          | None => None
          | Some (G', out, perr) =>
              Some (pf, G',
                    acc ++ (gather_call_of <$> out)
                    ++ match perr with
                       | Some perr => [GatherError (ParseError perr)]
                       | None => []
                       end,
                    None)
          end
      end
  end.

(** [new(PF)] with [infoFunc] set to [callPfctl], as [init] registers
    it. *)
Definition newPF : PF := mkPF "" [] false [].

(** A machine with both programs, where [pfctl] prints nothing. *)
Definition example_env : Env :=
  mkEnv (fun file => if String.eqb file "doas" then ("/usr/bin/doas", None)
                     else ("/sbin/pfctl", None))
        (fun _ _ => ("", None)).

(** A receiver with its command line. *)
Definition example_PF : PF := mkPF "/usr/bin/doas" ["/sbin/pfctl"; "-s"; "info"] true [].

(** ** The earlier variant on well-formed samples *)

(** The end of the body of the loop, in the earlier variant. *)
Definition Pf0_next_turn (line : string) (pending stanzaLines : list string)
    : list string * string * list string :=
  match pending with
  | [] => (stanzaLines, line, [])
  | l :: p => Pf0.stanza_lines l p stanzaLines
  end.

(** Text without the letter [P]: the second branch of the earlier
    variant's [packetsRE] is not anchored and looks for [Packets Out]
    anywhere in the line. *)
Definition no_P (s : string) : bool := all (fun c => negb (Ascii.eqb c "P")) s.

(** An indentation made of spaces: [strings.TrimLeft(line, " ")] takes
    spaces off, not tabs. *)
Definition spaces (s : string) : bool :=
  negb (String.eqb s "") && all (Ascii.eqb " ") s.

(** What the earlier variant needs of a well-formed sample besides. *)
Definition Pf0_interface_ok (i : interface_stanza) : bool :=
  no_P (rest2 (bytes_in i)) && no_P (rest2 (bytes_out i))
  && spaces (ind2 (in_passed i)) && spaces (ind2 (in_blocked i))
  && spaces (ind2 (out_passed i)) && spaces (ind2 (out_blocked i)).

Definition Pf0_sample_ok (s : sample) : bool :=
  from_option Pf0_interface_ok true (interface s)
  && forallb (fun r => no_P (rest r)) (state s)
  && forallb (fun r => no_P (rest r)) (counters s).

(** A line the stanza loop of the earlier variant appends as it is. *)
Definition plain0 (l : string) : Prop :=
  starts is_upper l = false /\ FindStringSubmatch RE.packetsRE0 l = None.

(** The line the earlier variant makes of a line after [Packets In] or
    [Packets Out]: the label of the block before the line, which keeps its
    two numbers. *)
Definition joined (label i : string) (r : row2) : string :=
  row_line label (Row i (gap2 r) (ipv4 r) (mid r +:+ ipv6 r +:+ rest2 r)).

(** The lines the earlier variant collects from the interface stanza. *)
Definition Pf0_interface_collected (i : interface_stanza) : list string :=
  [ row2_line "Bytes In" (bytes_in i);
    row2_line "Bytes Out" (bytes_out i);
    joined "Packets In Passed" (pin_ind i) (in_passed i);
    joined "Packets In Blocked" (pin_ind i) (in_blocked i);
    joined "Packets Out Passed" (pout_ind i) (out_passed i);
    joined "Packets Out Blocked" (pout_ind i) (out_blocked i) ].

(** The values of the interface stanza in the earlier variant: the first
    number of each line, in the order of [Pf0.InterfaceTable]. *)
Definition Pf0_interface_values (i : interface_stanza) : list Z :=
  [ value (ipv4 (bytes_in i)); value (ipv4 (bytes_out i));
    value (ipv4 (in_passed i)); value (ipv4 (in_blocked i));
    value (ipv4 (out_passed i)); value (ipv4 (out_blocked i)) ].

(** The output map of the earlier variant on a sample. *)
Definition Pf0_fields (s : sample) : gmap string Z :=
  match interface s with
  | Some i =>
      state_counter_fields s
      ∪ table_fields Pf0.InterfaceTable (Pf0_interface_values i)
  | None => state_counter_fields s
  end.

(** The package-level variables after the earlier variant has parsed a
    sample. *)
Definition Pf0_after (s : sample) (G : Globals) : Globals :=
  mkGlobals
    (stanzas
       (match interface s with
        | Some _ => true
        | None => from_option Found false (pfctlOutputStanzas G !! 0)
        end) true true)
    (mkTables
       (match interface s with
        | Some i => with_values Pf0.InterfaceTable (Pf0_interface_values i)
        | None => interfaceTable (tables G)
        end)
       (with_values StateTable (values_of (state s)))
       (with_values CounterTable (values_of (counters s)))).
(** * Properties *)

(** ** Strings *)

Lemma app_nil_l_s (s : string) : "" +:+ s = s.
Proof. reflexivity. Qed.

Lemma app_cons_s (a : ascii) (s t : string) : String a s +:+ t = String a (s +:+ t).
Proof. reflexivity. Qed.

Lemma app_nil_r_s (s : string) : s +:+ "" = s.
Proof. induction s as [|a s IH]; [done|]. by rewrite app_cons_s, IH. Qed.

Lemma app_assoc_s (s t u : string) : (s +:+ t) +:+ u = s +:+ t +:+ u.
Proof. induction s as [|a s IH]; [done|]. by rewrite !app_cons_s, IH. Qed.

Lemma length_app_s (s t : string) :
  String.length (s +:+ t) = String.length s + String.length t.
Proof. induction s as [|a s IH]; [done|]. rewrite app_cons_s. simpl. by rewrite IH. Qed.

Lemma all_app (p : ascii -> bool) (s t : string) :
  all p (s +:+ t) = all p s && all p t.
Proof.
  induction s as [|a s IH]; [done|].
  rewrite app_cons_s. simpl. rewrite IH. by destruct (p a).
Qed.

Lemma strip_prefix_app (l s : string) : strip_prefix l (l +:+ s) = Some s.
Proof.
  induction l as [|a l IH]; [done|].
  rewrite app_cons_s. simpl. by rewrite Ascii.eqb_refl.
Qed.

Lemma strip_prefix_Some (l s s' : string) :
  strip_prefix l s = Some s' -> s = l +:+ s'.
Proof.
  revert s. induction l as [|a l IH]; intros s H; simpl in H.
  - by inversion H.
  - destruct s as [|b s]; [done|].
    destruct (Ascii.eqb_spec a b) as [->|]; [|done].
    rewrite app_cons_s. f_equal. by apply IH.
Qed.

(** A run of a class followed by something outside of it is determined
    by the string. *)
Lemma span_unique (p : ascii -> bool) (m1 m2 s1 s2 : string) :
  m1 +:+ s1 = m2 +:+ s2 ->
  all p m1 = true -> all p m2 = true ->
  starts p s1 = false -> starts p s2 = false ->
  m1 = m2 /\ s1 = s2.
Proof.
  revert m2. induction m1 as [|a m1 IH]; intros [|b m2] E H1 H2 N1 N2.
  - done.
  - rewrite app_nil_l_s, app_cons_s in E. subst s1. simpl in *.
    destruct (p b); done.
  - rewrite app_nil_l_s, app_cons_s in E. subst s2. simpl in *.
    destruct (p a); done.
  - rewrite !app_cons_s in E. inversion E; subst. simpl in *.
    destruct (p b); [|done].
    destruct (IH m2) as [-> ->]; done.
Qed.

(** ** The matcher *)

Section MatcherFacts.
Context {R : Type}.
Implicit Types (k : string -> string -> option R) (m s : string).

(** What a successful repetition has done. *)
Lemma rep_greedy_Some cls min s k r :
  rep_greedy cls min s k = Some r ->
  exists m s', s = m +:+ s' /\ all cls m = true /\ min <= String.length m
               /\ k m s' = Some r.
Proof.
  revert min k. induction s as [|a s IH]; intros min k H; simpl in H.
  - destruct min; [|done]. exists "", "". by rewrite H.
  - destruct (cls a) eqn:Ha.
    + destruct (rep_greedy cls (pred min) s (fun m => k (String a m))) eqn:E.
      * inversion H; subst.
        apply IH in E as (m & s' & -> & Hm & Hl & Hk).
        exists (String a m), s'. simpl. rewrite Ha, Hm. repeat split; [lia|done].
      * destruct min; [|done]. exists "", (String a s). by rewrite H.
    + destruct min; [|done]. exists "", (String a s). by rewrite H.
Qed.

Lemma rep_lazy_Some cls min s k r :
  rep_lazy cls min s k = Some r ->
  exists m s', s = m +:+ s' /\ all cls m = true /\ min <= String.length m
               /\ k m s' = Some r.
Proof.
  revert min k. induction s as [|a s IH]; intros min k H; simpl in H.
  - destruct min; [|done].
    destruct (k "" "") eqn:E; [|done]. inversion H; subst. by exists "", "".
  - assert (Hmore : (if cls a then rep_lazy cls (pred min) s (fun m => k (String a m))
                     else None) = Some r ->
      exists m s', String a s = m +:+ s' /\ all cls m = true
                   /\ min <= String.length m /\ k m s' = Some r).
    { destruct (cls a) eqn:Ha; [|done]. intros E.
      apply IH in E as (m & s' & -> & Hm & Hl & Hk).
      exists (String a m), s'. simpl. rewrite Ha, Hm. repeat split; [lia|done]. }
    destruct min; [|by apply Hmore].
    destruct (k "" (String a s)) eqn:E; [|by apply Hmore].
    inversion H; subst. by exists "", (String a s).
Qed.

(** The greedy repetition takes the whole run when the rest of the
    expression accepts that. *)
Lemma rep_greedy_run cls min m s k r :
  all cls m = true -> starts cls s = false -> min <= String.length m ->
  k m s = Some r ->
  rep_greedy cls min (m +:+ s) k = Some r.
Proof.
  revert min k. induction m as [|a m IH]; intros min k Hm Hs Hl Hk.
  - rewrite app_nil_l_s. simpl in Hl. assert (min = 0) as -> by lia.
    destruct s as [|b s]; simpl; [done|]. simpl in Hs. by rewrite Hs.
  - rewrite app_cons_s. simpl in *. destruct (cls a); [|done].
    rewrite (IH (pred min) (fun m => k (String a m))); [done|done|done|lia|done].
Qed.

(** The lazy repetition stops at the first place where the rest of the
    expression accepts. *)
Lemma rep_lazy_first cls m s k r :
  all cls m = true ->
  (forall m0 x, m = m0 +:+ x -> x <> "" -> k m0 (x +:+ s) = None) ->
  k m s = Some r ->
  rep_lazy cls 0 (m +:+ s) k = Some r.
Proof.
  revert k. induction m as [|a m IH]; intros k Hm Hnone Hk.
  - rewrite app_nil_l_s. destruct s; simpl; by rewrite Hk.
  - rewrite app_cons_s. simpl.
    rewrite <- app_cons_s, (Hnone "" (String a m)) by done.
    simpl in Hm. destruct (cls a); [|done]. simpl.
    apply IH; [done| |done].
    intros m0 x -> Hx. by apply (Hnone (String a m0) x).
Qed.
End MatcherFacts.

Lemma starts_app (p : ascii -> bool) (s t : string) :
  s <> "" -> starts p (s +:+ t) = starts p s.
Proof. by destruct s. Qed.

Lemma ends_app_r (p : ascii -> bool) (s t : string) :
  t <> "" -> ends p (s +:+ t) = ends p t.
Proof.
  intros Ht. induction s as [|a s IH]; [done|].
  rewrite app_cons_s. simpl. rewrite IH.
  destruct (s +:+ t) eqn:E; [|done]. by destruct s, t.
Qed.

Lemma no_sp_digit_app_r (s t : string) :
  no_sp_digit (s +:+ t) = true -> no_sp_digit t = true.
Proof.
  induction s as [|a s IH]; [done|].
  rewrite app_cons_s. simpl. intros [_ H]%andb_prop. by apply IH.
Qed.

Lemma length_pos (s : string) : s <> "" -> 1 <= String.length s.
Proof. destruct s; [done|simpl; lia]. Qed.

Lemma eqb_empty (s : string) : negb (String.eqb s "") = true -> s <> "".
Proof. by destruct s. Qed.

Lemma is_digit_not_space (c : ascii) : is_digit c = true -> is_space c = false.
Proof. by destruct c as [[] [] [] [] [] [] [] []]. Qed.

Lemma is_blank_space (c : ascii) : is_blank c = true -> is_space c = true.
Proof. by destruct c as [[] [] [] [] [] [] [] []]. Qed.

Lemma all_impl (p q : ascii -> bool) (s : string) :
  (forall c, p c = true -> q c = true) -> all p s = true -> all q s = true.
Proof.
  intros Hpq. induction s as [|a s IH]; [done|]. simpl.
  intros [Ha Hs]%andb_prop. by rewrite (Hpq a Ha), IH.
Qed.

(** White space followed by digits cannot start inside a label or right
    after it. *)
Lemma no_sp_digit_split (x y m1 m2 s2 : string) :
  x +:+ y = m1 +:+ m2 +:+ s2 ->
  m1 <> "" -> all is_space m1 = true -> starts is_digit (m2 +:+ s2) = true ->
  no_sp_digit x = true -> ends (fun c => negb (is_space c)) x = true -> False.
Proof.
  revert m1. induction x as [|a x IH]; intros m1 E Hne Hsp Hd Hx He; [done|].
  destruct m1 as [|b m1]; [done|].
  rewrite !app_cons_s in E. inversion E; subst b. clear E. rename H1 into E.
  simpl in Hsp. apply andb_prop in Hsp as [Ha Hsp].
  simpl in Hx. apply andb_prop in Hx as [Hax Hx].
  assert (x <> "") as Hxne.
  { intros ->. simpl in He. by rewrite Ha in He. }
  assert (ends (fun c => negb (is_space c)) x = true) as He'.
  { destruct x; [done|]. exact He. }
  destruct m1 as [|b m1].
  - rewrite app_nil_l_s in E. rewrite <- E, starts_app in Hd by done.
    by rewrite Ha, Hd in Hax.
  - by apply (IH (String b m1)).
Qed.

Section MatcherShapes.
Context {R : Type}.

Lemma rep_greedy_none_start cls n (s : string)
    (k : string -> string -> option R) :
  starts cls s = false -> rep_greedy cls (S n) s k = None.
Proof. destruct s as [|a s]; [done|]. simpl. by intros ->. Qed.

Lemma sp_digits_none (x y : string)
    (k : string -> string -> string -> option R) :
  x <> "" -> no_sp_digit x = true ->
  ends (fun c => negb (is_space c)) x = true ->
  rep_greedy is_space 1 (x +:+ y)
    (fun m1 s1 => rep_greedy is_digit 1 s1 (k m1)) = None.
Proof.
  intros Hne Hx He.
  destruct (rep_greedy _ _ _ _) as [r|] eqn:E; [exfalso|done].
  apply rep_greedy_Some in E as (m1 & s1 & E1 & Hm1 & Hl1 & E).
  apply rep_greedy_Some in E as (m2 & s2 & -> & Hm2 & Hl2 & _).
  apply (no_sp_digit_split x y m1 m2 s2); try done.
  - destruct m1; [simpl in Hl1; lia|done].
  - destruct m2 as [|d m2]; [simpl in Hl2; lia|].
    simpl in *. by destruct (is_digit d).
Qed.

Lemma sp_lit_none (A i body : string)
    (k : string -> string -> option R) :
  all is_space i = true -> starts is_space body = false ->
  starts is_space A = false -> strip_prefix A body = None ->
  rep_greedy is_space 1 (i +:+ body)
    (fun m s' => match strip_prefix A s' with
                 | Some s'' => k m s''
                 | None => None
                 end) = None.
Proof.
  intros Hi Hb HA HN.
  destruct (rep_greedy _ _ _ _) as [r|] eqn:E; [exfalso|done].
  apply rep_greedy_Some in E as (m & s' & E1 & Hm & _ & E).
  destruct (strip_prefix A s') as [s''|] eqn:ES; [|done].
  apply strip_prefix_Some in ES as ->.
  destruct (span_unique is_space i m body (A +:+ s'')) as [_ ->]; try done.
  - destruct A; [|done]. simpl in HN. done.
  - by rewrite strip_prefix_app in HN.
Qed.
End MatcherShapes.

(** An anchored expression is tried at the start of the text only. *)
Lemma find_from_anchored_pos (r : regexp) (n pos : nat) (s : string) :
  find_from (Bol +> r) n (S pos) s = None.
Proof. revert pos. induction s as [|a s IH]; intros pos; simpl; [done|apply IH]. Qed.

Lemma find_anchored (r : regexp) (s : string) :
  FindStringSubmatch (Bol +> r) s =
  exec r 0 s (replicate (S (ngroups r)) "") (fun m _ c => Some (<[0 := "" +:+ m]> c)).
Proof.
  unfold FindStringSubmatch.
  destruct s as [|a s]; cbn [find_from exec ngroups];
    rewrite Nat.max_0_l; change (0 + String.length "") with 0.
  - by destruct (exec r 0 "" _ _).
  - destruct (exec r 0 (String a s) _ _); [done|].
    apply find_from_anchored_pos.
Qed.

(** ** The expressions on the lines of a sample *)

Lemma anyTableHeaderRE_starts (l : string) :
  MatchString RE.anyTableHeaderRE l = starts is_upper l.
Proof.
  unfold MatchString, RE.anyTableHeaderRE. rewrite find_anchored.
  destruct l as [|a l]; [done|]. simpl. by destruct (is_upper a).
Qed.

(** A header expression [^text] is a test for a prefix. *)
Lemma prefix_strip (h l : string) :
  String.prefix h l = match strip_prefix h l with Some _ => true | None => false end.
Proof.
  revert l. induction h as [|a h IH]; intros [|b l]; simpl; try done.
  destruct (Ascii.eqb_spec a b) as [->|Hne].
  - destruct (ascii_dec b b); [apply IH|done].
  - destruct (ascii_dec a b); [done|done].
Qed.

Lemma header_prefix (h l : string) :
  MatchString (Bol +> Lit h) l = String.prefix h l.
Proof.
  unfold MatchString. rewrite find_anchored, prefix_strip. cbn [exec].
  by destruct (strip_prefix h l).
Qed.

Section RowFacts.
Variables (L : string) (r : row).
Hypothesis HL : label_ok L = true.
Hypothesis Hr : row_ok r = true.

Lemma row_parts :
  all is_space (ind r) = true /\ ind r <> "" /\
  all is_space (gap r) = true /\ gap r <> "" /\
  all is_digit (digits r) = true /\ digits r <> "" /\
  starts is_digit (rest r) = false.
Proof.
  unfold row_ok, blank, number, rest_ok in Hr.
  rewrite !andb_true_iff in Hr. destruct_and!.
  repeat split; try (by apply eqb_empty).
  - by apply (all_impl is_blank); [apply is_blank_space|].
  - by apply (all_impl is_blank); [apply is_blank_space|].
  - done.
  - by apply negb_true_iff.
Qed.

Lemma label_parts :
  L <> "" /\ starts is_space L = false /\ all is_dot L = true /\
  no_sp_digit L = true /\ ends (fun c => negb (is_space c)) L = true.
Proof.
  unfold label_ok in HL. rewrite !andb_true_iff in HL. destruct_and!.
  repeat split; try done.
  - by destruct L.
  - destruct L; [done|]. simpl in *. by apply negb_true_iff.
Qed.

(** The table expression reads the label and the number of a row. *)
Lemma tableRE_row :
  FindStringSubmatch RE.tableRE (row_line L r)
  = Some ["" +:+ ind r +:+ L +:+ gap r +:+ digits r; L; digits r].
Proof.
  destruct row_parts as (Hi & Hine & Hg & Hgne & Hd & Hdne & Hrest).
  destruct label_parts as (HLne & HLs & HLd & HLn & HLe).
  unfold RE.tableRE, sp, num, any_lazy, row_line.
  rewrite find_anchored. cbn [exec ngroups replicate Nat.max].
  apply rep_greedy_run; [done| |by apply length_pos|].
  { by rewrite starts_app. }
  apply rep_lazy_first; [done| |].
  { intros m0 x -> Hx.
    apply (sp_digits_none x _ (fun m1 m2 s2 => _)); [done| |].
    - by apply no_sp_digit_app_r in HLn.
    - by rewrite ends_app_r in HLe. }
  apply rep_greedy_run; [done| |by apply length_pos|].
  { rewrite starts_app by done. destruct (digits r) as [|d ?]; [done|].
    simpl in *. apply is_digit_not_space. by destruct (is_digit d). }
  apply rep_greedy_run; [done|done|by apply length_pos|].
  by rewrite !app_nil_l_s.
Qed.
End RowFacts.

Lemma is_blank_clean (c : ascii) :
  is_blank c = true -> negb (Ascii.eqb c LF) && negb (Ascii.eqb c CR) = true.
Proof. by destruct c as [[] [] [] [] [] [] [] []]. Qed.

Lemma is_digit_clean (c : ascii) :
  is_digit c = true -> negb (Ascii.eqb c LF) && negb (Ascii.eqb c CR) = true.
Proof. by destruct c as [[] [] [] [] [] [] [] []]. Qed.

Lemma is_blank_not_digit (c : ascii) : is_blank c = true -> is_digit c = false.
Proof. by destruct c as [[] [] [] [] [] [] [] []]. Qed.

Lemma number_starts_digit (d : string) :
  d <> "" -> all is_digit d = true -> starts is_digit d = true /\ starts is_space d = false.
Proof.
  destruct d as [|c d]; [done|]. simpl. intros _ [Hc _]%andb_prop.
  split; [done|by apply is_digit_not_space].
Qed.

Section Row2Facts.
Variables (L : string) (r : row2).
Hypothesis HL : label_ok L = true.
Hypothesis Hr : row2_ok r = true.

Lemma row2_parts :
  all is_space (ind2 r) = true /\ ind2 r <> "" /\
  all is_space (gap2 r) = true /\ gap2 r <> "" /\
  all is_digit (ipv4 r) = true /\ ipv4 r <> "" /\
  all is_space (mid r) = true /\ mid r <> "" /\
  all is_digit (ipv6 r) = true /\ ipv6 r <> "" /\
  starts is_digit (rest2 r) = false.
Proof.
  unfold row2_ok, blank, number, rest_ok in Hr.
  rewrite !andb_true_iff in Hr. destruct_and!.
  repeat split; try (by apply eqb_empty); try done;
    try (by apply (all_impl is_blank); [apply is_blank_space|]).
  by apply negb_true_iff.
Qed.

(** A line with two columns is a line with one column followed by
    more text. *)
Lemma row2_line_first : row2_line L r = row_line L (first_column r).
Proof. reflexivity. Qed.

Lemma first_column_ok : row_ok (first_column r) = true.
Proof.
  unfold row2_ok in Hr. unfold row_ok, first_column. simpl.
  rewrite !andb_true_iff in Hr. destruct_and!.
  rewrite !andb_true_iff. repeat split; try done.
  unfold rest_ok, blank, number, clean in *.
  rewrite !andb_true_iff in *. destruct_and!.
  rewrite !all_app, !andb_true_iff. repeat split; try done.
  - by apply (all_impl is_blank); [apply is_blank_clean|].
  - by apply (all_impl is_digit); [apply is_digit_clean|].
  - rewrite starts_app by (by apply eqb_empty).
    destruct (mid r) as [|c ?]; [done|]. simpl in *.
    apply negb_true_iff, is_blank_not_digit. by destruct (is_blank c).
Qed.

(** [IPvRE] reads the label and both columns. *)
Lemma IPvRE_row2 :
  FindStringSubmatch RE.IPvRE (row2_line L r)
  = Some ["" +:+ ind2 r +:+ L +:+ gap2 r +:+ ipv4 r +:+ mid r +:+ ipv6 r;
          L; ipv4 r; ipv6 r].
Proof.
  destruct row2_parts as (Hi & Hine & Hg & Hgne & H4 & H4ne & Hm & Hmne & H6 & H6ne & Hrest).
  destruct (label_parts L HL) as (HLne & HLs & HLd & HLn & HLe).
  destruct (number_starts_digit _ H4ne H4) as [_ H4s].
  destruct (number_starts_digit _ H6ne H6) as [_ H6s].
  unfold RE.IPvRE, sp, num, any_lazy, row2_line.
  rewrite find_anchored. cbn [exec ngroups replicate Nat.max].
  apply rep_greedy_run; [done| |by apply length_pos|].
  { by rewrite starts_app. }
  apply rep_lazy_first; [done| |].
  { intros m0 x -> Hx.
    apply (sp_digits_none x _ (fun m1 m2 s2 => _)); [done| |].
    - by apply no_sp_digit_app_r in HLn.
    - by rewrite ends_app_r in HLe. }
  apply rep_greedy_run; [done| |by apply length_pos|].
  { by rewrite starts_app. }
  apply rep_greedy_run; [done| |by apply length_pos|].
  { rewrite starts_app by done. destruct (mid r) as [|c ?]; [done|].
    simpl in *. destruct (is_space c) eqn:Hc; [|done].
    destruct (is_digit c) eqn:Hc'; [|done].
    apply is_digit_not_space in Hc'. congruence. }
  apply rep_greedy_run; [done| |by apply length_pos|].
  { by rewrite starts_app. }
  apply rep_greedy_run; [done|done|by apply length_pos|].
  by rewrite !app_nil_l_s.
Qed.
End Row2Facts.

Lemma strip_prefix_first (A body : string) (a : ascii) (A' : string) :
  A = String a A' -> starts (Ascii.eqb a) body = false -> strip_prefix A body = None.
Proof. intros -> H. destruct body as [|b body]; [done|]. simpl in *. by rewrite H. Qed.

Section AltFacts.
(** Lines [i ++ body], with [i] the whole indentation. *)
Variables (i body : string).
Hypothesis Hi : blank i = true.
Hypothesis Hbody : starts is_space body = false.

Lemma indent_parts : all is_space i = true /\ i <> "".
Proof.
  unfold blank in Hi. apply andb_prop in Hi as [H1 H2]. split.
  - by apply (all_impl is_blank); [apply is_blank_space|].
  - by apply eqb_empty.
Qed.

Lemma packetsRE_none :
  strip_prefix "Packets In" body = None ->
  strip_prefix "Packets Out" body = None ->
  FindStringSubmatch RE.packetsRE (i +:+ body) = None.
Proof.
  intros H1 H2. destruct indent_parts as [Hsp _].
  unfold RE.packetsRE, sp. rewrite find_anchored. cbn [exec].
  rewrite sp_lit_none by done. by rewrite sp_lit_none.
Qed.

Lemma bytesRE_none :
  strip_prefix "Bytes In" body = None ->
  strip_prefix "Bytes Out" body = None ->
  FindStringSubmatch RE.bytesRE (i +:+ body) = None.
Proof.
  intros H1 H2. destruct indent_parts as [Hsp _].
  unfold RE.bytesRE, sp, num. rewrite find_anchored. cbn [exec].
  rewrite sp_lit_none by done. by rewrite sp_lit_none.
Qed.

Lemma packetsRE_in (t : string) :
  body = "Packets In" +:+ t ->
  FindStringSubmatch RE.packetsRE (i +:+ body) = Some ["" +:+ i +:+ "Packets In"; i +:+ "Packets In"].
Proof.
  intros ->. destruct indent_parts as [Hsp Hne].
  unfold RE.packetsRE, sp. rewrite find_anchored. cbn [exec ngroups replicate Nat.max].
  erewrite rep_greedy_run; [done|done|done|by apply length_pos|].
  by rewrite strip_prefix_app.
Qed.

Lemma packetsRE_out (t : string) :
  body = "Packets Out" +:+ t ->
  FindStringSubmatch RE.packetsRE (i +:+ body) = Some ["" +:+ i +:+ "Packets Out"; i +:+ "Packets Out"].
Proof.
  intros ->. destruct indent_parts as [Hsp Hne].
  unfold RE.packetsRE, sp. rewrite find_anchored. cbn [exec ngroups replicate Nat.max].
  rewrite sp_lit_none; [|done|done|done|done].
  erewrite rep_greedy_run; [done|done|done|by apply length_pos|].
  by rewrite strip_prefix_app.
Qed.
End AltFacts.

(** A line that does not start with white space matches none of the
    indented expressions. *)
Section Unindented.
Variable l : string.
Hypothesis Hl : starts is_space l = false.

Lemma packetsRE_unindented : FindStringSubmatch RE.packetsRE l = None.
Proof.
  unfold RE.packetsRE, sp. rewrite find_anchored. cbn [exec].
  by rewrite !rep_greedy_none_start.
Qed.

Lemma bytesRE_unindented : FindStringSubmatch RE.bytesRE l = None.
Proof.
  unfold RE.bytesRE, sp. rewrite find_anchored. cbn [exec].
  by rewrite !rep_greedy_none_start.
Qed.

Lemma tableRE_unindented : FindStringSubmatch RE.tableRE l = None.
Proof.
  unfold RE.tableRE, sp. rewrite find_anchored. cbn [exec].
  by rewrite !rep_greedy_none_start.
Qed.

Lemma IPvRE_unindented : FindStringSubmatch RE.IPvRE l = None.
Proof.
  unfold RE.IPvRE, sp. rewrite find_anchored. cbn [exec].
  by rewrite !rep_greedy_none_start.
Qed.
End Unindented.

Section BytesFacts.
Variable r : row2.
Hypothesis Hr : row2_ok r = true.

Lemma bytesRE_in :
  FindStringSubmatch RE.bytesRE (row2_line "Bytes In" r)
  = Some ["" +:+ (ind2 r +:+ "Bytes In") +:+ gap2 r +:+ ipv4 r +:+ mid r +:+ ipv6 r;
          ind2 r +:+ "Bytes In"; ipv4 r; ipv6 r].
Proof.
  destruct (row2_parts r Hr) as (Hi & Hine & Hg & Hgne & H4 & H4ne & Hm & Hmne & H6 & H6ne & Hrest).
  destruct (number_starts_digit _ H4ne H4) as [_ H4s].
  destruct (number_starts_digit _ H6ne H6) as [_ H6s].
  unfold RE.bytesRE, sp, num, row2_line.
  rewrite find_anchored. cbn [exec ngroups replicate Nat.max].
  erewrite rep_greedy_run; [done|done|done|by apply length_pos|].
  rewrite strip_prefix_app.
  apply rep_greedy_run; [done| |by apply length_pos|].
  { by rewrite starts_app. }
  apply rep_greedy_run; [done| |by apply length_pos|].
  { rewrite starts_app by done. destruct (mid r) as [|c ?]; [done|].
    simpl in *. destruct (is_space c) eqn:Hc; [|done].
    destruct (is_digit c) eqn:Hc'; [|done].
    apply is_digit_not_space in Hc'. congruence. }
  apply rep_greedy_run; [done| |by apply length_pos|].
  { by rewrite starts_app. }
  apply rep_greedy_run; [done|done|by apply length_pos|].
  done.
Qed.

Lemma bytesRE_out :
  FindStringSubmatch RE.bytesRE (row2_line "Bytes Out" r)
  = Some ["" +:+ (ind2 r +:+ "Bytes Out") +:+ gap2 r +:+ ipv4 r +:+ mid r +:+ ipv6 r;
          ind2 r +:+ "Bytes Out"; ipv4 r; ipv6 r].
Proof.
  destruct (row2_parts r Hr) as (Hi & Hine & Hg & Hgne & H4 & H4ne & Hm & Hmne & H6 & H6ne & Hrest).
  destruct (number_starts_digit _ H4ne H4) as [_ H4s].
  destruct (number_starts_digit _ H6ne H6) as [_ H6s].
  unfold RE.bytesRE, sp, num, row2_line.
  rewrite find_anchored. cbn [exec ngroups replicate Nat.max].
  rewrite sp_lit_none; [|done|done|done|done].
  erewrite rep_greedy_run; [done|done|done|by apply length_pos|].
  rewrite strip_prefix_app.
  apply rep_greedy_run; [done| |by apply length_pos|].
  { by rewrite starts_app. }
  apply rep_greedy_run; [done| |by apply length_pos|].
  { rewrite starts_app by done. destruct (mid r) as [|c ?]; [done|].
    simpl in *. destruct (is_space c) eqn:Hc; [|done].
    destruct (is_digit c) eqn:Hc'; [|done].
    apply is_digit_not_space in Hc'. congruence. }
  apply rep_greedy_run; [done| |by apply length_pos|].
  { by rewrite starts_app. }
  apply rep_greedy_run; [done|done|by apply length_pos|].
  done.
Qed.
End BytesFacts.

(** ** [ParseInt] on decimal literals *)

Lemma decimal_from_le (s : string) (n : N) : (n <= decimal_from n s)%N.
Proof.
  revert n. induction s as [|c s IH]; intros n; simpl; [lia|].
  etrans; [|apply IH]. lia.
Qed.

Lemma parse_uint_digits (s : string) (n : N) :
  all is_digit s = true -> (decimal_from n s < 2 ^ 64)%N ->
  parse_uint s n = inl (decimal_from n s).
Proof.
  revert n. induction s as [|c s IH]; intros n Hd Hlt; simpl in *; [done|].
  apply andb_prop in Hd as [Hc Hd]. rewrite Hc.
  pose proof (decimal_from_le s (n * 10 + digit_val c)) as Hle.
  assert (n * 10 + digit_val c < 2 ^ 64)%N as Hn1 by lia.
  change (2 ^ 64)%N with 18446744073709551616%N in *.
  change (18446744073709551616 `div` 10 + 1)%N with 1844674407370955162%N.
  change (18446744073709551616 - 1)%N with 18446744073709551615%N.
  destruct (N.leb_spec 1844674407370955162 n); [lia|].
  destruct (N.ltb_spec 18446744073709551615 (n * 10 + digit_val c)); [lia|].
  by apply IH.
Qed.

Lemma ParseInt_number (d : string) :
  number d = true -> ParseInt d = (value d, None).
Proof.
  unfold number. rewrite !andb_true_iff. intros [[Hne Hd] Hlt].
  apply N.ltb_lt in Hlt. unfold ParseInt, value.
  destruct d as [|c d]; [done|].
  assert (Ascii.eqb c "+" = false /\ Ascii.eqb c "-" = false) as [-> ->].
  { simpl in Hd. apply andb_prop in Hd as [Hc _]. clear -Hc.
    by destruct c as [[] [] [] [] [] [] [] []]. }
  cbn [orb]. unfold ParseUint.
  rewrite parse_uint_digits; [|done|].
  - fold (decimal (String c d)). cbn [negb andb].
    destruct (N.leb_spec (2 ^ 63) (decimal (String c d))); [lia|done].
  - fold (decimal (String c d)). change (2^64)%N with (2 * 2^63)%N. lia.
Qed.

Lemma value_nonneg (d : string) : (0 <= value d)%Z.
Proof. unfold value. lia. Qed.

(** ** The scanner takes tokens and gives none back *)

Section ParseFacts.
Variable collect : list string -> list string * string * list string.
Hypothesis collect_le : forall p, length (collect p).2 <= length p.

Lemma range_stanzas_le ss l p fi T ss' p' fi' T' e :
  range_stanzas collect ss l p fi T = (ss', p', fi', T', e) ->
  length p' <= length p.
Proof.
  revert l p fi T ss' p' fi' T' e.
  induction ss as [|s ss IH]; intros l p fi T ss' p' fi' T' e; simpl.
  - intros [= <- <- <- <- <-]. lia.
  - destruct (MatchString (HeaderRE s) l).
    + pose proof (collect_le p) as Hle.
      destruct (collect p) as [[sl l2] p2]. simpl in Hle.
      destruct (ParseFunc s sl fi T) as [[T1 fi1] [perr|]].
      * intros [= <- <- <- <- <-]. lia.
      * destruct (range_stanzas collect ss l2 p2 fi1 T1)
          as [[[[ss3 p3] fi3] T3] e3] eqn:E.
        intros [= <- <- <- <- <-]. apply IH in E. lia.
    + destruct (range_stanzas collect ss l p fi T)
        as [[[[ss3 p3] fi3] T3] e3] eqn:E.
      intros [= <- <- <- <- <-]. by apply IH in E.
Qed.

Lemma scan_loop_fuel f1 f2 p ss fi T :
  length p < f1 -> length p < f2 ->
  scan_loop collect f1 p ss fi T = scan_loop collect f2 p ss fi T.
Proof.
  revert f2 p ss fi T. induction f1 as [|f1 IH]; intros f2 p ss fi T H1 H2; [lia|].
  destruct f2 as [|f2]; [lia|]. simpl. destruct p as [|l p]; [done|].
  destruct (range_stanzas collect ss l p fi T)
    as [[[[ss' p'] fi'] T'] [e|]] eqn:E; [done|].
  apply range_stanzas_le in E. simpl in *. apply IH; lia.
Qed.

Lemma scan_all_nil ss fi T :
  scan_all collect [] ss fi T = Some (ss, fi, T, None).
Proof. reflexivity. Qed.

(** One turn of the loop [for scanner.Scan()]. *)
Lemma scan_all_cons l p ss fi T :
  scan_all collect (l :: p) ss fi T =
  match range_stanzas collect ss l p fi T with
  | (ss', _, fi', T', Some perr) => Some (ss', fi', T', Some perr)
  | (ss', p', fi', T', None) => scan_all collect p' ss' fi' T'
  end.
Proof.
  unfold scan_all.
  change (scan_loop collect (S (length (l :: p))) (l :: p) ss fi T)
    with (match range_stanzas collect ss l p fi T with
          | (ss', _, fi', T', Some perr) => Some (ss', fi', T', Some perr)
          | (ss', p', fi', T', None) =>
              scan_loop collect (length (l :: p)) p' ss' fi' T'
          end).
  destruct (range_stanzas collect ss l p fi T)
    as [[[[ss' p'] fi'] T'] [e|]] eqn:E; [done|].
  apply range_stanzas_le in E. apply scan_loop_fuel; simpl; lia.
Qed.

(** The loop ends: the fuel never runs out. *)
Lemma scan_all_total p ss fi T : is_Some (scan_all collect p ss fi T).
Proof.
  remember (length p) as n eqn:Hn. revert p ss fi T Hn.
  induction (lt_wf n) as [n _ IH]. intros p ss fi T ->.
  destruct p as [|l p]; [by rewrite scan_all_nil|].
  rewrite scan_all_cons.
  destruct (range_stanzas collect ss l p fi T)
    as [[[[ss' p'] fi'] T'] [e|]] eqn:E; [done|].
  apply range_stanzas_le in E. eapply IH; [|done]. simpl. lia.
Qed.

(** [AddFields] is called when, and only when, the parse succeeds. *)
Lemma parse_emits_iff pfoutput acc G :
  exists G' acc' err,
    parsePfctlOutput collect pfoutput acc G = Some (G', acc', err)
    /\ match err with
       | None => exists fields, acc' = acc ++ [AddFields measurement fields ∅]
       | Some _ => acc' = acc
       end.
Proof.
  unfold parsePfctlOutput.
  destruct (scan_all_total (ScanLines pfoutput) (pfctlOutputStanzas G) ∅ (tables G))
    as [[[[ss fi] T] e] ->].
  destruct e as [perr|]; [by eexists _, _, _|].
  destruct (check_found ss); [by eexists _, _, _|].
  eexists _, _, None. split; [done|]. by eexists.
Qed.
End ParseFacts.

(** ** The stanza loop of [pf.go] *)

Lemma Pf_stanza_lines_le l p acc : length (Pf.stanza_lines l p acc).2 <= length p.
Proof.
  remember (length p) as n eqn:Hn. revert l p acc Hn.
  induction (lt_wf n) as [n _ IH]. intros l p acc ->.
  destruct p as [|l1 p]; simpl.
  - destruct (MatchString _ l); [simpl; lia|].
    destruct (FindStringSubmatch RE.packetsRE l); simpl; lia.
  - destruct (MatchString _ l); [simpl; lia|].
    destruct (FindStringSubmatch RE.packetsRE l).
    + destruct p as [|l2 [|l3 p]]; simpl; try lia.
      etrans; [eapply IH; [|done]|]; simpl; lia.
    + etrans; [eapply IH; [|done]|]; simpl; lia.
Qed.

Lemma Pf0_stanza_lines_le l p acc : length (Pf0.stanza_lines l p acc).2 <= length p.
Proof.
  remember (length p) as n eqn:Hn. revert l p acc Hn.
  induction (lt_wf n) as [n _ IH]. intros l p acc ->.
  destruct p as [|l1 p]; simpl.
  - destruct (MatchString _ l); [simpl; lia|].
    destruct (FindStringSubmatch RE.packetsRE0 l); simpl; lia.
  - destruct (MatchString _ l); [simpl; lia|].
    destruct (FindStringSubmatch RE.packetsRE0 l).
    + destruct p as [|l2 [|l3 p]]; simpl; try lia.
      etrans; [eapply IH; [|done]|]; simpl; lia.
    + etrans; [eapply IH; [|done]|]; simpl; lia.
Qed.

Lemma Pf_collect_le p : length (Pf.collect p).2 <= length p.
Proof.
  destruct p as [|l p]; unfold Pf.collect.
  - apply Pf_stanza_lines_le.
  - etrans; [apply Pf_stanza_lines_le|]. simpl. lia.
Qed.

Lemma Pf0_collect_le p : length (Pf0.collect p).2 <= length p.
Proof.
  destruct p as [|l p]; unfold Pf0.collect.
  - apply Pf0_stanza_lines_le.
  - etrans; [apply Pf0_stanza_lines_le|]. simpl. lia.
Qed.

(** ** Output and errors *)

(** Claim C6: on every input, and whatever the state of the tables, the
    parse ends, and the sink receives one [AddFields] call exactly when the
    parse returns no error; when it returns an error, of whatever kind, the
    sink receives nothing.  This holds for both versions of the file. *)
Theorem C6_output_iff_no_error pfoutput acc G :
  (exists G' acc' err,
     Pf.parsePfctlOutput pfoutput acc G = Some (G', acc', err)
     /\ match err with
        | None => exists fields, acc' = acc ++ [AddFields measurement fields ∅]
        | Some _ => acc' = acc
        end)
  /\ (exists G' acc' err,
     Pf0.parsePfctlOutput pfoutput acc G = Some (G', acc', err)
     /\ match err with
        | None => exists fields, acc' = acc ++ [AddFields measurement fields ∅]
        | Some _ => acc' = acc
        end).
Proof.
  split.
  - apply parse_emits_iff, Pf_collect_le.
  - apply parse_emits_iff, Pf0_collect_le.
Qed.

(** Claim C7: on the empty string, with the tables as declared, the parse
    returns [errParseHeader], "Cannot find header in pfctl output", and the
    sink receives nothing. *)
Theorem C7_empty_string acc :
  Pf.parsePfctlOutput "" acc Pf.init = Some (Pf.init, acc, Some errParseHeader)
  /\ Pf0.parsePfctlOutput "" acc Pf0.init = Some (Pf0.init, acc, Some errParseHeader)
  /\ Error errParseHeader = "Cannot find header in pfctl output".
Proof. repeat split. Qed.

(** ** What the stanza loop of [pf.go] collects *)

Lemma blank_starts (p : ascii -> bool) (i x : string) :
  blank i = true -> (forall c, is_blank c = true -> p c = false) ->
  starts p (i +:+ x) = false.
Proof.
  unfold blank. intros [Hne Hi]%andb_prop Hp.
  destruct i as [|c i]; [done|]. simpl in *. apply Hp. by destruct (is_blank c).
Qed.

Lemma is_blank_not_upper c : is_blank c = true -> is_upper c = false.
Proof. by destruct c as [[] [] [] [] [] [] [] []]. Qed.

Lemma plain_empty : plain "".
Proof. by repeat split. Qed.

Lemma plain_row (L : string) (r : row) :
  plain_label L = true -> row_ok r = true -> plain (row_line L r).
Proof.
  unfold plain_label. intros [HL HP]%andb_prop Hr.
  destruct (label_parts L HL) as (HLne & HLs & _).
  assert (blank (ind r) = true) as Hi.
  { unfold row_ok in Hr. rewrite !andb_true_iff in Hr. by destruct_and!. }
  assert (forall x, starts is_space (L +:+ x) = false) as Hbody.
  { intros x. by rewrite starts_app. }
  assert (forall x, starts (Ascii.eqb "P") (L +:+ x) = false
                    /\ starts (Ascii.eqb "B") (L +:+ x) = false) as HPB.
  { intros x. rewrite !starts_app by done. destruct L as [|c L0]; [done|].
    simpl in *. apply negb_true_iff, orb_false_elim in HP. done. }
  unfold row_line. repeat split.
  - apply blank_starts; [done|apply is_blank_not_upper].
  - apply packetsRE_none; [done|done| |].
    + apply (strip_prefix_first _ _ "P" "ackets In" eq_refl), HPB.
    + apply (strip_prefix_first _ _ "P" "ackets Out" eq_refl), HPB.
  - apply bytesRE_none; [done|done| |].
    + apply (strip_prefix_first _ _ "B" "ytes In" eq_refl), HPB.
    + apply (strip_prefix_first _ _ "B" "ytes Out" eq_refl), HPB.
Qed.

Lemma plain_rows_of (table : list Entry) (rows : list row) :
  forallb plain_label (PfctlTitle <$> table) = true ->
  forallb row_ok rows = true ->
  Forall plain (rows_of table rows).
Proof.
  unfold rows_of. revert rows.
  induction table as [|e table IH]; intros [|r rows]; simpl; try by constructor.
  intros [He Ht]%andb_prop [Hr Hrs]%andb_prop.
  constructor; [by apply plain_row|by apply IH].
Qed.

Lemma plain_blanks (n : nat) : Forall plain (replicate n "").
Proof. apply Forall_replicate, plain_empty. Qed.

Lemma stanza_lines_header l p acc :
  starts is_upper l = true -> Pf.stanza_lines l p acc = (acc, l, p).
Proof. intros H. destruct p; simpl; by rewrite anyTableHeaderRE_starts, H. Qed.

Lemma last_cons_default {A} (a d : A) (ls : list A) :
  List.last (a :: ls) d = List.last ls a.
Proof.
  revert a d. induction ls as [|b ls IH]; intros a d; [done|].
  change (List.last (a :: b :: ls) d) with (List.last (b :: ls) d).
  rewrite IH. symmetry. apply IH.
Qed.

Lemma stanza_lines_plain l q acc :
  plain l -> Pf.stanza_lines l q acc = Pf.next_turn l q (acc ++ [l]).
Proof.
  intros (H1 & H2 & H3). destruct q; simpl;
    by rewrite anyTableHeaderRE_starts, H1, H2, H3.
Qed.

(** Plain lines up to a header line are collected as they are. *)
Lemma next_turn_plains q : forall x l p acc,
  Forall plain q -> starts is_upper l = true ->
  Pf.next_turn x (q ++ l :: p) acc = (acc ++ q, l, p).
Proof.
  induction q as [|l1 q IH]; intros x l p acc Hq Hl.
  - rewrite app_nil_l, app_nil_r. simpl. by apply stanza_lines_header.
  - apply Forall_cons in Hq as [H1 Hq].
    change ((l1 :: q) ++ l :: p) with (l1 :: (q ++ l :: p)).
    cbn [Pf.next_turn]. rewrite stanza_lines_plain, IH by done.
    by rewrite <- app_assoc.
Qed.

(** Plain lines up to the end of the text as well. *)
Lemma next_turn_plains_end q : forall x acc,
  Forall plain q -> Pf.next_turn x q acc = (acc ++ q, List.last q x, []).
Proof.
  induction q as [|l1 q IH]; intros x acc Hq.
  - by rewrite app_nil_r.
  - apply Forall_cons in Hq as [H1 Hq].
    cbn [Pf.next_turn]. rewrite stanza_lines_plain, IH by done.
    by rewrite <- app_assoc, last_cons_default.
Qed.


Lemma synthetic_ok (i d : string) :
  blank i = true -> number d = true -> row_ok (Row i " " d "") = true.
Proof. intros Hi Hd. unfold row_ok. simpl. by rewrite Hi, Hd. Qed.

Section InterfaceRows.
Variable r : row2.
Hypothesis Hr : row2_ok r = true.

Lemma row2_fields_ok :
  blank (ind2 r) = true /\ number (ipv4 r) = true /\ number (ipv6 r) = true.
Proof. unfold row2_ok in Hr. rewrite !andb_true_iff in Hr. by destruct_and!. Qed.

Lemma bytes_not_header (L : string) : starts is_upper (row2_line L r) = false.
Proof.
  destruct row2_fields_ok as (Hi & _).
  apply blank_starts; [done|apply is_blank_not_upper].
Qed.

Lemma stanza_lines_bytes_in q acc :
  Pf.stanza_lines (row2_line "Bytes In" r) q acc
  = Pf.next_turn (row2_line "Bytes In" r) q
      (acc ++ [synthetic "Bytes In IPv4" (ind2 r) (ipv4 r);
               synthetic "Bytes In IPv6" (ind2 r) (ipv6 r)]).
Proof.
  destruct row2_fields_ok as (Hi & _).
  assert (FindStringSubmatch RE.packetsRE (row2_line "Bytes In" r) = None) as HP.
  { by apply packetsRE_none. }
  destruct q; simpl;
    rewrite anyTableHeaderRE_starts, bytes_not_header, HP, bytesRE_in by done;
    unfold synthetic, row_line; cbn [lookup_total list_lookup_total ind gap digits rest];
    by rewrite !app_assoc_s, !app_nil_r_s.
Qed.

Lemma stanza_lines_bytes_out q acc :
  Pf.stanza_lines (row2_line "Bytes Out" r) q acc
  = Pf.next_turn (row2_line "Bytes Out" r) q
      (acc ++ [synthetic "Bytes Out IPv4" (ind2 r) (ipv4 r);
               synthetic "Bytes Out IPv6" (ind2 r) (ipv6 r)]).
Proof.
  destruct row2_fields_ok as (Hi & _).
  assert (FindStringSubmatch RE.packetsRE (row2_line "Bytes Out" r) = None) as HP.
  { by apply packetsRE_none. }
  destruct q; simpl;
    rewrite anyTableHeaderRE_starts, bytes_not_header, HP, bytesRE_out by done;
    unfold synthetic, row_line; cbn [lookup_total list_lookup_total ind gap digits rest];
    by rewrite !app_assoc_s, !app_nil_r_s.
Qed.

(** One line after a [Packets] line, with its two columns. *)
Lemma expand_packets_row2 (L e0 e1 : string) acc :
  label_ok L = true ->
  Pf.expand_packets [e0; e1] (row2_line L r) acc
  = acc ++ [e1 +:+ " " +:+ L +:+ " IPv4 " +:+ ipv4 r;
            e1 +:+ " " +:+ L +:+ " IPv6 " +:+ ipv6 r].
Proof. intros HL. unfold Pf.expand_packets. by rewrite IPvRE_row2. Qed.
End InterfaceRows.

Section PacketsRows.
Variables (i t : string) (r1 r2 : row2).
Hypothesis Hi : blank i = true.
Hypothesis Hr1 : row2_ok r1 = true.
Hypothesis Hr2 : row2_ok r2 = true.

Lemma stanza_lines_packets_in q acc :
  Pf.stanza_lines (i +:+ "Packets In" +:+ t)
    (row2_line "Passed" r1 :: row2_line "Blocked" r2 :: q) acc
  = Pf.next_turn (row2_line "Blocked" r2) q
      (acc ++ [synthetic "Packets In Passed IPv4" i (ipv4 r1);
               synthetic "Packets In Passed IPv6" i (ipv6 r1);
               synthetic "Packets In Blocked IPv4" i (ipv4 r2);
               synthetic "Packets In Blocked IPv6" i (ipv6 r2)]).
Proof.
  assert (starts is_upper (i +:+ "Packets In" +:+ t) = false) as HU.
  { apply blank_starts; [done|apply is_blank_not_upper]. }
  destruct q; simpl;
    rewrite anyTableHeaderRE_starts, HU, (packetsRE_in i ("Packets In" +:+ t) Hi eq_refl t eq_refl);
    rewrite !expand_packets_row2 by done;
    rewrite <- app_assoc; unfold synthetic, row_line;
    cbn [app ind gap digits rest];
    by rewrite !app_assoc_s, !app_nil_r_s.
Qed.

Lemma stanza_lines_packets_out q acc :
  Pf.stanza_lines (i +:+ "Packets Out" +:+ t)
    (row2_line "Passed" r1 :: row2_line "Blocked" r2 :: q) acc
  = Pf.next_turn (row2_line "Blocked" r2) q
      (acc ++ [synthetic "Packets Out Passed IPv4" i (ipv4 r1);
               synthetic "Packets Out Passed IPv6" i (ipv6 r1);
               synthetic "Packets Out Blocked IPv4" i (ipv4 r2);
               synthetic "Packets Out Blocked IPv6" i (ipv6 r2)]).
Proof.
  assert (starts is_upper (i +:+ "Packets Out" +:+ t) = false) as HU.
  { apply blank_starts; [done|apply is_blank_not_upper]. }
  destruct q; simpl;
    rewrite anyTableHeaderRE_starts, HU, (packetsRE_out i ("Packets Out" +:+ t) Hi eq_refl t eq_refl);
    rewrite !expand_packets_row2 by done;
    rewrite <- app_assoc; unfold synthetic, row_line;
    cbn [app ind gap digits rest];
    by rewrite !app_assoc_s, !app_nil_r_s.
Qed.
End PacketsRows.

Lemma interface_ok_parts (i : interface_stanza) :
  interface_ok i = true ->
  row2_ok (bytes_in i) = true /\ row2_ok (bytes_out i) = true /\
  blank (pin_ind i) = true /\ row2_ok (in_passed i) = true /\
  row2_ok (in_blocked i) = true /\ blank (pout_ind i) = true /\
  row2_ok (out_passed i) = true /\ row2_ok (out_blocked i) = true.
Proof. unfold interface_ok. rewrite !andb_true_iff. intros. by destruct_and!. Qed.

(** The rows of the interface stanza, whatever follows them. *)
Lemma collect_interface_rows (i : interface_stanza) (q : list string) :
  interface_ok i = true ->
  Pf.collect (interface_rows i ++ q)
  = Pf.next_turn (row2_line "Blocked" (out_blocked i))
      (replicate (if_blank i) "" ++ q) (interface_synthetic i).
Proof.
  intros (Hbi & Hbo & Hpi & Hip & Hib & Hpo & Hop & Hob)%interface_ok_parts.
  unfold interface_rows. rewrite <- app_assoc.
  cbn [app Pf.collect].
  rewrite stanza_lines_bytes_in by done. cbn [Pf.next_turn].
  rewrite stanza_lines_bytes_out by done. cbn [Pf.next_turn].
  rewrite stanza_lines_packets_in by done. cbn [Pf.next_turn].
  by rewrite stanza_lines_packets_out.
Qed.

Lemma collect_interface (i : interface_stanza) (ls : list string) (l : string) (p : list string) :
  interface_ok i = true -> Forall plain ls -> starts is_upper l = true ->
  Pf.collect (interface_rows i ++ ls ++ l :: p)
  = (interface_synthetic i ++ replicate (if_blank i) "" ++ ls, l, p).
Proof.
  intros Hi Hls Hl. rewrite collect_interface_rows by done.
  rewrite app_assoc, next_turn_plains; [by rewrite app_assoc| |done].
  apply Forall_app. split; [apply plain_blanks|done].
Qed.

Lemma collect_plains (ls : list string) (l : string) (p : list string) :
  Forall plain ls -> starts is_upper l = true ->
  Pf.collect (ls ++ l :: p) = (ls, l, p).
Proof.
  intros Hls Hl. destruct ls as [|l0 ls].
  - simpl. by apply stanza_lines_header.
  - apply Forall_cons in Hls as [H0 Hls].
    change (Pf.collect ((l0 :: ls) ++ l :: p))
      with (Pf.next_turn "" ((l0 :: ls) ++ l :: p) []).
    rewrite next_turn_plains; [done| |done]. by constructor.
Qed.

Lemma collect_plains_end (l0 : string) (ls : list string) :
  Forall plain (l0 :: ls) ->
  Pf.collect (l0 :: ls) = (l0 :: ls, List.last ls l0, []).
Proof.
  intros Hls.
  change (Pf.collect (l0 :: ls)) with (Pf.next_turn "" (l0 :: ls) []).
  by rewrite next_turn_plains_end, last_cons_default.
Qed.

(** ** What the extractor reads *)

Lemma store_value_number (title d : string) (t : list Entry) :
  number d = true -> store_value title d t = (assign title (value d) t, None).
Proof.
  intros Hd. induction t as [|f t IH]; [done|].
  simpl. rewrite (ParseInt_number d Hd), IH.
  by destruct (String.eqb (PfctlTitle f) title).
Qed.

Lemma store_lines_row (L : string) (r : row) (ls : list string) (t : list Entry) :
  label_ok L = true -> row_ok r = true ->
  store_lines (row_line L r :: ls) RE.tableRE t
  = store_lines ls RE.tableRE (assign L (value (digits r)) t).
Proof.
  intros HL Hr. simpl. rewrite tableRE_row by done.
  cbn [lookup_total list_lookup_total].
  rewrite store_value_number; [done|].
  unfold row_ok in Hr. rewrite !andb_true_iff in Hr. by destruct_and!.
Qed.

Lemma store_lines_unindented (l : string) (ls : list string) (t : list Entry) :
  starts is_space l = false ->
  store_lines (l :: ls) RE.tableRE t = store_lines ls RE.tableRE t.
Proof. intros Hl. simpl. by rewrite tableRE_unindented. Qed.

Lemma store_lines_blanks (n : nat) (ls : list string) (t : list Entry) :
  store_lines (replicate n "" ++ ls) RE.tableRE t = store_lines ls RE.tableRE t.
Proof.
  induction n as [|n IH]; [done|].
  cbn [replicate app]. by rewrite store_lines_unindented.
Qed.

Lemma store_fields_nonneg (t : list Entry) (fields : gmap string Z) :
  Forall (fun e => (0 <= Value e)%Z) t ->
  store_fields t fields = (put_all t fields, None).
Proof.
  revert fields. induction t as [|e t IH]; intros fields Ht; [done|].
  apply Forall_cons in Ht as [He Ht]. simpl.
  destruct (Z.eqb_spec (Value e) (-1)); [lia|]. by apply IH.
Qed.

Lemma with_values_nonneg (table : list Entry) (rows : list row) :
  Forall (fun e => (0 <= Value e)%Z) (with_values table (values_of rows)).
Proof.
  unfold with_values, values_of. revert rows.
  induction table as [|e table IH]; intros [|r rows]; simpl; try by constructor.
  constructor; [apply value_nonneg|apply IH].
Qed.

(** A list of known length is the list of its elements. *)
Ltac explode l H :=
  simpl in H;
  repeat lazymatch type of H with
  | length l = S _ =>
      destruct l as [|? l]; [discriminate H|];
      simpl in H; apply Nat.succ_inj in H
  end;
  lazymatch type of H with
  | length l = 0 => destruct l; [clear H|discriminate H]
  end.

(** The values of the rows as variables. *)
Ltac forget_values :=
  repeat match goal with
  | |- context [value ?d] => generalize (value d); intro
  end.

Ltac rows_ok H :=
  simpl in H; rewrite ?andb_true_iff in H; destruct_and!.

Lemma extract_state (rows : list row) (n : nat) (vs0 : list Z) (fields : gmap string Z) :
  length rows = 4 -> forallb row_ok rows = true -> length vs0 = 4 ->
  storeFieldValues (rows_of StateTable rows ++ replicate n "") RE.tableRE fields
    (with_values StateTable vs0)
  = (with_values StateTable (values_of rows),
     put_all (with_values StateTable (values_of rows)) fields, None).
Proof.
  intros Hlen Hrows Hvs. unfold storeFieldValues.
  assert (store_lines (rows_of StateTable rows ++ replicate n "") RE.tableRE
            (with_values StateTable vs0)
          = (with_values StateTable (values_of rows), None)) as ->.
  { explode rows Hlen. explode vs0 Hvs. rows_ok Hrows.
    cbn [rows_of StateTable zip_with fmap list_fmap PfctlTitle app].
    rewrite !store_lines_row by done.
    rewrite <- (app_nil_r (replicate n "")), store_lines_blanks.
    reflexivity. }
  by rewrite store_fields_nonneg by apply with_values_nonneg.
Qed.

Lemma extract_counters (rows : list row) (n : nat) (vs0 : list Z) (fields : gmap string Z) :
  length rows = 15 -> forallb row_ok rows = true -> length vs0 = 15 ->
  storeFieldValues (rows_of CounterTable rows ++ replicate n "") RE.tableRE fields
    (with_values CounterTable vs0)
  = (with_values CounterTable (values_of rows),
     put_all (with_values CounterTable (values_of rows)) fields, None).
Proof.
  intros Hlen Hrows Hvs. unfold storeFieldValues.
  assert (store_lines (rows_of CounterTable rows ++ replicate n "") RE.tableRE
            (with_values CounterTable vs0)
          = (with_values CounterTable (values_of rows), None)) as ->.
  { explode rows Hlen. explode vs0 Hvs. rows_ok Hrows.
    cbn [rows_of CounterTable zip_with fmap list_fmap PfctlTitle app].
    rewrite !store_lines_row by done.
    rewrite <- (app_nil_r (replicate n "")), store_lines_blanks.
    reflexivity. }
  by rewrite store_fields_nonneg by apply with_values_nonneg.
Qed.

Lemma assign_absent (L : string) (v : Z) (t : list Entry) :
  L ∉ PfctlTitle <$> t -> assign L v t = t.
Proof.
  induction t as [|e t IH]; [done|]. simpl.
  intros [Hne Ht]%not_elem_of_cons. rewrite (IH Ht).
  destruct (String.eqb_spec (PfctlTitle e) L); [congruence|done].
Qed.

(** Rows whose labels a table does not have leave it as it is. *)
Lemma store_lines_foreign (table t : list Entry) (rows : list row) (ls : list string) :
  forallb label_ok (PfctlTitle <$> table) = true ->
  forallb row_ok rows = true ->
  (forall L, L ∈ PfctlTitle <$> table -> L ∉ PfctlTitle <$> t) ->
  store_lines (rows_of table rows ++ ls) RE.tableRE t = store_lines ls RE.tableRE t.
Proof.
  unfold rows_of. revert rows.
  induction table as [|e table IH]; intros [|r rows] Ht Hr Hf; try done.
  cbn [fmap list_fmap zip_with app] in *.
  apply andb_prop in Ht as [He Ht]. apply andb_prop in Hr as [Hr Hrs].
  rewrite store_lines_row, assign_absent by (done || apply Hf; left).
  apply IH; [done|done|]. intros L HL. apply Hf. by right.
Qed.

Lemma interface_values_nonneg (i : interface_stanza) :
  Forall (fun e => (0 <= Value e)%Z) (with_values Pf.InterfaceTable (interface_values i)).
Proof. repeat constructor; apply value_nonneg. Qed.

Lemma extract_interface (i : interface_stanza) (n : nat) (ls : list string)
    (vs0 : list Z) (fields : gmap string Z) :
  interface_ok i = true -> length vs0 = 12 ->
  store_lines ls RE.tableRE (with_values Pf.InterfaceTable (interface_values i))
    = (with_values Pf.InterfaceTable (interface_values i), None) ->
  storeFieldValues (interface_synthetic i ++ replicate n "" ++ ls) RE.tableRE fields
    (with_values Pf.InterfaceTable vs0)
  = (with_values Pf.InterfaceTable (interface_values i),
     put_all (with_values Pf.InterfaceTable (interface_values i)) fields, None).
Proof.
  intros Hi Hvs Hls. unfold storeFieldValues.
  assert (store_lines (interface_synthetic i ++ replicate n "" ++ ls) RE.tableRE
            (with_values Pf.InterfaceTable vs0)
          = (with_values Pf.InterfaceTable (interface_values i), None)) as ->.
  { pose proof Hi as (Hbi & Hbo & Hpi & Hip & Hib & Hpo & Hop & Hob)%interface_ok_parts.
    repeat match goal with
    | H : row2_ok ?r = true |- _ =>
        apply (row2_fields_ok r) in H as (? & ? & ?)
    end.
    explode vs0 Hvs.
    cbn [interface_synthetic app]. unfold synthetic.
    rewrite !store_lines_row by (done || by apply synthetic_ok).
    rewrite store_lines_blanks.
    cbn [digits].
    etrans; [|exact Hls]. f_equal. }
  by rewrite store_fields_nonneg by apply interface_values_nonneg.
Qed.

(** ** The loop over the stanza table *)

Lemma prefix_app (h t : string) : String.prefix h (h +:+ t) = true.
Proof. by rewrite prefix_strip, strip_prefix_app. Qed.

Lemma prefix_first (h l : string) (a : ascii) (h' : string) :
  h = String a h' -> starts (Ascii.eqb a) l = false -> String.prefix h l = false.
Proof. intros Hh Hl. by rewrite prefix_strip, (strip_prefix_first h l a h'). Qed.

Lemma is_blank_neq (a c : ascii) : is_blank a = false -> is_blank c = true -> Ascii.eqb a c = false.
Proof. intros Ha Hc. destruct (Ascii.eqb_spec a c) as [->|]; [congruence|done]. Qed.

(** An indented line is no stanza header. *)
Lemma no_header_indented (i x : string) : blank i = true -> no_header (i +:+ x) = true.
Proof.
  intros Hi. unfold no_header.
  rewrite (prefix_first _ _ "I" "nterface Stats" eq_refl),
          (prefix_first _ _ "S" "tate Table" eq_refl),
          (prefix_first _ _ "C" "ounters" eq_refl); [done|..];
    (apply blank_starts; [done|]; intros c Hc; by apply is_blank_neq).
Qed.

Lemma no_header_empty : no_header "" = true.
Proof. reflexivity. Qed.

Section Range.
Variable collect : list string -> list string * string * list string.

Lemma range_hit s rest line pending fields T sl l2 p2 :
  MatchString (HeaderRE s) line = true -> collect pending = (sl, l2, p2) ->
  range_stanzas collect (s :: rest) line pending fields T
  = match ParseFunc s sl fields T with
    | (T', fields', Some perr) => (s :: rest, p2, fields', T', Some perr)
    | (T', fields', None) =>
        let '(rest', p3, fields'', T'', err) :=
          range_stanzas collect rest l2 p2 fields' T' in
        (mkStanza (HeaderRE s) (ParseFunc s) true (Optional s) :: rest',
         p3, fields'', T'', err)
    end.
Proof. intros Hm Hc. simpl. by rewrite Hm, Hc. Qed.

Lemma range_miss s rest line pending fields T :
  MatchString (HeaderRE s) line = false ->
  range_stanzas collect (s :: rest) line pending fields T
  = let '(rest', p', fields', T', err) :=
      range_stanzas collect rest line pending fields T in
    (s :: rest', p', fields', T', err).
Proof. intros Hm. simpl. by rewrite Hm. Qed.

(** A line that is no header leaves everything as it is. *)
Lemma range_no_header fI fS fC line pending fields T :
  no_header line = true ->
  range_stanzas collect (stanzas fI fS fC) line pending fields T
  = (stanzas fI fS fC, pending, fields, T, None).
Proof.
  unfold no_header. rewrite !andb_true_iff, !negb_true_iff. intros [[H1 H2] H3].
  unfold stanzas.
  by rewrite !range_miss by (cbn [HeaderRE]; by rewrite header_prefix).
Qed.

Hypothesis collect_le : forall p, length (collect p).2 <= length p.

Lemma scan_all_skip ls : forall rest fI fS fC fields T,
  forallb no_header ls = true ->
  scan_all collect (ls ++ rest) (stanzas fI fS fC) fields T
  = scan_all collect rest (stanzas fI fS fC) fields T.
Proof.
  induction ls as [|l ls IH]; intros rest fI fS fC fields T Hls; [done|].
  simpl in Hls. apply andb_prop in Hls as [Hl Hls].
  change ((l :: ls) ++ rest) with (l :: (ls ++ rest)).
  rewrite scan_all_cons, range_no_header by done. by apply IH.
Qed.
End Range.

(** ** The tokens of a text *)

Lemma split_lines_line (l rest : string) :
  all (fun c => negb (Ascii.eqb c LF)) l = true ->
  split_lines (l +:+ String LF rest) = l :: split_lines rest.
Proof.
  induction l as [|c l IH]; [done|]. intros [Hc Hl]%andb_prop.
  rewrite app_cons_s. simpl. apply negb_true_iff in Hc. rewrite Hc.
  by rewrite IH.
Qed.

Lemma dropCR_clean (l : string) : clean l = true -> dropCR l = l.
Proof.
  unfold clean. induction l as [|c l IH]; [done|]. simpl.
  intros [[_ Hc]%andb_prop Hl]%andb_prop. apply negb_true_iff in Hc.
  destruct l; [by rewrite Hc|]. by rewrite IH.
Qed.

Lemma dropCR_CR (l : string) : dropCR (l +:+ String CR "") = l.
Proof.
  induction l as [|c l IH]; [done|]. rewrite app_cons_s. simpl.
  rewrite IH. by destruct l.
Qed.

Lemma clean_no_LF (l : string) :
  clean l = true -> all (fun c => negb (Ascii.eqb c LF)) l = true.
Proof. apply all_impl. by intros c [H _]%andb_prop. Qed.

(** The tokens of lines ended by a line feed, or by a carriage return
    and a line feed, are the lines. *)
Lemma ScanLines_unlines (eol : string) (ls : list string) :
  is_eol eol = true -> forallb clean ls = true ->
  ScanLines (unlines eol ls) = ls.
Proof.
  intros Heol. unfold ScanLines.
  induction ls as [|l ls IH]; [done|]. simpl. intros [Hl Hls]%andb_prop.
  apply orb_prop in Heol as [->%String.eqb_eq| ->%String.eqb_eq].
  - rewrite app_cons_s, app_nil_l_s, split_lines_line by by apply clean_no_LF.
    cbn. by rewrite dropCR_clean, IH.
  - rewrite !app_cons_s, app_nil_l_s.
    change (l +:+ String CR (String LF (unlines (String CR (String LF "")) ls)))
      with (l +:+ String CR "" +:+ String LF (unlines (String CR (String LF "")) ls)).
    rewrite <- app_assoc_s, split_lines_line.
    + cbn. by rewrite dropCR_CR, IH.
    + rewrite all_app. rewrite clean_no_LF by done. done.
Qed.

(** ** The stanzas of a sample, in [pf.go] *)

Lemma collect_plains_last (ls : list string) :
  ls <> [] -> Forall plain ls -> Pf.collect ls = (ls, List.last ls "", []).
Proof.
  destruct ls as [|l0 ls]; [done|]. intros _ Hls.
  by rewrite collect_plains_end, last_cons_default.
Qed.

Lemma plain_labels_state : forallb plain_label (PfctlTitle <$> StateTable) = true.
Proof. reflexivity. Qed.

Lemma plain_labels_counters : forallb plain_label (PfctlTitle <$> CounterTable) = true.
Proof. reflexivity. Qed.

Lemma starts_upper_app (h t : string) :
  starts is_upper h = true -> starts is_upper (h +:+ t) = true.
Proof. by destruct h. Qed.

Section Blocks.
Variable s : sample.
Hypothesis Hstate : length (state s) = 4 /\ forallb row_ok (state s) = true.
Hypothesis Hcounters : length (counters s) = 15 /\ forallb row_ok (counters s) = true.

Lemma plain_state_rows : Forall plain (state_rows s).
Proof.
  apply Forall_app. split; [|apply plain_blanks].
  apply plain_rows_of; [apply plain_labels_state|apply Hstate].
Qed.

Lemma plain_counter_rows : Forall plain (counter_rows s).
Proof.
  apply Forall_app. split; [|apply plain_blanks].
  apply plain_rows_of; [apply plain_labels_counters|apply Hcounters].
Qed.

Lemma counter_rows_not_nil : counter_rows s <> [].
Proof.
  destruct Hcounters as [Hlen _]. unfold counter_rows.
  destruct (counters s); [done|]. done.
Qed.

(** The counters stanza, the last of the text. *)
Lemma range_counters fC fields tI tS vC :
  length vC = 15 ->
  range_stanzas Pf.collect
    [mkStanza (Bol +> Lit "Counters") parseCounterTable fC false]
    (counter_header s) (counter_rows s) fields
    (mkTables tI tS (with_values CounterTable vC))
  = ([mkStanza (Bol +> Lit "Counters") parseCounterTable true false], [],
     put_all (with_values CounterTable (values_of (counters s))) fields,
     mkTables tI tS (with_values CounterTable (values_of (counters s))), None).
Proof.
  intros HvC. destruct Hcounters as [Hlen Hrows].
  erewrite range_hit;
    [|cbn [HeaderRE]; rewrite header_prefix; apply prefix_app
     |apply collect_plains_last; [apply counter_rows_not_nil|apply plain_counter_rows]].
  cbn [ParseFunc]. unfold parseCounterTable, RE.counterTableRE. cbn [counterTable].
  unfold counter_rows at 1. by rewrite extract_counters.
Qed.

(** The state stanza and the counters stanza after it. *)
Lemma range_state_counters fS fC fields tI vS vC :
  length vS = 4 -> length vC = 15 ->
  range_stanzas Pf.collect
    [mkStanza (Bol +> Lit "State Table") parseStateTable fS false;
     mkStanza (Bol +> Lit "Counters") parseCounterTable fC false]
    (state_header s) (state_rows s ++ counter_header s :: counter_rows s) fields
    (mkTables tI (with_values StateTable vS) (with_values CounterTable vC))
  = ([mkStanza (Bol +> Lit "State Table") parseStateTable true false;
      mkStanza (Bol +> Lit "Counters") parseCounterTable true false], [],
     put_all (with_values CounterTable (values_of (counters s)))
       (put_all (with_values StateTable (values_of (state s))) fields),
     mkTables tI (with_values StateTable (values_of (state s)))
       (with_values CounterTable (values_of (counters s))), None).
Proof.
  intros HvS HvC. destruct Hstate as [Hlen Hrows].
  erewrite range_hit;
    [|cbn [HeaderRE]; rewrite header_prefix; apply prefix_app
     |apply collect_plains; [apply plain_state_rows|by apply starts_upper_app]].
  cbn [ParseFunc]. unfold parseStateTable, RE.stateTableRE. cbn [stateTable].
  unfold state_rows at 1. rewrite extract_state by done.
  cbn [interfaceTable counterTable]. by rewrite range_counters.
Qed.
End Blocks.

Lemma blank_clean (i : string) : blank i = true -> clean i = true.
Proof. intros [_ H]%andb_prop. by apply (all_impl is_blank); [apply is_blank_clean|]. Qed.

Lemma number_clean (d : string) : number d = true -> clean d = true.
Proof.
  unfold number. rewrite !andb_true_iff. intros [[_ H] _].
  by apply (all_impl is_digit); [apply is_digit_clean|].
Qed.

Lemma row_clean (L : string) (r : row) :
  clean L = true -> row_ok r = true -> clean (row_line L r) = true.
Proof.
  intros HL Hr. unfold row_ok, rest_ok in Hr. rewrite !andb_true_iff in Hr.
  destruct_and!.
  assert (clean (ind r) = true) by by apply blank_clean.
  assert (clean (gap r) = true) by by apply blank_clean.
  assert (clean (digits r) = true) by by apply number_clean.
  unfold row_line, clean in *. rewrite !all_app.
  repeat match goal with H : all _ _ = true |- _ => rewrite H; clear H end.
  done.
Qed.

Lemma row2_clean (L : string) (r : row2) :
  clean L = true -> row2_ok r = true -> clean (row2_line L r) = true.
Proof.
  intros HL Hr. rewrite row2_line_first.
  apply row_clean; [done|by apply first_column_ok].
Qed.

Lemma rows_of_clean (table : list Entry) (rows : list row) :
  forallb clean (PfctlTitle <$> table) = true -> forallb row_ok rows = true ->
  forallb clean (rows_of table rows) = true.
Proof.
  unfold rows_of. revert rows.
  induction table as [|e table IH]; intros [|r rows]; simpl; try done.
  intros [He Ht]%andb_prop [Hr Hrs]%andb_prop.
  by rewrite row_clean, IH.
Qed.

Lemma blanks_clean (n : nat) : forallb clean (replicate n "") = true.
Proof. induction n; [done|]. done. Qed.

Lemma interface_rows_clean (i : interface_stanza) :
  interface_ok i = true -> forallb clean (interface_rows i) = true.
Proof.
  unfold interface_ok. rewrite !andb_true_iff. intros. destruct_and!.
  unfold interface_rows. rewrite forallb_app, blanks_clean. cbn [forallb].
  rewrite !row2_clean by done.
  assert (clean (pin_ind i) = true) by by apply blank_clean.
  assert (clean (pout_ind i) = true) by by apply blank_clean.
  unfold clean in *. rewrite !all_app.
  repeat match goal with H : all _ _ = true |- _ => rewrite H; clear H end.
  done.
Qed.

Lemma forallb_cons {A} (f : A -> bool) (a : A) (l : list A) :
  forallb f (a :: l) = f a && forallb f l.
Proof. reflexivity. Qed.

Lemma header_clean (h t : string) : clean h = true -> clean t = true -> clean (h +:+ t) = true.
Proof. intros Hh Ht. unfold clean in *. by rewrite all_app, Hh, Ht. Qed.

Lemma interface_lines_clean (s : sample) :
  from_option interface_ok true (interface s) = true ->
  forallb clean (interface_lines s) = true.
Proof.
  unfold interface_lines. destruct (interface s) as [i|]; [|done].
  cbn [from_option]. intros Hi.
  rewrite forallb_cons, interface_rows_clean by done.
  unfold interface_header. rewrite header_clean; [done|done|].
  unfold interface_ok in Hi. rewrite !andb_true_iff in Hi. by destruct_and!.
Qed.

Lemma sample_ok_parts (s : sample) :
  sample_ok s = true ->
  forallb no_header (preamble s) = true
  /\ forallb clean (sample_lines s) = true
  /\ from_option interface_ok true (interface s) = true
  /\ (length (state s) = 4 /\ forallb row_ok (state s) = true)
  /\ (length (counters s) = 15 /\ forallb row_ok (counters s) = true).
Proof.
  unfold sample_ok. rewrite !andb_true_iff.
  intros [[[[[[[Hpre Hi] Hst] Hsl] Hsr] Hct] Hcl] Hcr].
  apply Nat.eqb_eq in Hsl, Hcl. simpl in Hsl, Hcl.
  assert (forallb no_header (preamble s) = true /\ forallb clean (preamble s) = true)
    as [Hp1 Hp2].
  { clear -Hpre. induction (preamble s) as [|l ls IH]; [done|].
    simpl in *. rewrite !andb_true_iff in Hpre. destruct Hpre as [[H1 H2] H3].
    destruct (IH H3) as [-> ->]. by rewrite H1, H2. }
  repeat split; try done.
  unfold sample_lines, state_rows, counter_rows, state_header, counter_header.
  rewrite !forallb_app, forallb_cons, !forallb_app, forallb_cons, !forallb_app.
  rewrite Hp2, interface_lines_clean, !blanks_clean, !rows_of_clean by done.
  by rewrite !header_clean.
Qed.

Section Sample.
Variable s : sample.
Hypothesis Hs : sample_ok s = true.

Lemma sample_state_ok : length (state s) = 4 /\ forallb row_ok (state s) = true.
Proof. by destruct (sample_ok_parts s Hs) as (_ & _ & _ & ? & _). Qed.

Lemma sample_counters_ok : length (counters s) = 15 /\ forallb row_ok (counters s) = true.
Proof. by destruct (sample_ok_parts s Hs) as (_ & _ & _ & _ & ?). Qed.

(** The three stanzas, from the header of the interface stanza. *)
Lemma range_interface i fI fS fC fields vI vS vC :
  interface s = Some i ->
  length vI = 12 -> length vS = 4 -> length vC = 15 ->
  range_stanzas Pf.collect (stanzas fI fS fC) (interface_header i)
    (interface_rows i ++ state_header s :: state_rows s
       ++ counter_header s :: counter_rows s) fields
    (mkTables (with_values Pf.InterfaceTable vI) (with_values StateTable vS)
       (with_values CounterTable vC))
  = (stanzas true true true, [],
     put_all (with_values CounterTable (values_of (counters s)))
       (put_all (with_values StateTable (values_of (state s)))
          (put_all (with_values Pf.InterfaceTable (interface_values i)) fields)),
     mkTables (with_values Pf.InterfaceTable (interface_values i))
       (with_values StateTable (values_of (state s)))
       (with_values CounterTable (values_of (counters s))), None).
Proof.
  intros Ei HvI HvS HvC.
  destruct (sample_ok_parts s Hs) as (_ & _ & Hi & _). rewrite Ei in Hi.
  cbn [from_option] in Hi. unfold stanzas.
  erewrite range_hit;
    [|cbn [HeaderRE]; rewrite header_prefix; apply prefix_app
     |apply (collect_interface i []); [done|constructor|by apply starts_upper_app]].
  cbn [ParseFunc]. unfold parseInterfaceTable, RE.interfaceTableRE.
  cbn [interfaceTable]. rewrite extract_interface by done.
  cbn [stateTable counterTable].
  by rewrite (range_state_counters s sample_state_ok sample_counters_ok).
Qed.

(** The two stanzas of a sample without interface stanza. *)
Lemma range_state fI fS fC fields tI vS vC :
  length vS = 4 -> length vC = 15 ->
  range_stanzas Pf.collect (stanzas fI fS fC) (state_header s)
    (state_rows s ++ counter_header s :: counter_rows s) fields
    (mkTables tI (with_values StateTable vS) (with_values CounterTable vC))
  = (stanzas fI true true, [],
     put_all (with_values CounterTable (values_of (counters s)))
       (put_all (with_values StateTable (values_of (state s))) fields),
     mkTables tI (with_values StateTable (values_of (state s)))
       (with_values CounterTable (values_of (counters s))), None).
Proof.
  intros HvS HvC. unfold stanzas.
  rewrite range_miss by (cbn [HeaderRE]; by rewrite header_prefix).
  by rewrite (range_state_counters s sample_state_ok sample_counters_ok).
Qed.
End Sample.


(** The copies into [fields], table after table, give the map of the
    keys and values. *)
Lemma put_all_fields (rowsS rowsC : list row) (i : interface_stanza) :
  length rowsS = 4 -> length rowsC = 15 ->
  put_all (with_values CounterTable (values_of rowsC))
    (put_all (with_values StateTable (values_of rowsS))
       (put_all (with_values Pf.InterfaceTable (interface_values i)) ∅))
  = table_fields CounterTable (values_of rowsC)
    ∪ table_fields StateTable (values_of rowsS)
    ∪ table_fields Pf.InterfaceTable (interface_values i).
Proof.
  intros HS HC. explode rowsS HS. explode rowsC HC.
  unfold values_of, interface_values. cbn [fmap list_fmap].
  forget_values. intros. vm_compute. exact eq_refl.
Qed.

Lemma put_all_fields_state (rowsS rowsC : list row) :
  length rowsS = 4 -> length rowsC = 15 ->
  put_all (with_values CounterTable (values_of rowsC))
    (put_all (with_values StateTable (values_of rowsS)) ∅)
  = table_fields CounterTable (values_of rowsC)
    ∪ table_fields StateTable (values_of rowsS).
Proof.
  intros HS HC. explode rowsS HS. explode rowsC HC.
  unfold values_of. cbn [fmap list_fmap].
  forget_values. intros. vm_compute. exact eq_refl.
Qed.

(** [pf.go] on a well-formed sample, from any state of the tables. *)
Lemma Pf_parse_sample (s : sample) (eol : string) (acc : list acc_call) (G : Globals) :
  sample_ok s = true -> is_eol eol = true -> reachable Pf.InterfaceTable G ->
  Pf.parsePfctlOutput (unlines eol (sample_lines s)) acc G
  = Some (Pf_after s G, acc ++ [AddFields measurement (Pf_fields s) ∅], None).
Proof.
  intros Hs Heol (fI & fS & fC & vI & vS & vC & HvI & HvS & HvC & ->).
  destruct (sample_ok_parts s Hs) as (Hpre & Hclean & Hi & HS & HC).
  unfold Pf.parsePfctlOutput, parsePfctlOutput.
  rewrite ScanLines_unlines by done.
  unfold globals_of. cbn [pfctlOutputStanzas tables].
  unfold sample_lines. rewrite (scan_all_skip _ Pf_collect_le) by done.
  unfold Pf_after, Pf_fields, state_counter_fields, interface_lines.
  destruct (interface s) as [i|] eqn:Ei.
  - rewrite <- app_comm_cons, (scan_all_cons _ Pf_collect_le).
    rewrite (range_interface s Hs i) by done.
    rewrite scan_all_nil. cbn [check_found stanzas Optional Found negb].
    by rewrite (put_all_fields _ _ i) by apply HS || apply HC.
  - rewrite app_nil_l, (scan_all_cons _ Pf_collect_le).
    rewrite (range_state s Hs) by done.
    rewrite scan_all_nil. cbn [check_found stanzas Optional Found negb].
    by rewrite put_all_fields_state by apply HS || apply HC.
Qed.

(** ** Samples with a line taken out *)

Lemma rows_of_no_header (table : list Entry) (rows : list row) :
  forallb row_ok rows = true -> forallb no_header (rows_of table rows) = true.
Proof.
  unfold rows_of. revert rows.
  induction table as [|e table IH]; intros [|r rows]; simpl; try done.
  intros [Hr Hrs]%andb_prop. rewrite IH by done.
  unfold row_line. rewrite no_header_indented; [done|].
  unfold row_ok in Hr. rewrite !andb_true_iff in Hr. by destruct_and!.
Qed.

Lemma blanks_no_header (n : nat) : forallb no_header (replicate n "") = true.
Proof. induction n; [done|]. done. Qed.

Lemma interface_rows_no_header (i : interface_stanza) :
  interface_ok i = true -> forallb no_header (interface_rows i) = true.
Proof.
  intros (Hbi & Hbo & Hpi & Hip & Hib & Hpo & Hop & Hob)%interface_ok_parts.
  repeat match goal with
  | H : row2_ok ?r = true |- _ => apply (row2_fields_ok r) in H as (? & _ & _)
  end.
  unfold interface_rows. rewrite forallb_app, blanks_no_header.
  cbn [forallb]. unfold row2_line. by rewrite !no_header_indented.
Qed.

Lemma sample_clean_parts (s : sample) :
  sample_ok s = true ->
  forallb clean (preamble s) = true
  /\ forallb clean (interface_lines s) = true
  /\ clean (state_header s) = true
  /\ forallb clean (rows_of StateTable (state s)) = true
  /\ clean (counter_header s) = true
  /\ forallb clean (counter_rows s) = true.
Proof.
  intros Hs. destruct (sample_ok_parts s Hs) as (_ & Hc & _).
  unfold sample_lines, state_rows in Hc.
  rewrite !forallb_app, forallb_cons, !forallb_app, forallb_cons in Hc.
  rewrite !andb_true_iff in Hc. by destruct_and!.
Qed.

Lemma forallb_take {A} (f : A -> bool) (n : nat) (l : list A) :
  forallb f l = true -> forallb f (take n l) = true.
Proof.
  revert n. induction l as [|a l IH]; intros [|n]; simpl; try done.
  intros [Ha Hl]%andb_prop. by rewrite Ha, IH.
Qed.

Section Steps.
Variable s : sample.
Hypothesis Hs : sample_ok s = true.

(** The interface stanza followed by plain lines that are not its own,
    up to a header line. *)
Lemma range_interface_step i fI rest fields vI tS tC ls l p :
  interface s = Some i -> length vI = 12 ->
  Forall plain ls -> starts is_upper l = true ->
  store_lines ls RE.tableRE (with_values Pf.InterfaceTable (interface_values i))
    = (with_values Pf.InterfaceTable (interface_values i), None) ->
  range_stanzas Pf.collect
    (mkStanza (Bol +> Lit "Interface Stats") parseInterfaceTable fI true :: rest)
    (interface_header i) (interface_rows i ++ ls ++ l :: p) fields
    (mkTables (with_values Pf.InterfaceTable vI) tS tC)
  = let '(rest', p3, fields'', T'', err) :=
      range_stanzas Pf.collect rest l p
        (put_all (with_values Pf.InterfaceTable (interface_values i)) fields)
        (mkTables (with_values Pf.InterfaceTable (interface_values i)) tS tC) in
    (mkStanza (Bol +> Lit "Interface Stats") parseInterfaceTable true true :: rest',
     p3, fields'', T'', err).
Proof.
  intros Ei HvI Hls Hl Hstore.
  destruct (sample_ok_parts s Hs) as (_ & _ & Hi & _). rewrite Ei in Hi.
  cbn [from_option] in Hi.
  erewrite range_hit;
    [|cbn [HeaderRE]; rewrite header_prefix; apply prefix_app
     |by apply (collect_interface i ls)].
  cbn [ParseFunc]. unfold parseInterfaceTable, RE.interfaceTableRE.
  cbn [interfaceTable]. by rewrite extract_interface.
Qed.

Lemma range_interface_next i fI rest fields vI tS tC l p :
  interface s = Some i -> length vI = 12 -> starts is_upper l = true ->
  range_stanzas Pf.collect
    (mkStanza (Bol +> Lit "Interface Stats") parseInterfaceTable fI true :: rest)
    (interface_header i) (interface_rows i ++ l :: p) fields
    (mkTables (with_values Pf.InterfaceTable vI) tS tC)
  = let '(rest', p3, fields'', T'', err) :=
      range_stanzas Pf.collect rest l p
        (put_all (with_values Pf.InterfaceTable (interface_values i)) fields)
        (mkTables (with_values Pf.InterfaceTable (interface_values i)) tS tC) in
    (mkStanza (Bol +> Lit "Interface Stats") parseInterfaceTable true true :: rest',
     p3, fields'', T'', err).
Proof.
  intros Ei HvI Hl.
  by apply (range_interface_step i fI rest fields vI tS tC [] l p).
Qed.

(** The rows of the state table are nothing to the interface table. *)
Lemma store_lines_state_rows (t : list Entry) :
  (forall L, L ∈ PfctlTitle <$> StateTable -> L ∉ PfctlTitle <$> t) ->
  store_lines (state_rows s) RE.tableRE t = (t, None).
Proof.
  intros Ht. destruct (sample_state_ok s Hs) as [_ Hrows]. unfold state_rows.
  rewrite store_lines_foreign by done.
  by rewrite <- (app_nil_r (replicate _ _)), store_lines_blanks.
Qed.
End Steps.

Lemma state_titles_foreign (vI : list Z) (L : string) :
  L ∈ PfctlTitle <$> StateTable ->
  L ∉ PfctlTitle <$> with_values Pf.InterfaceTable vI.
Proof.
  intros HL Hin.
  assert (L ∈ PfctlTitle <$> Pf.InterfaceTable) as Hin'.
  { clear HL. unfold with_values in Hin.
    apply list_elem_of_fmap in Hin as (e & -> & He).
    apply list_elem_of_lookup in He as [k He].
    apply lookup_zip_with_Some in He as (e0 & v & -> & He0 & _).
    apply list_elem_of_fmap. exists e0. split; [done|].
    by apply list_elem_of_lookup_2 in He0. }
  clear Hin. cbn in HL, Hin'.
  repeat (apply elem_of_cons in HL as [->|HL]);
    [..|by apply elem_of_nil in HL];
    repeat (apply elem_of_cons in Hin' as [?|Hin']);
    try done; by apply elem_of_nil in Hin'.
Qed.

Lemma drop_interface_header_ok (s : sample) :
  sample_ok s = true -> sample_ok (drop_interface_header s) = true.
Proof.
  intros Hs. pose proof (sample_ok_parts s Hs) as (Hp & _ & Hi & _).
  pose proof (sample_clean_parts s Hs) as (Hpc & Hic & _).
  unfold sample_ok in *. cbn [preamble interface state counters st_title ct_title
    drop_interface_header from_option] in *.
  rewrite !andb_true_iff in Hs. destruct_and!.
  rewrite !andb_true_iff. repeat split; try done.
  rewrite forallb_app. apply andb_true_intro. split; [done|].
  unfold interface_lines in Hic. destruct (interface s) as [i|]; [|done].
  cbn [from_option] in *. rewrite forallb_cons in Hic.
  apply andb_prop in Hic as [_ Hic].
  pose proof (interface_rows_no_header i Hi) as Hn.
  clear -Hic Hn. induction (interface_rows i) as [|l ls IH]; [done|].
  simpl in *. apply andb_prop in Hic as [-> Hic]. apply andb_prop in Hn as [-> Hn].
  by apply IH.
Qed.

Lemma drop_interface_header_lines (s : sample) :
  sample_lines (drop_interface_header s) = without_interface_header s.
Proof.
  unfold sample_lines, without_interface_header, interface_lines. simpl.
  by rewrite <- app_assoc.
Qed.

Lemma Pf_init_globals :
  Pf.init = globals_of Pf.InterfaceTable false false false
              (replicate 12 (-1)%Z) (replicate 4 (-1)%Z) (replicate 15 (-1)%Z).
Proof. reflexivity. Qed.

Lemma Pf_init_reachable : reachable Pf.InterfaceTable Pf.init.
Proof. by eexists false, false, false, _, _, _; split_and!; [..|apply Pf_init_globals]. Qed.

(** Without the header of the state table, its rows go to the stanza
    before them, or to none: the state stanza is not found. *)
Lemma Pf_without_state_header (s : sample) (eol : string) (acc : list acc_call) :
  sample_ok s = true -> is_eol eol = true ->
  exists G',
    Pf.parsePfctlOutput (unlines eol (without_state_header s)) acc Pf.init
    = Some (G', acc, Some errParseHeader).
Proof.
  intros Hs Heol.
  destruct (sample_ok_parts s Hs) as (Hpre & _ & Hi & HS & HC).
  destruct (sample_clean_parts s Hs) as (Hc1 & Hc2 & Hc3 & Hc4 & Hc5 & Hc6).
  unfold Pf.parsePfctlOutput, parsePfctlOutput.
  rewrite ScanLines_unlines; [|done|].
  2:{ unfold without_state_header, state_rows.
      rewrite !forallb_app, forallb_cons, blanks_clean.
      by rewrite Hc1, Hc2, Hc4, Hc5, Hc6. }
  rewrite Pf_init_globals. unfold globals_of. cbn [pfctlOutputStanzas tables].
  unfold without_state_header, interface_lines.
  rewrite (scan_all_skip _ Pf_collect_le) by done.
  destruct (interface s) as [i|] eqn:Ei.
  - rewrite <- app_comm_cons, (scan_all_cons _ Pf_collect_le).
    unfold stanzas.
    rewrite (range_interface_step s Hs i); [|done|done| | |].
    + rewrite range_miss by (cbn [HeaderRE]; by rewrite header_prefix).
      rewrite (range_counters s HC) by done.
      rewrite scan_all_nil. by eexists.
    + apply (plain_state_rows s HS).
    + by apply starts_upper_app.
    + apply (store_lines_state_rows s Hs), state_titles_foreign.
  - rewrite app_nil_l.
    rewrite (scan_all_skip _ Pf_collect_le).
    2:{ unfold state_rows. rewrite forallb_app, blanks_no_header.
        rewrite rows_of_no_header; [done|apply HS]. }
    rewrite (scan_all_cons _ Pf_collect_le). unfold stanzas.
    rewrite !range_miss by (cbn [HeaderRE]; by rewrite header_prefix).
    rewrite (range_counters s HC) by done.
    rewrite scan_all_nil. by eexists.
Qed.

(** Without the header of the interface stanza, its rows are lines
    outside of any stanza. *)
Lemma Pf_without_interface_header (s : sample) (eol : string) (acc : list acc_call) :
  sample_ok s = true -> is_eol eol = true ->
  exists G',
    Pf.parsePfctlOutput (unlines eol (without_interface_header s)) acc Pf.init
    = Some (G', acc ++ [AddFields measurement (state_counter_fields s) ∅], None).
Proof.
  intros Hs Heol. rewrite <- drop_interface_header_lines.
  rewrite Pf_parse_sample;
    [by eexists|by apply drop_interface_header_ok|done|apply Pf_init_reachable].
Qed.

(** ** A stanza is found by its header only *)

Lemma stanza_step_refl toks st : stanza_step toks st st.
Proof. repeat split; auto. Qed.

Lemma stanza_step_trans toks st1 st2 st3 :
  stanza_step toks st1 st2 -> stanza_step toks st2 st3 -> stanza_step toks st1 st3.
Proof.
  intros (H1 & H2 & H3 & H4) (H1' & H2' & H3' & H4').
  repeat split; try congruence.
  intros [Hf|Hm]%H4'; [by apply H4|right]. by rewrite <- H1.
Qed.

Lemma stanza_steps_refl toks ss : Forall2 (stanza_step toks) ss ss.
Proof. induction ss; constructor; [apply stanza_step_refl|done]. Qed.

Lemma stanza_steps_trans toks ss1 ss2 ss3 :
  Forall2 (stanza_step toks) ss1 ss2 -> Forall2 (stanza_step toks) ss2 ss3 ->
  Forall2 (stanza_step toks) ss1 ss3.
Proof.
  intros H12. revert ss3. induction H12 as [|s1 s2 l1 l2 Hs Hl IH]; intros ss3 H23.
  - by inversion H23.
  - inversion H23; subst. constructor; [by eapply stanza_step_trans|by apply IH].
Qed.

Section Found.
Variable collect : list string -> list string * string * list string.
Hypothesis collect_line : forall p sl l2 p2,
  collect p = (sl, l2, p2) -> (l2 = "" \/ l2 ∈ p) /\ p2 ⊆ p.

Lemma range_stanzas_found toks ss l p fi T ss' p' fi' T' e :
  range_stanzas collect ss l p fi T = (ss', p', fi', T', e) ->
  l = "" \/ l ∈ toks -> p ⊆ toks ->
  p' ⊆ toks /\ Forall2 (stanza_step toks) ss ss'.
Proof.
  revert l p fi T ss' p' fi' T' e.
  induction ss as [|s ss IH]; intros l p fi T ss' p' fi' T' e; simpl.
  - intros [= <- <- <- <- <-] _ Hp. split; [done|constructor].
  - destruct (MatchString (HeaderRE s) l) eqn:Hm.
    + destruct (collect p) as [[sl l2] p2] eqn:Ec.
      apply collect_line in Ec as [Hl2 Hp2].
      destruct (ParseFunc s sl fi T) as [[T1 fi1] [perr|]].
      * intros [= <- <- <- <- <-] Hl Hp. split; [by etrans|].
        apply stanza_steps_refl.
      * destruct (range_stanzas collect ss l2 p2 fi1 T1)
          as [[[[ss3 p3] fi3] T3] e3] eqn:E.
        intros [= <- <- <- <- <-] Hl Hp.
        apply IH in E as [Hp3 Hss];
          [|destruct Hl2 as [->|?]; [by left|right; by apply Hp]|by etrans].
        split; [done|]. constructor; [|done].
        repeat split; try done. intros _. right. by exists l.
    + destruct (range_stanzas collect ss l p fi T)
        as [[[[ss3 p3] fi3] T3] e3] eqn:E.
      intros [= <- <- <- <- <-] Hl Hp.
      apply IH in E as [Hp3 Hss]; [|done|done].
      split; [done|]. constructor; [apply stanza_step_refl|done].
Qed.

Lemma scan_loop_found toks fuel p ss fi T ss' fi' T' e :
  scan_loop collect fuel p ss fi T = Some (ss', fi', T', e) ->
  p ⊆ toks -> Forall2 (stanza_step toks) ss ss'.
Proof.
  revert p ss fi T. induction fuel as [|fuel IH]; intros p ss fi T; [done|].
  simpl. destruct p as [|l p].
  - intros [= <- <- <- <-] _. apply stanza_steps_refl.
  - destruct (range_stanzas collect ss l p fi T)
      as [[[[ss1 p1] fi1] T1] [perr|]] eqn:E; intros H Hp.
    + injection H as <- <- <- <-.
      apply (range_stanzas_found toks) in E as [_ ?]; [done| |].
      * right. apply Hp. by left.
      * intros x Hx. apply Hp. by right.
    + apply (range_stanzas_found toks) in E as [Hp1 Hss].
      * eapply stanza_steps_trans; [exact Hss|]. by eapply IH.
      * right. apply Hp. by left.
      * intros x Hx. apply Hp. by right.
Qed.

Lemma check_found_None ss :
  check_found ss = None -> Forall (fun st => Optional st = false -> Found st = true) ss.
Proof.
  induction ss as [|s ss IH]; simpl; [constructor|].
  destruct (Optional s) eqn:Ho.
  - intros H. constructor; [simpl; congruence|by apply IH].
  - destruct (Found s) eqn:Hf; [|done]. intros H. constructor; [done|by apply IH].
Qed.

(** After a parse without error, every stanza that is not optional is
    marked as found, and it was so marked before or one of the tokens
    matches its header. *)
Lemma parse_found pfoutput acc G G' acc' :
  parsePfctlOutput collect pfoutput acc G = Some (G', acc', None) ->
  Forall2 (fun st st' =>
    stanza_step (ScanLines pfoutput) st st'
    /\ (Optional st' = false -> Found st' = true))
    (pfctlOutputStanzas G) (pfctlOutputStanzas G').
Proof.
  unfold parsePfctlOutput, scan_all.
  destruct (scan_loop _ _ _ _ _ _) as [[[[ss fi] T] [e|]]|] eqn:E; try done.
  destruct (check_found ss) eqn:Ec; [done|]. intros [= <- _]. simpl.
  apply (scan_loop_found (ScanLines pfoutput)) in E; [|done].
  apply check_found_None in Ec.
  clear -E Ec. induction E; [constructor|].
  apply Forall_cons in Ec as [? ?]. constructor; [done|by apply IHE].
Qed.
End Found.

Lemma Pf_stanza_lines_line l p acc sl l2 p2 :
  Pf.stanza_lines l p acc = (sl, l2, p2) -> l2 ∈ l :: p /\ p2 ⊆ p.
Proof.
  remember (length p) as n eqn:Hn. revert l p acc Hn.
  induction (lt_wf n) as [n _ IH]. intros l p acc -> H.
  destruct p as [|l1 p]; simpl in H.
  - destruct (MatchString _ l); [injection H as <- <- <-; set_solver|].
    destruct (FindStringSubmatch RE.packetsRE l);
      injection H as <- <- <-; set_solver.
  - destruct (MatchString _ l); [injection H as <- <- <-; set_solver|].
    destruct (FindStringSubmatch RE.packetsRE l).
    + destruct p as [|l2' [|l3 p]]; try (injection H as <- <- <-; set_solver).
      apply (IH (length p)) in H as [? ?]; [|simpl; lia|done]. set_solver.
    + apply (IH (length p)) in H as [? ?]; [|simpl; lia|done]. set_solver.
Qed.

Lemma Pf_collect_line p sl l2 p2 :
  Pf.collect p = (sl, l2, p2) -> (l2 = "" \/ l2 ∈ p) /\ p2 ⊆ p.
Proof.
  destruct p as [|l p]; unfold Pf.collect; intros H;
    apply Pf_stanza_lines_line in H as [? ?]; set_solver.
Qed.

Lemma Pf0_stanza_lines_line l p acc sl l2 p2 :
  Pf0.stanza_lines l p acc = (sl, l2, p2) -> l2 ∈ l :: p /\ p2 ⊆ p.
Proof.
  remember (length p) as n eqn:Hn. revert l p acc Hn.
  induction (lt_wf n) as [n _ IH]. intros l p acc -> H.
  destruct p as [|l1 p]; simpl in H.
  - destruct (MatchString _ l); [injection H as <- <- <-; set_solver|].
    destruct (FindStringSubmatch RE.packetsRE0 l);
      injection H as <- <- <-; set_solver.
  - destruct (MatchString _ l); [injection H as <- <- <-; set_solver|].
    destruct (FindStringSubmatch RE.packetsRE0 l).
    + destruct p as [|l2' [|l3 p]]; try (injection H as <- <- <-; set_solver).
      apply (IH (length p)) in H as [? ?]; [|simpl; lia|done]. set_solver.
    + apply (IH (length p)) in H as [? ?]; [|simpl; lia|done]. set_solver.
Qed.

Lemma Pf0_collect_line p sl l2 p2 :
  Pf0.collect p = (sl, l2, p2) -> (l2 = "" \/ l2 ∈ p) /\ p2 ⊆ p.
Proof.
  destruct p as [|l p]; unfold Pf0.collect; intros H;
    apply Pf0_stanza_lines_line in H as [? ?]; set_solver.
Qed.

Lemma value_not_sentinel (d : string) : (value d =? -1)%Z = false.
Proof. apply Z.eqb_neq. pose proof (value_nonneg d). lia. Qed.

(** The state stanza without its last row, from tables as declared. *)
Lemma extract_state_no_removals (rows : list row) (n : nat) (fields : gmap string Z) :
  length rows = 4 -> forallb row_ok rows = true ->
  exists t fields',
    storeFieldValues (rows_of StateTable (take 3 rows) ++ replicate n "")
      RE.tableRE fields StateTable
    = (t, fields', Some (errMissingData "removals")).
Proof.
  intros Hlen Hrows. unfold storeFieldValues.
  explode rows Hlen. rows_ok Hrows.
  cbn [take rows_of StateTable zip_with fmap list_fmap PfctlTitle app].
  rewrite !store_lines_row by done.
  rewrite <- (app_nil_r (replicate n "")), store_lines_blanks.
  match goal with
  | |- context [store_lines [] _ ?t] =>
      change (store_lines [] RE.tableRE t)
        with (with_values StateTable
                [value (digits r); value (digits r0); value (digits r1); (-1)%Z], @None error)
  end.
  cbn [with_values zip_with StateTable store_fields Value Field PfctlTitle].
  rewrite !value_not_sentinel. cbn. by eexists _, _.
Qed.

Lemma Pf_without_removals (s : sample) (eol : string) (acc : list acc_call) :
  sample_ok s = true -> is_eol eol = true ->
  exists G',
    Pf.parsePfctlOutput (unlines eol (without_removals s)) acc Pf.init
    = Some (G', acc, Some (errMissingData "removals")).
Proof.
  intros Hs Heol.
  destruct (sample_ok_parts s Hs) as (Hpre & _ & Hi & HS & HC).
  destruct (sample_clean_parts s Hs) as (Hc1 & Hc2 & Hc3 & Hc4 & Hc5 & Hc6).
  assert (forallb row_ok (take 3 (state s)) = true) as Hr3.
  { apply forallb_take, HS. }
  unfold Pf.parsePfctlOutput, parsePfctlOutput.
  rewrite ScanLines_unlines; [|done|].
  2:{ unfold without_removals.
      rewrite !forallb_app, forallb_cons, !forallb_app, forallb_cons, blanks_clean.
      rewrite Hc1, Hc2, Hc3, Hc5, Hc6. by rewrite rows_of_clean. }
  rewrite Pf_init_globals. unfold globals_of. cbn [pfctlOutputStanzas tables].
  unfold without_removals, interface_lines.
  rewrite (scan_all_skip _ Pf_collect_le) by done.
  assert (Forall plain (rows_of StateTable (take 3 (state s)) ++ replicate (st_blank s) ""))
    as Hplain.
  { apply Forall_app. split; [|apply plain_blanks].
    apply plain_rows_of; [apply plain_labels_state|done]. }
  destruct (extract_state_no_removals (state s) (st_blank s)) with (fields := ∅ : gmap string Z)
    as (t0 & f0 & E0); [apply HS..|].
  destruct (interface s) as [i|] eqn:Ei.
  - destruct (extract_state_no_removals (state s) (st_blank s))
      with (fields := put_all (with_values Pf.InterfaceTable (interface_values i)) ∅)
      as (t1 & f1 & E1); [apply HS..|].
    rewrite <- app_comm_cons, (scan_all_cons _ Pf_collect_le).
    unfold stanzas.
    rewrite (range_interface_next s Hs i) by (done || by apply starts_upper_app).
    erewrite range_hit;
      [|cbn [HeaderRE]; rewrite header_prefix; apply prefix_app
       |apply collect_plains; [done|by apply starts_upper_app]].
    cbn [ParseFunc]. unfold parseStateTable, RE.stateTableRE. cbn [stateTable].
    change (with_values StateTable (replicate 4 (-1)%Z)) with StateTable.
    rewrite E1. by eexists.
  - rewrite app_nil_l, (scan_all_cons _ Pf_collect_le). unfold stanzas.
    rewrite range_miss by (cbn [HeaderRE]; by rewrite header_prefix).
    erewrite range_hit;
      [|cbn [HeaderRE]; rewrite header_prefix; apply prefix_app
       |apply collect_plains; [done|by apply starts_upper_app]].
    cbn [ParseFunc]. unfold parseStateTable, RE.stateTableRE. cbn [stateTable].
    change (with_values StateTable (replicate 4 (-1)%Z)) with StateTable.
    rewrite E0. by eexists.
Qed.

(** ** The output map of [pf.go] *)

Lemma Pf_fields_dom (s : sample) :
  sample_ok s = true -> is_Some (interface s) -> dom (Pf_fields s) = Pf_keys.
Proof.
  intros Hs [i Ei]. destruct (sample_ok_parts s Hs) as (_ & _ & _ & [HS _] & [HC _]).
  unfold Pf_fields, state_counter_fields. rewrite Ei.
  remember (state s) as rs eqn:Ers. clear Ers. explode rs HS.
  remember (counters s) as rc eqn:Erc. clear Erc. explode rc HC.
  unfold values_of, interface_values. cbn [fmap list_fmap].
  forget_values. intros. vm_compute. exact eq_refl.
Qed.

Lemma state_counter_fields_dom (s : sample) :
  sample_ok s = true ->
  dom (state_counter_fields s)
  = list_to_set (keys_of StateTable ++ keys_of CounterTable).
Proof.
  intros Hs. destruct (sample_ok_parts s Hs) as (_ & _ & _ & [HS _] & [HC _]).
  unfold state_counter_fields.
  remember (state s) as rs eqn:Ers. clear Ers. explode rs HS.
  remember (counters s) as rc eqn:Erc. clear Erc. explode rc HC.
  unfold values_of. cbn [fmap list_fmap].
  forget_values. intros. vm_compute. exact eq_refl.
Qed.

(** Each column of the interface stanza under its key. *)
Lemma Pf_fields_interface (s : sample) (i : interface_stanza) :
  sample_ok s = true -> interface s = Some i ->
  Forall2 (fun k v => Pf_fields s !! k = Some v)
    (keys_of Pf.InterfaceTable) (interface_values i).
Proof.
  intros Hs Ei. destruct (sample_ok_parts s Hs) as (_ & _ & _ & [HS _] & [HC _]).
  unfold Pf_fields, state_counter_fields. rewrite Ei.
  remember (state s) as rs eqn:Ers. clear Ers. explode rs HS.
  remember (counters s) as rc eqn:Erc. clear Erc. explode rc HC.
  unfold values_of, interface_values. cbn [fmap list_fmap].
  forget_values. intros.
  cbn [keys_of Pf.InterfaceTable fmap list_fmap Field].
  repeat (constructor; [reflexivity|]); constructor.
Qed.

(** Each row of the state table and of the counters under its key. *)
Lemma Pf_fields_rows (s : sample) :
  sample_ok s = true ->
  Forall2 (fun k r => Pf_fields s !! k = Some (value (digits r)))
    (keys_of StateTable ++ keys_of CounterTable) (state s ++ counters s).
Proof.
  intros Hs. destruct (sample_ok_parts s Hs) as (_ & _ & _ & [HS _] & [HC _]).
  unfold Pf_fields, state_counter_fields.
  remember (state s) as rs eqn:Ers. clear Ers. explode rs HS.
  remember (counters s) as rc eqn:Erc. clear Erc. explode rc HC.
  unfold values_of. cbn [fmap list_fmap].
  destruct (interface s) as [i|]; [unfold interface_values|];
    cbn [keys_of StateTable CounterTable fmap list_fmap Field app];
    repeat (constructor; [reflexivity|]); constructor.
Qed.

(** ** The claims on well-formed samples *)








(** ** Values are never negative *)

(** The second group of the table expression is a run of digits. *)
Lemma tableRE_captures (l : string) (entries : list string) :
  FindStringSubmatch RE.tableRE l = Some entries ->
  exists w L d, entries = [w; L; d] /\ d <> "" /\ all is_digit d = true.
Proof.
  unfold RE.tableRE, sp, num, any_lazy. rewrite find_anchored.
  cbn [exec ngroups replicate Nat.max]. intros H.
  apply rep_greedy_Some in H as (m1 & s1 & _ & _ & _ & H).
  apply rep_lazy_Some in H as (m2 & s2 & _ & _ & _ & H).
  apply rep_greedy_Some in H as (m3 & s3 & _ & _ & _ & H).
  apply rep_greedy_Some in H as (m4 & s4 & _ & Hd & Hl & H).
  injection H as <-. eexists _, m2, m4. split; [reflexivity|]. split; [|done].
  destruct m4; [simpl in Hl; lia|done].
Qed.

Lemma parse_uint_no_syntax (s : string) (n : N) :
  all is_digit s = true -> parse_uint s n <> inr ErrSyntax.
Proof.
  revert n. induction s as [|c s IH]; intros n; simpl; [done|].
  intros [-> Hs]%andb_prop.
  destruct (_ <=? n)%N; [done|]. destruct (_ <? _)%N; [done|]. by apply IH.
Qed.

(** On a run of digits [ParseInt] fails for the range only, and its
    value is never negative. *)
Lemma ParseInt_digits (d : string) :
  d <> "" -> all is_digit d = true ->
  (0 <= (ParseInt d).1 < 2 ^ 63)%Z
  /\ ((ParseInt d).2 = None \/ (ParseInt d).2 = Some (NumError "ParseInt" d ErrRange)).
Proof.
  intros Hne Hd. unfold ParseInt. destruct d as [|c d]; [done|].
  assert (Ascii.eqb c "+" = false /\ Ascii.eqb c "-" = false) as [-> ->].
  { simpl in Hd. apply andb_prop in Hd as [Hc _]. clear -Hc.
    by destruct c as [[] [] [] [] [] [] [] []]. }
  cbn [orb negb andb]. unfold ParseUint.
  pose proof (parse_uint_no_syntax (String c d) 0 Hd) as Hs.
  destruct (parse_uint (String c d) 0) as [n|[|]]; [|done|].
  - destruct (N.leb_spec (2 ^ 63) n); simpl; [split; [lia|by right]|].
    split; [|by left]. change (2 ^ 63)%Z with (Z.of_N (2 ^ 63)). lia.
  - simpl. split; [lia|by right].
Qed.

Lemma store_value_ge (title d : string) (t : list Entry) :
  d <> "" -> all is_digit d = true -> values_ge t ->
  values_ge (store_value title d t).1.
Proof.
  intros Hne Hd. pose proof (ParseInt_digits d Hne Hd) as [Hv _].
  induction t as [|f t IH]; intros Ht; [done|].
  apply Forall_cons in Ht as [Hf Ht]. simpl.
  destruct (ParseInt d) as [v err]. simpl in Hv.
  destruct (store_value title d t) as [t' e'] eqn:E. specialize (IH Ht). simpl in IH.
  destruct (String.eqb (PfctlTitle f) title).
  - destruct err; simpl; constructor; simpl; try done; lia.
  - simpl. by constructor.
Qed.

Lemma store_lines_ge (lines : list string) (t : list Entry) :
  values_ge t -> values_ge (store_lines lines RE.tableRE t).1.
Proof.
  revert t. induction lines as [|l lines IH]; intros t Ht; [done|]. simpl.
  destruct (FindStringSubmatch RE.tableRE l) as [entries|] eqn:E; [|by apply IH].
  apply tableRE_captures in E as (w & L & d & -> & Hne & Hd).
  cbn [lookup_total list_lookup_total].
  pose proof (store_value_ge L d t Hne Hd Ht) as Hge.
  destruct (store_value L d t) as [t' [err|]]; [done|]. by apply IH.
Qed.

Lemma store_fields_nonneg_map (t : list Entry) (fields : gmap string Z) :
  values_ge t -> fields_nonneg fields -> fields_nonneg (store_fields t fields).1.
Proof.
  revert fields. induction t as [|e t IH]; intros fields Ht Hf; [done|].
  apply Forall_cons in Ht as [He Ht]. simpl.
  destruct (Z.eqb_spec (Value e) (-1)); [done|]. apply IH; [done|].
  intros k v. destruct (decide (Field e = k)) as [<-|Hk].
  - rewrite lookup_insert_eq. intros [= <-]. lia.
  - rewrite lookup_insert_ne by done. apply Hf.
Qed.

Lemma storeFieldValues_ge (lines : list string) (fields : gmap string Z) (t : list Entry) :
  values_ge t -> fields_nonneg fields ->
  values_ge (storeFieldValues lines RE.tableRE fields t).1.1
  /\ fields_nonneg (storeFieldValues lines RE.tableRE fields t).1.2.
Proof.
  intros Ht Hf. unfold storeFieldValues.
  pose proof (store_lines_ge lines t Ht) as Hge.
  destruct (store_lines lines RE.tableRE t) as [t' [err|]]; [done|].
  pose proof (store_fields_nonneg_map t' fields Hge Hf) as Hm.
  by destruct (store_fields t' fields).
Qed.

Lemma parseInterfaceTable_keeps : keeps_nonneg parseInterfaceTable.
Proof.
  intros lines fields [tI tS tC] (HI & HS & HC) Hf. unfold parseInterfaceTable.
  pose proof (storeFieldValues_ge lines fields tI HI Hf) as [H1 H2].
  unfold RE.interfaceTableRE. cbn [interfaceTable stateTable counterTable] in *.
  by destruct (storeFieldValues lines RE.tableRE fields tI) as [[t' f'] e'].
Qed.

Lemma parseStateTable_keeps : keeps_nonneg parseStateTable.
Proof.
  intros lines fields [tI tS tC] (HI & HS & HC) Hf. unfold parseStateTable.
  pose proof (storeFieldValues_ge lines fields tS HS Hf) as [H1 H2].
  unfold RE.stateTableRE. cbn [interfaceTable stateTable counterTable] in *.
  by destruct (storeFieldValues lines RE.tableRE fields tS) as [[t' f'] e'].
Qed.

Lemma parseCounterTable_keeps : keeps_nonneg parseCounterTable.
Proof.
  intros lines fields [tI tS tC] (HI & HS & HC) Hf. unfold parseCounterTable.
  pose proof (storeFieldValues_ge lines fields tC HC Hf) as [H1 H2].
  unfold RE.counterTableRE. cbn [interfaceTable stateTable counterTable] in *.
  by destruct (storeFieldValues lines RE.tableRE fields tC) as [[t' f'] e'].
Qed.

Section Nonneg.
Variable collect : list string -> list string * string * list string.

Lemma range_stanzas_nonneg ss l p fi T ss' p' fi' T' e :
  Forall (fun st => keeps_nonneg (ParseFunc st)) ss ->
  tables_ge T -> fields_nonneg fi ->
  range_stanzas collect ss l p fi T = (ss', p', fi', T', e) ->
  Forall (fun st => keeps_nonneg (ParseFunc st)) ss'
  /\ tables_ge T' /\ fields_nonneg fi'.
Proof.
  revert l p fi T ss' p' fi' T' e.
  induction ss as [|s ss IH]; intros l p fi T ss' p' fi' T' e Hss HT Hfi; simpl.
  - by intros [= <- <- <- <- <-].
  - apply Forall_cons in Hss as [Hs Hss].
    destruct (MatchString (HeaderRE s) l).
    + destruct (collect p) as [[sl l2] p2].
      pose proof (Hs sl fi T HT Hfi) as [HT1 Hf1].
      destruct (ParseFunc s sl fi T) as [[T1 fi1] [perr|]]; simpl in HT1, Hf1.
      * intros [= <- <- <- <- <-]. split; [by constructor|done].
      * destruct (range_stanzas collect ss l2 p2 fi1 T1)
          as [[[[ss3 p3] fi3] T3] e3] eqn:E.
        intros [= <- <- <- <- <-].
        apply IH in E as (? & ? & ?); [|done..].
        split; [by constructor|done].
    + destruct (range_stanzas collect ss l p fi T)
        as [[[[ss3 p3] fi3] T3] e3] eqn:E.
      intros [= <- <- <- <- <-].
      apply IH in E as (? & ? & ?); [|done..].
      split; [by constructor|done].
Qed.

Lemma scan_loop_nonneg fuel p ss fi T ss' fi' T' e :
  Forall (fun st => keeps_nonneg (ParseFunc st)) ss ->
  tables_ge T -> fields_nonneg fi ->
  scan_loop collect fuel p ss fi T = Some (ss', fi', T', e) ->
  tables_ge T' /\ fields_nonneg fi'.
Proof.
  revert p ss fi T. induction fuel as [|fuel IH]; intros p ss fi T Hss HT Hfi; [done|].
  simpl. destruct p as [|l p]; [by intros [= <- <- <- <-]|].
  destruct (range_stanzas collect ss l p fi T)
    as [[[[ss1 p1] fi1] T1] [perr|]] eqn:E; intros H.
  - injection H as <- <- <- <-.
    by apply range_stanzas_nonneg in E as (_ & ? & ?).
  - apply range_stanzas_nonneg in E as (? & ? & ?); [|done..]. by eapply IH.
Qed.

(** Whatever the text, from tables without a value below the sentinel:
    no value handed to the sink is negative, and the tables stay so. *)
Lemma parse_nonneg pfoutput acc G G' acc' e :
  Forall (fun st => keeps_nonneg (ParseFunc st)) (pfctlOutputStanzas G) ->
  tables_ge (tables G) ->
  parsePfctlOutput collect pfoutput acc G = Some (G', acc', e) ->
  tables_ge (tables G')
  /\ forall m fields tags, AddFields m fields tags ∈ acc' ->
       AddFields m fields tags ∈ acc \/ fields_nonneg fields.
Proof.
  intros Hss HT. unfold parsePfctlOutput, scan_all.
  destruct (scan_loop _ _ _ _ _ _) as [[[[ss fi] T] e0]|] eqn:E; [|done].
  apply scan_loop_nonneg in E as [HT' Hf]; [|done|done|done].
  destruct e0 as [perr|]; [intros [= <- <- <-]; split; [done|by left]|].
  destruct (check_found ss); intros [= <- <- <-]; (split; [done|]).
  - by left.
  - intros m fields tags [Hin|Hin%list_elem_of_singleton]%elem_of_app; [by left|].
    right. by injection Hin as -> -> ->.
Qed.
End Nonneg.

Lemma stanzas_keep fI fS fC :
  Forall (fun st => keeps_nonneg (ParseFunc st)) (stanzas fI fS fC).
Proof.
  unfold stanzas. repeat apply Forall_cons_2; [..|constructor].
  - apply parseInterfaceTable_keeps.
  - apply parseStateTable_keeps.
  - apply parseCounterTable_keeps.
Qed.

(** An entry that still holds the sentinel after the lines of a stanza
    held it before, and no line carries its title. *)
Lemma store_value_sentinel (title d : string) (t t' : list Entry) :
  d <> "" -> all is_digit d = true ->
  store_value title d t = (t', None) ->
  Forall2 (fun e e' =>
    Field e' = Field e /\ PfctlTitle e' = PfctlTitle e
    /\ (Value e' = (-1)%Z -> Value e = (-1)%Z /\ PfctlTitle e <> title)) t t'.
Proof.
  intros Hne Hd. pose proof (ParseInt_digits d Hne Hd) as [Hv _].
  revert t'. induction t as [|f t IH]; intros t'; simpl.
  - intros [= <-]. constructor.
  - destruct (ParseInt d) as [v err]. simpl in Hv.
    destruct (store_value title d t) as [t1 e1].
    destruct (String.eqb_spec (PfctlTitle f) title) as [Ht|Ht].
    + destruct err; [done|]. intros [= <- ->].
      constructor; [|by apply IH]. simpl. split; [done|split; [done|]]. lia.
    + intros [= <- ->]. constructor; [|by apply IH]. by split; [|split].
Qed.

Lemma store_lines_sentinel (lines : list string) (t t' : list Entry) :
  store_lines lines RE.tableRE t = (t', None) ->
  Forall2 (fun e e' =>
    Field e' = Field e /\ PfctlTitle e' = PfctlTitle e
    /\ (Value e' = (-1)%Z ->
        Value e = (-1)%Z
        /\ forall l entries, l ∈ lines ->
             FindStringSubmatch RE.tableRE l = Some entries ->
             entries !!! 1 <> PfctlTitle e)) t t'.
Proof.
  revert t. induction lines as [|l lines IH]; intros t; simpl.
  - intros [= <-]. apply Forall2_same_length_lookup_2; [done|].
    intros k e e' H1 H2. assert (e = e') as -> by congruence.
    split; [done|split; [done|]]. intros Hs. split; [done|].
    intros l entries Hl. by apply elem_of_nil in Hl.
  - destruct (FindStringSubmatch RE.tableRE l) as [entries|] eqn:E.
    + pose proof E as (w & L & d & -> & Hne & Hd)%tableRE_captures.
      cbn [lookup_total list_lookup_total].
      destruct (store_value L d t) as [t1 [err|]] eqn:Ev; [done|].
      intros H. apply IH in H.
      apply store_value_sentinel in Ev; [|done..].
      apply Forall2_same_length_lookup_2.
      { etrans; [by eapply Forall2_length|by eapply Forall2_length]. }
      intros k e e' He He'.
      destruct (Forall2_lookup_l _ _ _ _ _ Ev He) as (e1 & He1 & F1 & T1 & V1).
      destruct (Forall2_lookup_l _ _ _ _ _ H He1) as (e2 & He2 & F2 & T2 & V2).
      assert (e2 = e') as -> by congruence.
      split; [congruence|split; [congruence|]]. intros Hs. split.
      * apply V2 in Hs as [Hs _]. by apply V1 in Hs as [? _].
      * intros l0 entries0 [->|Hl]%elem_of_cons E0.
        -- apply V2 in Hs as [Hs _]. apply V1 in Hs as [_ Hs].
           rewrite E in E0. injection E0 as <-. cbn. congruence.
        -- apply V2 in Hs as [_ Hs]. rewrite <- T1. by eapply Hs.
    + intros H. apply IH in H. eapply Forall2_impl; [exact H|].
      intros e e' (F & Tt & V). split; [done|split; [done|]]. intros Hs. split.
      * by apply V in Hs as [? _].
      * intros l0 entries0 [->|Hl]%elem_of_cons E0; [congruence|].
        apply V in Hs as [_ Hs]. by eapply Hs.
Qed.

(** Claim C10: no value handed to the sink is negative.  The table
    expression captures a run of digits, which [ParseInt] reads as a value
    from 0 to 2^63 - 1, never the sentinel [-1]; so, on every text and from
    every state of the tables without a value below [-1] (as when the
    program starts), the values of the map are not negative, and the tables
    stay so.  The check on the sentinel is then sound: an entry at [-1]
    after the lines of its stanza was at [-1] before, and no line carries
    its title. *)
Theorem C10_values_nonneg (text : string) (acc acc' : list acc_call)
    (fI fS fC : bool) (T : Tables) (G' : Globals) (e : option error) :
  tables_ge T ->
  Pf.parsePfctlOutput text acc (mkGlobals (stanzas fI fS fC) T) = Some (G', acc', e) ->
  (forall m fields tags, AddFields m fields tags ∈ acc' ->
     AddFields m fields tags ∈ acc \/ fields_nonneg fields)
  /\ tables_ge (tables G')
  /\ (forall l entries, FindStringSubmatch RE.tableRE l = Some entries ->
        (0 <= (ParseInt (entries !!! 2%nat)).1 < 2 ^ 63)%Z)
  /\ (forall lines t t', store_lines lines RE.tableRE t = (t', None) ->
        Forall2 (fun e e' =>
          Field e' = Field e /\ PfctlTitle e' = PfctlTitle e
          /\ (Value e' = (-1)%Z ->
              Value e = (-1)%Z
              /\ forall l entries, l ∈ lines ->
                   FindStringSubmatch RE.tableRE l = Some entries ->
                   entries !!! 1 <> PfctlTitle e)) t t').
Proof.
  intros HT Hp.
  apply (parse_nonneg Pf.collect) in Hp as [H1 H2]; [|apply stanzas_keep|done].
  split_and!; [done|done| |apply store_lines_sentinel].
  intros l entries (w & L & d & -> & Hne & Hd)%tableRE_captures.
  by apply ParseInt_digits.
Qed.

Lemma tables_ge_init : tables_ge (tables Pf.init).
Proof.
  unfold tables_ge, values_ge. cbn. split_and!;
    repeat (apply Forall_cons_2; [simpl; lia|]); apply Forall_nil_2.
Qed.

Lemma C10_witness :
  tables_ge (tables Pf.init)
  /\ exists G',
       Pf.parsePfctlOutput (unlines newline (sample_lines pfctl_sample)) []
         (mkGlobals (stanzas false false false) (tables Pf.init))
       = Some (G', [AddFields measurement (Pf_fields pfctl_sample) ∅], None)
       /\ fields_nonneg (Pf_fields pfctl_sample).
Proof.
  split; [apply tables_ge_init|].
  exists (Pf_after pfctl_sample Pf.init).
  assert (Pf.parsePfctlOutput (unlines newline (sample_lines pfctl_sample)) []
            (mkGlobals (stanzas false false false) (tables Pf.init))
          = Some (Pf_after pfctl_sample Pf.init,
                  [] ++ [AddFields measurement (Pf_fields pfctl_sample) ∅], None)) as Hp.
  { apply (Pf_parse_sample pfctl_sample newline [] Pf.init eq_refl eq_refl Pf_init_reachable). }
  split; [exact Hp|].
  pose proof (C10_values_nonneg (unlines newline (sample_lines pfctl_sample)) []
              ([] ++ [AddFields measurement (Pf_fields pfctl_sample) ∅])
              false false false (tables Pf.init) (Pf_after pfctl_sample Pf.init) None
              tables_ge_init Hp) as (H & _).
  destruct (H measurement (Pf_fields pfctl_sample) ∅) as [Hin|Hf].
  - apply elem_of_app. right. apply list_elem_of_singleton. exact eq_refl.
  - exfalso. exact (proj1 (elem_of_nil _) Hin).
  - exact Hf.
Defined.

(** ** Two runs *)

Lemma fresh_entries_eq (t t0 : list Entry) :
  fresh_entries t t0 -> Forall (fun e => Value e = (-1)%Z) t0 -> t = t0.
Proof.
  induction 1 as [|e e0 t t0 (H1 & H2 & H3) Ht IH]; [done|].
  intros [H0 Ht0]%Forall_cons. rewrite (IH Ht0). f_equal.
  destruct e, e0. simpl in *. congruence.
Qed.

Lemma fresh_stanzas_eq (ss : list pfctlOutputStanza) :
  fresh_stanzas ss -> ss = pfctlOutputStanzas0.
Proof.
  unfold fresh_stanzas.
  assert (Forall (fun st0 => Found st0 = false) pfctlOutputStanzas0) as H0
    by (repeat constructor).
  revert H0. generalize pfctlOutputStanzas0 as ss0. intros ss0 H0 H.
  induction H as [|st st0 ss ss0 (H1 & H2 & H3 & H4) Hss IH]; [done|].
  apply Forall_cons in H0 as [Hf H0]. rewrite (IH H0). f_equal.
  destruct st, st0. simpl in *. congruence.
Qed.

(** A fresh state is the state in which the program starts. *)
Lemma fresh_Pf_init (G : Globals) : fresh Pf.InterfaceTable G -> G = Pf.init.
Proof.
  intros (Hs & HI & HS & HC). destruct G as [ss [tI tS tC]]. simpl in *.
  apply fresh_stanzas_eq in Hs as ->.
  apply fresh_entries_eq in HI as ->; [|repeat constructor].
  apply fresh_entries_eq in HS as ->; [|repeat constructor].
  apply fresh_entries_eq in HC as ->; [|repeat constructor].
  reflexivity.
Qed.

Lemma Pf_init_fresh : fresh Pf.InterfaceTable Pf.init.
Proof.
  unfold fresh, fresh_stanzas, fresh_entries. simpl. split_and!;
    repeat (apply Forall2_cons_2; [done|]); apply Forall2_nil_2.
Qed.

Lemma Pf_after_reachable (s : sample) (G : Globals) :
  sample_ok s = true -> reachable Pf.InterfaceTable G ->
  reachable Pf.InterfaceTable (Pf_after s G).
Proof.
  intros Hs (fI & fS & fC & vI & vS & vC & HvI & HvS & HvC & ->).
  destruct (sample_ok_parts s Hs) as (_ & _ & _ & [HS _] & [HC _]).
  unfold Pf_after, globals_of. cbn [pfctlOutputStanzas tables interfaceTable].
  destruct (interface s) as [i|].
  - exists true, true, true, (interface_values i), (values_of (state s)),
      (values_of (counters s)).
    unfold values_of. rewrite !length_fmap. by rewrite HS, HC.
  - exists fI, true, true, vI, (values_of (state s)), (values_of (counters s)).
    unfold values_of. rewrite !length_fmap. by rewrite HS, HC.
Qed.



(** ** [Packets] lines without their two lines *)

Lemma expand_packets_skip (entries : list string) (l : string) (acc : list string) :
  FindStringSubmatch RE.IPvRE l = None -> Pf.expand_packets entries l acc = acc.
Proof. intros H. unfold Pf.expand_packets. by rewrite H. Qed.

Lemma stanza_lines_packets (line : string) (entries acc : list string) :
  starts is_upper line = false ->
  FindStringSubmatch RE.packetsRE line = Some entries ->
  Pf.stanza_lines line [] acc = (acc, line, [])
  /\ (forall l1, Pf.stanza_lines line [l1] acc = (Pf.expand_packets entries l1 acc, l1, []))
  /\ (forall l1 l2 q,
        Pf.stanza_lines line (l1 :: l2 :: q) acc
        = Pf.next_turn l2 q
            (Pf.expand_packets entries l2 (Pf.expand_packets entries l1 acc))).
Proof.
  intros HU HP. split_and!.
  - simpl. by rewrite anyTableHeaderRE_starts, HU, HP.
  - intros l1. simpl. by rewrite anyTableHeaderRE_starts, HU, HP.
  - intros l1 l2 q. destruct q; simpl; by rewrite anyTableHeaderRE_starts, HU, HP.
Qed.

(** The interface table when nothing was read for [Packets In]. *)
Lemma store_fields_no_packets_in (i : interface_stanza) (v5 v6 v7 v8 : Z)
    (fields : gmap string Z) :
  exists fields',
    store_fields
      (with_values Pf.InterfaceTable
         [value (ipv4 (bytes_in i)); value (ipv4 (bytes_out i));
          value (ipv6 (bytes_in i)); value (ipv6 (bytes_out i));
          (-1)%Z; (-1)%Z; v5; v6; (-1)%Z; (-1)%Z; v7; v8]) fields
    = (fields', Some (errMissingData "Packets In Passed IPv4")).
Proof.
  cbn [with_values zip_with Pf.InterfaceTable store_fields Value Field PfctlTitle].
  rewrite !value_not_sentinel. cbn. by eexists.
Qed.

Section MissingPackets.
Variables (s : sample) (i : interface_stanza).
Hypothesis Hs : sample_ok s = true.
Hypothesis Ei : interface s = Some i.

Lemma sample_interface_ok : interface_ok i = true.
Proof.
  destruct (sample_ok_parts s Hs) as (_ & _ & H & _). by rewrite Ei in H.
Qed.

Lemma packets_in_line :
  starts is_upper (pin_ind i +:+ "Packets In" +:+ pin_rest i) = false
  /\ FindStringSubmatch RE.packetsRE (pin_ind i +:+ "Packets In" +:+ pin_rest i)
     = Some ["" +:+ pin_ind i +:+ "Packets In"; pin_ind i +:+ "Packets In"].
Proof.
  pose proof sample_interface_ok as (_ & _ & Hpi & _)%interface_ok_parts. split.
  - apply blank_starts; [done|apply is_blank_not_upper].
  - by apply (packetsRE_in (pin_ind i) ("Packets In" +:+ pin_rest i) Hpi eq_refl (pin_rest i)).
Qed.

(** The text ends after the line [Packets In]. *)
Lemma extract_cut (fields : gmap string Z) :
  exists t fields',
    storeFieldValues
      [synthetic "Bytes In IPv4" (ind2 (bytes_in i)) (ipv4 (bytes_in i));
       synthetic "Bytes In IPv6" (ind2 (bytes_in i)) (ipv6 (bytes_in i));
       synthetic "Bytes Out IPv4" (ind2 (bytes_out i)) (ipv4 (bytes_out i));
       synthetic "Bytes Out IPv6" (ind2 (bytes_out i)) (ipv6 (bytes_out i))]
      RE.tableRE fields Pf.InterfaceTable
    = (t, fields', Some (errMissingData "Packets In Passed IPv4")).
Proof.
  pose proof sample_interface_ok as (Hbi & Hbo & _)%interface_ok_parts.
  apply (row2_fields_ok _) in Hbi as (? & ? & ?).
  apply (row2_fields_ok _) in Hbo as (? & ? & ?).
  unfold storeFieldValues, synthetic.
  rewrite !store_lines_row by (done || by apply synthetic_ok).
  cbn [digits].
  match goal with
  | |- context [store_lines [] _ ?t] =>
      change (store_lines [] RE.tableRE t)
        with (with_values Pf.InterfaceTable
                [value (ipv4 (bytes_in i)); value (ipv4 (bytes_out i));
                 value (ipv6 (bytes_in i)); value (ipv6 (bytes_out i));
                 (-1)%Z; (-1)%Z; (-1)%Z; (-1)%Z; (-1)%Z; (-1)%Z; (-1)%Z; (-1)%Z],
              @None error)
  end.
  destruct (store_fields_no_packets_in i (-1) (-1) (-1) (-1) fields) as [f' ->].
  by eexists _, _.
Qed.

(** The two lines after [Packets In] are not of the expected form. *)
Lemma extract_malformed (n : nat) (fields : gmap string Z) :
  exists t fields',
    storeFieldValues
      ([synthetic "Bytes In IPv4" (ind2 (bytes_in i)) (ipv4 (bytes_in i));
        synthetic "Bytes In IPv6" (ind2 (bytes_in i)) (ipv6 (bytes_in i));
        synthetic "Bytes Out IPv4" (ind2 (bytes_out i)) (ipv4 (bytes_out i));
        synthetic "Bytes Out IPv6" (ind2 (bytes_out i)) (ipv6 (bytes_out i));
        synthetic "Packets Out Passed IPv4" (pout_ind i) (ipv4 (out_passed i));
        synthetic "Packets Out Passed IPv6" (pout_ind i) (ipv6 (out_passed i));
        synthetic "Packets Out Blocked IPv4" (pout_ind i) (ipv4 (out_blocked i));
        synthetic "Packets Out Blocked IPv6" (pout_ind i) (ipv6 (out_blocked i))]
       ++ replicate n "")
      RE.tableRE fields Pf.InterfaceTable
    = (t, fields', Some (errMissingData "Packets In Passed IPv4")).
Proof.
  pose proof sample_interface_ok as (Hbi & Hbo & Hpi & Hip & Hib & Hpo & Hop & Hob)%interface_ok_parts.
  repeat match goal with
  | H : row2_ok ?r = true |- _ => apply (row2_fields_ok r) in H as (? & ? & ?)
  end.
  unfold storeFieldValues, synthetic. cbn [app].
  rewrite !store_lines_row by (done || by apply synthetic_ok).
  rewrite <- (app_nil_r (replicate n "")), store_lines_blanks.
  cbn [digits].
  match goal with
  | |- context [store_lines [] _ ?t] =>
      change (store_lines [] RE.tableRE t)
        with (with_values Pf.InterfaceTable
                [value (ipv4 (bytes_in i)); value (ipv4 (bytes_out i));
                 value (ipv6 (bytes_in i)); value (ipv6 (bytes_out i));
                 (-1)%Z; (-1)%Z;
                 value (ipv4 (out_passed i)); value (ipv4 (out_blocked i));
                 (-1)%Z; (-1)%Z;
                 value (ipv6 (out_passed i)); value (ipv6 (out_blocked i))],
              @None error)
  end.
  destruct (store_fields_no_packets_in i (value (ipv4 (out_passed i)))
              (value (ipv4 (out_blocked i))) (value (ipv6 (out_passed i)))
              (value (ipv6 (out_blocked i))) fields) as [f' ->].
  by eexists _, _.
Qed.

Lemma Pf_cut_after_packets_in (eol : string) (acc : list acc_call) :
  is_eol eol = true ->
  exists G',
    Pf.parsePfctlOutput (unlines eol (cut_after_packets_in s)) acc Pf.init
    = Some (G', acc, Some (errMissingData "Packets In Passed IPv4")).
Proof.
  intros Heol.
  destruct (sample_ok_parts s Hs) as (Hpre & _ & _ & HS & HC).
  destruct (sample_clean_parts s Hs) as (Hc1 & Hc2 & _).
  pose proof sample_interface_ok as (Hbi & Hbo & Hpi & _)%interface_ok_parts.
  destruct packets_in_line as [HU HP].
  unfold Pf.parsePfctlOutput, parsePfctlOutput, cut_after_packets_in.
  rewrite Ei. unfold interface_lines in Hc2. rewrite Ei in Hc2.
  rewrite forallb_cons in Hc2. apply andb_prop in Hc2 as [Hch Hcr].
  rewrite ScanLines_unlines; [|done|].
  2:{ rewrite forallb_app, forallb_cons, Hc1, Hch. by apply forallb_take. }
  rewrite Pf_init_globals. unfold globals_of. cbn [pfctlOutputStanzas tables].
  rewrite (scan_all_skip _ Pf_collect_le) by done.
  rewrite (scan_all_cons _ Pf_collect_le). unfold stanzas.
  destruct (extract_cut ∅) as (t & f' & E).
  erewrite range_hit;
    [|cbn [HeaderRE]; rewrite header_prefix; apply prefix_app|].
  2:{ unfold interface_rows. cbn [take app Pf.collect].
      rewrite stanza_lines_bytes_in by done. cbn [Pf.next_turn].
      rewrite stanza_lines_bytes_out by done. cbn [Pf.next_turn].
      match goal with
      | |- context [Pf.stanza_lines _ [] ?a] =>
          destruct (stanza_lines_packets _ _ a HU HP) as (-> & _)
      end.
      reflexivity. }
  cbn [ParseFunc]. unfold parseInterfaceTable, RE.interfaceTableRE.
  cbn [interfaceTable app].
  change (with_values Pf.InterfaceTable (replicate 12 (-1)%Z)) with Pf.InterfaceTable.
  rewrite E. by eexists.
Qed.

Lemma Pf_malformed_packets_in (l1 l2 eol : string) (acc : list acc_call) :
  is_eol eol = true -> clean l1 = true -> clean l2 = true ->
  FindStringSubmatch RE.IPvRE l1 = None -> FindStringSubmatch RE.IPvRE l2 = None ->
  exists G',
    Pf.parsePfctlOutput (unlines eol (malformed_packets_in s l1 l2)) acc Pf.init
    = Some (G', acc, Some (errMissingData "Packets In Passed IPv4")).
Proof.
  intros Heol Hl1 Hl2 H1 H2.
  destruct (sample_ok_parts s Hs) as (Hpre & _ & _ & HS & HC).
  destruct (sample_clean_parts s Hs) as (Hc1 & Hc2 & Hc3 & Hc4 & Hc5 & Hc6).
  pose proof sample_interface_ok as (Hbi & Hbo & Hpi & Hip & Hib & Hpo & Hop & Hob)%interface_ok_parts.
  destruct packets_in_line as [HU HP].
  unfold Pf.parsePfctlOutput, parsePfctlOutput, malformed_packets_in.
  rewrite Ei. unfold interface_lines in Hc2. rewrite Ei in Hc2.
  rewrite forallb_cons in Hc2. apply andb_prop in Hc2 as [Hch Hcr].
  rewrite ScanLines_unlines; [|done|].
  2:{ unfold state_rows.
      rewrite !forallb_app, forallb_cons, !forallb_app, !forallb_cons, !forallb_app,
        forallb_cons, blanks_clean.
      rewrite Hc1, Hch, Hl1, Hl2, Hc3, Hc4, Hc5, Hc6.
      rewrite forallb_take by done.
      rewrite <- (take_drop 5 (interface_rows i)), forallb_app in Hcr.
      apply andb_prop in Hcr as [_ ->]. done. }
  rewrite Pf_init_globals. unfold globals_of. cbn [pfctlOutputStanzas tables].
  rewrite (scan_all_skip _ Pf_collect_le) by done.
  rewrite <- app_comm_cons, (scan_all_cons _ Pf_collect_le). unfold stanzas.
  destruct (extract_malformed (if_blank i) ∅) as (t & f' & E).
  erewrite range_hit;
    [|cbn [HeaderRE]; rewrite header_prefix; apply prefix_app|].
  2:{ unfold interface_rows. cbn [take drop app Pf.collect].
      rewrite stanza_lines_bytes_in by done. cbn [Pf.next_turn].
      rewrite stanza_lines_bytes_out by done. cbn [Pf.next_turn].
      match goal with
      | |- context [Pf.stanza_lines _ _ ?a] =>
          destruct (stanza_lines_packets _ _ a HU HP) as (_ & _ & ->)
      end.
      rewrite !expand_packets_skip by done. cbn [Pf.next_turn].
      rewrite stanza_lines_packets_out by done.
      rewrite next_turn_plains;
        [reflexivity|apply plain_blanks|by apply starts_upper_app]. }
  cbn [ParseFunc]. unfold parseInterfaceTable, RE.interfaceTableRE.
  cbn [interfaceTable app].
  change (with_values Pf.InterfaceTable (replicate 12 (-1)%Z)) with Pf.InterfaceTable.
  rewrite <- ?app_assoc. cbn [app] in E |- *. rewrite E. by eexists.
Qed.
End MissingPackets.



(** ** The columns of the interface stanza *)

Lemma Pf_fields_columns (s : sample) (i : interface_stanza) :
  sample_ok s = true -> interface s = Some i ->
  Pf_fields s !! "bytes4-in" = Some (value (ipv4 (bytes_in i)))
  /\ Pf_fields s !! "bytes6-in" = Some (value (ipv6 (bytes_in i)))
  /\ Pf_fields s !! "bytes4-out" = Some (value (ipv4 (bytes_out i)))
  /\ Pf_fields s !! "bytes6-out" = Some (value (ipv6 (bytes_out i)))
  /\ Pf_fields s !! "packets4-in-passed" = Some (value (ipv4 (in_passed i)))
  /\ Pf_fields s !! "packets6-in-passed" = Some (value (ipv6 (in_passed i)))
  /\ Pf_fields s !! "packets4-in-blocked" = Some (value (ipv4 (in_blocked i)))
  /\ Pf_fields s !! "packets6-in-blocked" = Some (value (ipv6 (in_blocked i))).
Proof.
  intros Hs Ei. destruct (sample_ok_parts s Hs) as (_ & _ & _ & [HS _] & [HC _]).
  unfold Pf_fields, state_counter_fields. rewrite Ei.
  remember (state s) as rs eqn:Ers. clear Ers. explode rs HS.
  remember (counters s) as rc eqn:Erc. clear Erc. explode rc HC.
  unfold values_of, interface_values. cbn [fmap list_fmap].
  split_and!; reflexivity.
Qed.

(** The keys of the specification for the interface stanza are not in
    the map. *)
Lemma Pf_fields_no_spec_key (s : sample) (k : string) :
  sample_ok s = true -> is_Some (interface s) ->
  k ∈ ["bytes-in"; "bytes-out"; "packets-in-passed"; "packets-in-blocked";
       "packets-out-passed"; "packets-out-blocked"] ->
  Pf_fields s !! k = None.
Proof.
  intros Hs Hi Hk. apply not_elem_of_dom. rewrite Pf_fields_dom by done.
  repeat (apply elem_of_cons in Hk as [->|Hk]);
    [..|by apply elem_of_nil in Hk];
    apply (bool_decide_unpack _); vm_compute; exact I.
Qed.

Lemma spec_sample_lines :
  row2_line "Bytes In" (bytes_in spec_interface) = "  Bytes In    100    200"
  /\ row2_line "Bytes Out" (bytes_out spec_interface) = "  Bytes Out   300    400"
  /\ row2_line "Passed" (in_passed spec_interface) = "    Passed    10    20"
  /\ row2_line "Blocked" (in_blocked spec_interface) = "    Blocked   30    40".
Proof. by split_and!. Qed.







(** ** The earlier variant on the samples *)

(** The earlier variant ([src/unnamed/part_000]) leaves the lines
    [Bytes In] and [Bytes Out] as they are, and its table of the interface
    stanza has the six keys without a protocol: on the lines of the
    specification it hands the sink the first integer of each line. *)
Lemma Pf0_spec_sample :
  match Pf0.parsePfctlOutput (unlines newline (sample_lines spec_sample)) []
          Pf0.init with
  | Some (_, [AddFields m fields tags], None) =>
      m = measurement /\ tags = ∅
      /\ fields !! "bytes-in" = Some 100%Z
      /\ fields !! "bytes-out" = Some 300%Z
      /\ fields !! "packets-in-passed" = Some 10%Z
      /\ fields !! "packets-in-blocked" = Some 30%Z
      /\ fields !! "bytes4-in" = None
      /\ fields !! "bytes6-in" = None
      /\ fields !! "packets4-in-passed" = None
      /\ fields !! "packets6-in-passed" = None
      /\ bool_decide (dom fields = spec_keys) = true
  | _ => False
  end.
Proof. vm_compute. by split_and!. Qed.

(** Its scanner makes no line of its own of a line [Bytes In]; of the two
    lines after [Packets In] it makes one line each, which keeps both
    integers. *)
Lemma Pf0_spec_stanza_lines :
  Pf0.stanza_lines "  Bytes In    100    200" ["  Bytes Out   300    400"] []
  = (["  Bytes In    100    200"; "  Bytes Out   300    400"],
     "  Bytes Out   300    400", [])
  /\ Pf0.stanza_lines "  Packets In"
       ["    Passed    10    20"; "    Blocked   30    40"] []
     = (["  Packets In Passed    10    20"; "  Packets In Blocked   30    40"],
        "    Blocked   30    40", []).
Proof. by vm_compute. Qed.

(** ** What a parse can end in, on any text *)

Lemma same_entries_refl (t : list Entry) : same_entries t t.
Proof. unfold same_entries. induction t; by constructor. Qed.

Lemma same_entries_trans (t1 t2 t3 : list Entry) :
  same_entries t1 t2 -> same_entries t2 t3 -> same_entries t1 t3.
Proof.
  unfold same_entries. intros H12. revert t3.
  induction H12 as [|e1 e2 l1 l2 [? ?] _ IH]; intros t3 H23.
  - by inversion H23.
  - inversion H23 as [|? e3 ? l3 [? ?] ?]; subst.
    constructor; [split; congruence|by apply IH].
Qed.

Lemma same_entries_titles (t t0 : list Entry) :
  same_entries t t0 -> PfctlTitle <$> t = PfctlTitle <$> t0.
Proof. induction 1 as [|e e0 l l0 [_ ?] _ IH]; [done|]. simpl. by f_equal. Qed.

Lemma same_entries_keys (t t0 : list Entry) :
  same_entries t t0 -> key_set t = key_set t0.
Proof.
  unfold key_set, keys_of. intros H. f_equal.
  induction H as [|e e0 l l0 [? _] _ IH]; [done|]. simpl. by f_equal.
Qed.

(** A run of digits that [ParseInt] refuses does not fit [int64]. *)
Lemma ParseInt_range (d : string) (v : Z) (e : error) :
  d <> "" -> all is_digit d = true -> ParseInt d = (v, Some e) ->
  v = (2 ^ 63 - 1)%Z /\ e = NumError "ParseInt" d ErrRange /\ (2 ^ 63 <= decimal d)%N.
Proof.
  intros Hne Hd H.
  destruct (N.ltb_spec (decimal d) (2 ^ 63)) as [Hlt|Hge].
  - rewrite ParseInt_number in H; [done|]. unfold number.
    rewrite Hd. apply N.ltb_lt in Hlt. rewrite Hlt.
    destruct (String.eqb_spec d ""); done.
  - pose proof (ParseInt_digits d Hne Hd) as [_ He]. rewrite H in He. simpl in He.
    destruct He as [He|He]; [done|]. injection He as ->. split; [|done].
    revert H. unfold ParseInt. destruct d as [|c d]; [done|].
    assert (Ascii.eqb c "+" = false /\ Ascii.eqb c "-" = false) as [-> ->].
    { simpl in Hd. apply andb_prop in Hd as [Hc _]. clear -Hc.
      by destruct c as [[] [] [] [] [] [] [] []]. }
    cbn [orb negb andb]. destruct (ParseUint (String c d)) as [un [[|]|]];
      [done|..]; destruct (_ <=? un)%N; congruence.
Qed.

Lemma store_value_spec (title d : string) (t : list Entry) :
  d <> "" -> all is_digit d = true ->
  same_entries (store_value title d t).1 t
  /\ match (store_value title d t).2 with
     | None => True
     | Some e => e = NumError "ParseInt" d ErrRange /\ (2 ^ 63 <= decimal d)%N
     end.
Proof.
  intros Hne Hd. induction t as [|f t [IH1 IH2]]; simpl; [by split; [constructor|]|].
  destruct (ParseInt d) as [v err] eqn:Ep.
  destruct (store_value title d t) as [t' e']. simpl in IH1, IH2.
  destruct (String.eqb (PfctlTitle f) title).
  - destruct err as [e|]; simpl.
    + apply ParseInt_range in Ep as (_ & -> & ?); [|done..].
      split; [|done]. constructor; [done|apply same_entries_refl].
    + split; [by constructor|done].
  - simpl. split; [by constructor|done].
Qed.

Lemma store_lines_spec (lines : list string) (t : list Entry) :
  same_entries (store_lines lines RE.tableRE t).1 t
  /\ match (store_lines lines RE.tableRE t).2 with
     | None => True
     | Some e => extractor_error [] e
     end.
Proof.
  revert t. induction lines as [|l lines IH]; intros t; simpl.
  - split; [apply same_entries_refl|done].
  - destruct (FindStringSubmatch RE.tableRE l) as [entries|] eqn:E; [|apply IH].
    apply tableRE_captures in E as (w & L & d & -> & Hne & Hd).
    cbn [lookup_total list_lookup_total].
    pose proof (store_value_spec L d t Hne Hd) as [H1 H2].
    destruct (store_value L d t) as [t' [err|]]; simpl in *.
    + split; [done|]. right. exists d. by destruct H2 as [-> ?].
    + destruct (IH t') as [H3 H4]. split; [by eapply same_entries_trans|done].
Qed.

Lemma store_fields_spec (t : list Entry) (fields : gmap string Z) :
  match (store_fields t fields).2 with
  | None => dom (store_fields t fields).1 = dom fields ∪ key_set t
  | Some e => exists L, e = errMissingData L /\ L ∈ PfctlTitle <$> t
  end.
Proof.
  revert fields. induction t as [|v t IH]; intros fields; simpl.
  - unfold key_set. simpl. set_solver.
  - destruct (Value v =? -1)%Z; simpl.
    + eexists. split; [done|]. by left.
    + specialize (IH (<[Field v := Value v]> fields)).
      destruct (store_fields t (<[Field v:=Value v]> fields)) as [f' [e|]]; simpl in *.
      * destruct IH as (L & -> & HL). exists L. split; [done|]. by right.
      * rewrite IH, dom_insert_L. unfold key_set. simpl. set_solver.
Qed.

Lemma extractor_error_mono (ts1 ts2 : list string) (e : error) :
  ts1 ⊆ ts2 -> extractor_error ts1 e -> extractor_error ts2 e.
Proof. intros Hs [(L & -> & HL)|H]; [left; exists L; split; [done|by apply Hs]|by right]. Qed.

Lemma storeFieldValues_spec (lines : list string) (fields : gmap string Z)
    (t t0 : list Entry) :
  same_entries t t0 ->
  same_entries (storeFieldValues lines RE.tableRE fields t).1.1 t0
  /\ match (storeFieldValues lines RE.tableRE fields t).2 with
     | None =>
         dom (storeFieldValues lines RE.tableRE fields t).1.2 = dom fields ∪ key_set t0
     | Some e => extractor_error (PfctlTitle <$> t0) e
     end.
Proof.
  intros Ht. unfold storeFieldValues.
  pose proof (store_lines_spec lines t) as [H1 H2].
  destruct (store_lines lines RE.tableRE t) as [t' [err|]]; simpl in *.
  - split; [by eapply same_entries_trans|].
    eapply extractor_error_mono; [|done]. set_solver.
  - assert (same_entries t' t0) as Ht' by by eapply same_entries_trans.
    pose proof (store_fields_spec t' fields) as H3.
    destruct (store_fields t' fields) as [f' [e|]]; simpl in *; (split; [done|]).
    + left. by rewrite <- (same_entries_titles t' t0).
    + by rewrite <- (same_entries_keys t' t0).
Qed.

Section TableSpecs.
Variable I : list Entry.

Lemma parseInterfaceTable_spec :
  parse_func_spec (tables_of I) (extractor_error (titles_of I))
    parseInterfaceTable (key_set I).
Proof.
  intros lines fields [tI tS tC] (HI & HS & HC). unfold parseInterfaceTable.
  pose proof (storeFieldValues_spec lines fields tI I HI) as [H1 H2].
  unfold RE.interfaceTableRE. cbn [interfaceTable stateTable counterTable] in *.
  destruct (storeFieldValues lines RE.tableRE fields tI) as [[t' f'] e']; simpl in *.
  split; [done|]. destruct e'; [|done].
  eapply extractor_error_mono; [|done]. unfold titles_of. rewrite fmap_app. set_solver.
Qed.

Lemma parseStateTable_spec :
  parse_func_spec (tables_of I) (extractor_error (titles_of I))
    parseStateTable (key_set StateTable).
Proof.
  intros lines fields [tI tS tC] (HI & HS & HC). unfold parseStateTable.
  pose proof (storeFieldValues_spec lines fields tS StateTable HS) as [H1 H2].
  unfold RE.stateTableRE. cbn [interfaceTable stateTable counterTable] in *.
  destruct (storeFieldValues lines RE.tableRE fields tS) as [[t' f'] e']; simpl in *.
  split; [done|]. destruct e'; [|done].
  eapply extractor_error_mono; [|done]. unfold titles_of. rewrite !fmap_app. set_solver.
Qed.

Lemma parseCounterTable_spec :
  parse_func_spec (tables_of I) (extractor_error (titles_of I))
    parseCounterTable (key_set CounterTable).
Proof.
  intros lines fields [tI tS tC] (HI & HS & HC). unfold parseCounterTable.
  pose proof (storeFieldValues_spec lines fields tC CounterTable HC) as [H1 H2].
  unfold RE.counterTableRE. cbn [interfaceTable stateTable counterTable] in *.
  destruct (storeFieldValues lines RE.tableRE fields tC) as [[t' f'] e']; simpl in *.
  split; [done|]. destruct e'; [|done].
  eapply extractor_error_mono; [|done]. unfold titles_of. rewrite !fmap_app. set_solver.
Qed.

Lemma stanzas_spec fI fS fC :
  Forall2 (fun st K =>
    parse_func_spec (tables_of I) (extractor_error (titles_of I)) (ParseFunc st) K)
    (stanzas fI fS fC) [key_set I; key_set StateTable; key_set CounterTable].
Proof.
  unfold stanzas.
  constructor; [apply parseInterfaceTable_spec|].
  constructor; [apply parseStateTable_spec|].
  constructor; [apply parseCounterTable_spec|]. constructor.
Qed.
End TableSpecs.

Lemma check_found_Some (ss : list pfctlOutputStanza) (e : error) :
  check_found ss = Some e -> e = errParseHeader.
Proof.
  induction ss as [|s ss IH]; simpl; [done|].
  destruct (Optional s); [done|]. destruct (Found s); [done|]. simpl. congruence.
Qed.

Section Outcome.
Variable collect : list string -> list string * string * list string.
Variable wf : Tables -> Prop.
Variable errs : error -> Prop.

Notation spec := (fun st K => parse_func_spec wf errs (ParseFunc st) K).

Lemma range_stanzas_outcome ss Ks l p fi T ss' p' fi' T' e :
  Forall2 spec ss Ks -> wf T ->
  range_stanzas collect ss l p fi T = (ss', p', fi', T', e) ->
  Forall2 spec ss' Ks /\ wf T'
  /\ match e with
     | None => exists N, dom fi' = dom fi ∪ N
                         /\ found_keys ss' Ks = found_keys ss Ks ∪ N
     | Some err => errs err
     end.
Proof.
  intros Hss. revert l p fi T ss' p' fi' T' e.
  induction Hss as [|s K ss Ks Hs Hss IH]; intros l p fi T ss' p' fi' T' e HT; simpl.
  - intros [= <- <- <- <- <-]. split; [constructor|]. split; [done|].
    exists ∅. set_solver.
  - destruct (MatchString (HeaderRE s) l).
    + destruct (collect p) as [[sl l2] p2].
      pose proof (Hs sl fi T HT) as [HT1 Hf1].
      destruct (ParseFunc s sl fi T) as [[T1 fi1] [perr|]]; simpl in HT1, Hf1.
      * intros [= <- <- <- <- <-]. split; [by constructor|done].
      * destruct (range_stanzas collect ss l2 p2 fi1 T1)
          as [[[[ss3 p3] fi3] T3] e3] eqn:E.
        intros [= <- <- <- <- <-].
        apply IH in E as (? & ? & He); [|done].
        split; [by constructor|]. split; [done|].
        destruct e3 as [err|]; [done|]. destruct He as (N & HN1 & HN2).
        exists (K ∪ N). simpl. rewrite HN1, Hf1, HN2. destruct (Found s); set_solver.
    + destruct (range_stanzas collect ss l p fi T)
        as [[[[ss3 p3] fi3] T3] e3] eqn:E.
      intros [= <- <- <- <- <-].
      apply IH in E as (? & ? & He); [|done].
      split; [by constructor|]. split; [done|].
      destruct e3 as [err|]; [done|]. destruct He as (N & HN1 & HN2).
      exists N. simpl. rewrite HN2. set_solver.
Qed.

Lemma scan_loop_outcome fuel p ss Ks fi T ss' fi' T' e :
  Forall2 spec ss Ks -> wf T ->
  scan_loop collect fuel p ss fi T = Some (ss', fi', T', e) ->
  wf T'
  /\ match e with
     | None => exists N, dom fi' = dom fi ∪ N
                         /\ found_keys ss' Ks = found_keys ss Ks ∪ N
     | Some err => errs err
     end.
Proof.
  revert p ss fi T. induction fuel as [|fuel IH]; intros p ss fi T Hss HT; [done|].
  simpl. destruct p as [|l p].
  { intros [= <- <- <- <-]. split; [done|]. exists ∅. set_solver. }
  destruct (range_stanzas collect ss l p fi T)
    as [[[[ss1 p1] fi1] T1] [perr|]] eqn:E; intros H.
  - injection H as <- <- <- <-.
    by apply (range_stanzas_outcome _ Ks) in E as (_ & ? & ?).
  - apply (range_stanzas_outcome _ Ks) in E as (Hss1 & HT1 & (N1 & HN1 & HN2)); [|done..].
    apply IH in H as [HT2 He]; [|done..]. split; [done|].
    destruct e as [err|]; [done|]. destruct He as (N2 & HN3 & HN4).
    exists (N1 ∪ N2). rewrite HN3, HN1, HN4, HN2. set_solver.
Qed.

(** A parse ends in an error of a [ParseFunc], in [errParseHeader], or
    with one map for the sink; the keys of the map are those of the stanzas
    the parse has marked as found. *)
Lemma parse_outcome pfoutput acc G Ks :
  Forall2 spec (pfctlOutputStanzas G) Ks -> wf (tables G) ->
  (forall p, length (collect p).2 <= length p) ->
  exists G' acc' e,
    parsePfctlOutput collect pfoutput acc G = Some (G', acc', e)
    /\ wf (tables G')
    /\ match e with
       | None =>
           check_found (pfctlOutputStanzas G') = None
           /\ exists fields N,
                acc' = acc ++ [AddFields measurement fields ∅]
                /\ dom fields = N
                /\ found_keys (pfctlOutputStanzas G') Ks
                   = found_keys (pfctlOutputStanzas G) Ks ∪ N
       | Some err => acc' = acc /\ (err = errParseHeader \/ errs err)
       end.
Proof.
  intros Hss HT Hle. unfold parsePfctlOutput.
  destruct (scan_all_total collect Hle (ScanLines pfoutput) (pfctlOutputStanzas G)
              ∅ (tables G)) as [[[[ss fi] T] e] E].
  rewrite E. apply (scan_loop_outcome _ _ _ Ks) in E as [HT' He]; [|done..].
  destruct e as [perr|].
  - eexists _, _, _. split; [done|]. split; [done|]. split; [done|by right].
  - destruct (check_found ss) eqn:Ec.
    + apply check_found_Some in Ec as ->.
      eexists _, _, _. split; [done|]. split; [done|]. split; [done|by left].
    + eexists _, _, _. split; [done|]. split; [done|]. split; [done|].
      destruct He as (N & H1 & H2). exists fi, N. split; [done|].
      split; [|done]. rewrite H1, dom_empty_L. set_solver.
Qed.
End Outcome.

Lemma stanza_steps_stanzas toks fI fS fC ss' :
  Forall2 (stanza_step toks) (stanzas fI fS fC) ss' ->
  exists fI' fS' fC', ss' = stanzas fI' fS' fC'.
Proof.
  unfold stanzas. intros H.
  apply Forall2_cons_inv_l in H as ([h1 f1 d1 o1] & l1 & (E1 & E2 & E3 & _) & H & ->).
  apply Forall2_cons_inv_l in H as ([h2 f2 d2 o2] & l2 & (E4 & E5 & E6 & _) & H & ->).
  apply Forall2_cons_inv_l in H as ([h3 f3 d3 o3] & l3 & (E7 & E8 & E9 & _) & H & ->).
  apply Forall2_nil_inv_l in H as ->. simpl in *. subst.
  by exists d1, d2, d3.
Qed.

Section Fresh.
Variable collect : list string -> list string * string * list string.
Hypothesis collect_le : forall p, length (collect p).2 <= length p.
Hypothesis collect_line : forall p sl l2 p2,
  collect p = (sl, l2, p2) -> (l2 = "" \/ l2 ∈ p) /\ p2 ⊆ p.
Variable I : list Entry.

(** From any state of the tables: how a parse ends. *)
Lemma parse_ends text acc fI fS fC T :
  tables_of I T ->
  exists fI' fS' fC' T' acc' e,
    parsePfctlOutput collect text acc (mkGlobals (stanzas fI fS fC) T)
    = Some (mkGlobals (stanzas fI' fS' fC') T', acc', e)
    /\ tables_of I T'
    /\ match e with
       | None =>
           fS' = true /\ fC' = true
           /\ exists fields N,
                acc' = acc ++ [AddFields measurement fields ∅]
                /\ dom fields = N
                /\ found_keys (stanzas fI' fS' fC')
                     [key_set I; key_set StateTable; key_set CounterTable]
                   = found_keys (stanzas fI fS fC)
                       [key_set I; key_set StateTable; key_set CounterTable] ∪ N
       | Some err =>
           acc' = acc /\ (err = errParseHeader \/ extractor_error (titles_of I) err)
       end.
Proof.
  intros HT.
  destruct (parse_outcome collect (tables_of I) (extractor_error (titles_of I))
              text acc (mkGlobals (stanzas fI fS fC) T)
              [key_set I; key_set StateTable; key_set CounterTable])
    as (G' & acc' & e & Hp & HT' & He); [apply stanzas_spec|done|done|].
  assert (exists fI' fS' fC', pfctlOutputStanzas G' = stanzas fI' fS' fC')
    as (fI' & fS' & fC' & Hss).
  { clear He HT'. revert Hp. unfold parsePfctlOutput, scan_all. cbn [pfctlOutputStanzas tables].
    destruct (scan_loop _ _ _ _ _ _) as [[[[ss fi] T1] e1]|] eqn:E; [|done].
    apply (scan_loop_found collect collect_line (ScanLines text)) in E; [|done].
    apply stanza_steps_stanzas in E as (a & b & c & ->).
    intros Hp. exists a, b, c.
    destruct e1; [|destruct (check_found _)]; by injection Hp as <- _ _. }
  destruct G' as [ss' T']. cbn [pfctlOutputStanzas tables] in *. subst ss'.
  exists fI', fS', fC', T', acc', e. split; [done|]. split; [done|].
  destruct e as [err|]; [done|]. destruct He as (Hc & fields & N & -> & HN1 & HN2).
  unfold stanzas in Hc. cbn [check_found Optional Found negb] in Hc.
  destruct fS'; [|done]. destruct fC'; [|done].
  split; [done|]. split; [done|]. by exists fields, N.
Qed.
End Fresh.

Lemma tables_of_init_Pf : tables_of Pf.InterfaceTable (tables Pf.init).
Proof. repeat split; apply same_entries_refl. Qed.

Lemma tables_of_init_Pf0 : tables_of Pf0.InterfaceTable (tables Pf0.init).
Proof. repeat split; apply same_entries_refl. Qed.

(** From the tables as declared, a parse without error hands to the sink
    the keys of the state table and of the counters, all of them, and the
    keys of the interface table, all of them or none: none when no
    interface stanza has been met.  This holds on every text, for both
    versions of the file. *)
Theorem X1_keys_all_or_none (text : string) (acc : list acc_call) :
  (exists G' acc' e,
     Pf.parsePfctlOutput text acc Pf.init = Some (G', acc', e)
     /\ (e = None ->
         exists fI fields,
           pfctlOutputStanzas G' = stanzas fI true true
           /\ acc' = acc ++ [AddFields measurement fields ∅]
           /\ dom fields
              = (if fI then key_set Pf.InterfaceTable else ∅)
                ∪ key_set StateTable ∪ key_set CounterTable))
  /\ (exists G' acc' e,
     Pf0.parsePfctlOutput text acc Pf0.init = Some (G', acc', e)
     /\ (e = None ->
         exists fI fields,
           pfctlOutputStanzas G' = stanzas fI true true
           /\ acc' = acc ++ [AddFields measurement fields ∅]
           /\ dom fields
              = (if fI then key_set Pf0.InterfaceTable else ∅)
                ∪ key_set StateTable ∪ key_set CounterTable)).
Proof.
  split.
  - destruct (parse_ends Pf.collect Pf_collect_le Pf_collect_line Pf.InterfaceTable
                text acc false false false (tables Pf.init) tables_of_init_Pf)
      as (fI & fS & fC & T' & acc' & e & Hp & _ & He).
    eexists _, acc', e. split; [exact Hp|]. intros ->.
    destruct He as (-> & -> & fields & N & -> & HN1 & HN2).
    exists fI, fields. split; [done|]. split; [done|].
    rewrite HN1. unfold stanzas in HN2. cbn [found_keys Found] in HN2.
    revert HN2. generalize (key_set CounterTable), (key_set StateTable).
    generalize (key_set Pf.InterfaceTable). clear. intros KI KS KC.
    destruct fI; set_solver.
  - destruct (parse_ends Pf0.collect Pf0_collect_le Pf0_collect_line Pf0.InterfaceTable
                text acc false false false (tables Pf0.init) tables_of_init_Pf0)
      as (fI & fS & fC & T' & acc' & e & Hp & _ & He).
    eexists _, acc', e. split; [exact Hp|]. intros ->.
    destruct He as (-> & -> & fields & N & -> & HN1 & HN2).
    exists fI, fields. split; [done|]. split; [done|].
    rewrite HN1. unfold stanzas in HN2. cbn [found_keys Found] in HN2.
    revert HN2. generalize (key_set CounterTable), (key_set StateTable).
    generalize (key_set Pf0.InterfaceTable). clear. intros KI KS KC.
    destruct fI; set_solver.
Qed.

(** The errors of a parse, on every text and from every state of the
    tables: [errParseHeader], [errMissingData] for a title of the tables,
    or the error of [ParseInt] for a run of digits that does not fit
    [int64].  No other error of [ParseInt] can occur: the table expression
    captures digits only.  The sink receives nothing, and the tables keep
    their keys and titles. *)
Theorem X2_errors (text : string) (acc : list acc_call) (fI fS fC : bool)
    (T : Tables) :
  tables_of Pf.InterfaceTable T ->
  exists G' acc' e,
    Pf.parsePfctlOutput text acc (mkGlobals (stanzas fI fS fC) T) = Some (G', acc', e)
    /\ tables_of Pf.InterfaceTable (tables G')
    /\ forall err, e = Some err ->
         acc' = acc
         /\ (err = errParseHeader
             \/ (exists L, err = errMissingData L /\ L ∈ titles_of Pf.InterfaceTable)
             \/ (exists d, err = NumError "ParseInt" d ErrRange
                   /\ d <> "" /\ all is_digit d = true /\ (2 ^ 63 <= decimal d)%N)).
Proof.
  intros HT.
  destruct (parse_ends Pf.collect Pf_collect_le Pf_collect_line Pf.InterfaceTable
              text acc fI fS fC T HT)
    as (fI' & fS' & fC' & T' & acc' & e & Hp & HT' & He).
  eexists _, acc', e. split; [exact Hp|]. split; [done|].
  intros err ->. destruct He as [-> [->|[H|H]]]; auto.
Qed.

Lemma X2_witness :
  tables_of Pf.InterfaceTable (tables Pf.init)
  /\ exists G' acc' e,
       Pf.parsePfctlOutput "" [] (mkGlobals (stanzas false false false) (tables Pf.init))
       = Some (G', acc', e)
       /\ forall err, e = Some err -> acc' = [].
Proof.
  split; [apply tables_of_init_Pf|].
  destruct (X2_errors "" [] false false false (tables Pf.init) tables_of_init_Pf)
    as (G' & acc' & e & Hp & _ & He).
  exists G', acc', e. split; [exact Hp|]. intros err Herr. by destruct (He err Herr).
Defined.

(** ** A second parse *)

Section Again.
Variable collect : list string -> list string * string * list string.
Hypothesis collect_le : forall p, length (collect p).2 <= length p.
Hypothesis collect_line : forall p sl l2 p2,
  collect p = (sl, l2, p2) -> (l2 = "" \/ l2 ∈ p) /\ p2 ⊆ p.

(** After a parse without error the stanzas that are not optional are
    marked as found. *)
Lemma parse_found_stanzas text acc fI fS fC T G' acc' :
  parsePfctlOutput collect text acc (mkGlobals (stanzas fI fS fC) T)
  = Some (G', acc', None) ->
  exists fI', pfctlOutputStanzas G' = stanzas fI' true true.
Proof.
  intros Hp. apply (parse_found collect collect_line) in Hp.
  cbn [pfctlOutputStanzas] in Hp.
  assert (Forall2 (stanza_step (ScanLines text)) (stanzas fI fS fC)
            (pfctlOutputStanzas G')) as Hs.
  { eapply Forall2_impl; [exact Hp|]. by intros ? ? [? _]. }
  apply stanza_steps_stanzas in Hs as (a & b & c & E). rewrite E in Hp.
  unfold stanzas in Hp.
  apply Forall2_cons in Hp as [_ Hp].
  apply Forall2_cons in Hp as [[_ Hb] Hp].
  apply Forall2_cons in Hp as [[_ Hc] _].
  cbn in Hb, Hc. rewrite Hb, Hc in E by done. by exists a.
Qed.

(** Lines without a stanza header leave the [Found] flags as they are:
    when the stanzas that are not optional are marked, the parse returns no
    error and the sink receives an empty map. *)
Lemma parse_no_header ls eol acc fI T :
  forallb (fun l => clean l && no_header l) ls = true -> is_eol eol = true ->
  parsePfctlOutput collect (unlines eol ls) acc (mkGlobals (stanzas fI true true) T)
  = Some (mkGlobals (stanzas fI true true) T, acc ++ [AddFields measurement ∅ ∅], None).
Proof.
  intros Hls Heol.
  assert (forallb clean ls = true /\ forallb no_header ls = true) as [Hc Hn].
  { clear -Hls. induction ls as [|l ls IH]; [done|]. simpl in *.
    rewrite !andb_true_iff in Hls. destruct Hls as [[H1 H2] H3].
    destruct (IH H3) as [-> ->]. by rewrite H1, H2. }
  unfold parsePfctlOutput. rewrite ScanLines_unlines by done.
  cbn [pfctlOutputStanzas tables].
  rewrite <- (app_nil_r ls), (scan_all_skip _ collect_le) by done.
  by rewrite scan_all_nil.
Qed.
End Again.

(** The [Found] flags are never reset.  After a parse without error,
    whatever its text, a text without any stanza header, the empty text for
    one, is parsed without error, and the sink receives an empty map.  This
    holds for both versions of the file. *)
Theorem X3_found_is_kept (text : string) (acc : list acc_call) (fI fS fC : bool)
    (T : Tables) (ls : list string) (eol : string) :
  forallb (fun l => clean l && no_header l) ls = true -> is_eol eol = true ->
  (forall G' acc',
     Pf.parsePfctlOutput text acc (mkGlobals (stanzas fI fS fC) T)
     = Some (G', acc', None) ->
     Pf.parsePfctlOutput (unlines eol ls) acc' G'
     = Some (G', acc' ++ [AddFields measurement ∅ ∅], None))
  /\ (forall G' acc',
     Pf0.parsePfctlOutput text acc (mkGlobals (stanzas fI fS fC) T)
     = Some (G', acc', None) ->
     Pf0.parsePfctlOutput (unlines eol ls) acc' G'
     = Some (G', acc' ++ [AddFields measurement ∅ ∅], None)).
Proof.
  intros Hls Heol. split; intros [ss' T'] acc' Hp.
  - destruct (parse_found_stanzas _ Pf_collect_line _ _ _ _ _ _ _ _ Hp) as [a E].
    cbn in E. subst ss'. by apply parse_no_header; [apply Pf_collect_le|..].
  - destruct (parse_found_stanzas _ Pf0_collect_line _ _ _ _ _ _ _ _ Hp) as [a E].
    cbn in E. subst ss'. by apply parse_no_header; [apply Pf0_collect_le|..].
Qed.

Lemma X3_witness :
  Pf.parsePfctlOutput "" [AddFields measurement (Pf_fields pfctl_sample) ∅]
    (Pf_after pfctl_sample Pf.init)
  = Some (Pf_after pfctl_sample Pf.init,
          [AddFields measurement (Pf_fields pfctl_sample) ∅; AddFields measurement ∅ ∅],
          None).
Proof.
  exact (proj1 (X3_found_is_kept (unlines newline (sample_lines pfctl_sample)) []
                  false false false (tables Pf.init) [] newline eq_refl eq_refl)
           (Pf_after pfctl_sample Pf.init)
           ([] ++ [AddFields measurement (Pf_fields pfctl_sample) ∅])
           (Pf_parse_sample pfctl_sample newline [] Pf.init eq_refl eq_refl
              Pf_init_reachable)).
Defined.

(** ** Stanzas with any rows, in any order *)

Lemma read_rows_nil (t : list Entry) : read_rows [] t = t.
Proof.
  unfold read_rows. induction t as [|[f ti v] t IH]; [done|].
  cbn [fmap list_fmap] in *. by rewrite IH.
Qed.

Lemma read_rows_cons (lr : lrow) (rows : list lrow) (t : list Entry) :
  read_rows (lr :: rows) t = read_rows rows (assign lr.1 (value (digits lr.2)) t).
Proof.
  unfold read_rows, assign. rewrite <- list_fmap_compose.
  apply list_fmap_ext. intros _ e _. unfold last_value. simpl.
  destruct (String.eqb (PfctlTitle e) lr.1); simpl;
    by destruct (last_row (PfctlTitle e) rows).
Qed.

(** The extractor on labelled rows: every entry takes the value of the
    last row with its title. *)
Lemma store_lines_lrows (rows : list lrow) (ls : list string) (t : list Entry) :
  forallb lrow_ok rows = true ->
  store_lines ((lrow_line <$> rows) ++ ls) RE.tableRE t
  = store_lines ls RE.tableRE (read_rows rows t).
Proof.
  revert t. induction rows as [|lr rows IH]; intros t Hr.
  - by rewrite read_rows_nil.
  - simpl in Hr.
    apply andb_prop in Hr as [[[[HL _]%andb_prop _]%andb_prop Hrow]%andb_prop Hr].
    cbn [fmap list_fmap app]. unfold lrow_line at 1.
    rewrite store_lines_row, IH, read_rows_cons by done. done.
Qed.

Lemma storeFieldValues_lrows (rows : list lrow) (n : nat) (fields : gmap string Z)
    (t : list Entry) :
  forallb lrow_ok rows = true ->
  storeFieldValues ((lrow_line <$> rows) ++ replicate n "") RE.tableRE fields t
  = (read_rows rows t, (store_fields (read_rows rows t) fields).1,
     (store_fields (read_rows rows t) fields).2).
Proof.
  intros Hr. unfold storeFieldValues.
  rewrite store_lines_lrows by done.
  rewrite <- (app_nil_r (replicate n "")), store_lines_blanks. simpl.
  by destruct (store_fields _ _).
Qed.

Lemma plain_lrows (rows : list lrow) (n : nat) :
  forallb lrow_ok rows = true ->
  Forall plain ((lrow_line <$> rows) ++ replicate n "").
Proof.
  intros Hr. apply Forall_app. split; [|apply plain_blanks].
  induction rows as [|lr rows IH]; [constructor|].
  simpl in Hr. apply andb_prop in Hr as [[[HL _]%andb_prop Hrow]%andb_prop Hr].
  constructor; [by apply plain_row|by apply IH].
Qed.

Lemma last_Forall {A} (P : A -> Prop) (a : A) (ls : list A) :
  P a -> Forall P ls -> P (List.last ls a).
Proof.
  revert a. induction ls as [|b ls IH]; intros a Ha Hls; [done|].
  apply Forall_cons in Hls as [Hb Hls].
  change (List.last (b :: ls) a) with (List.last (b :: ls) a).
  rewrite last_cons_default. by apply IH.
Qed.

(** The lines of a stanza, up to the line that ends it or to the end of
    the text. *)
Lemma collect_block (ls tl : list string) :
  Forall plain ls -> ends_stanza tl ->
  exists sl l2,
    Pf.collect (ls ++ tl) = (sl, l2, drop 1 tl)
    /\ (forall t, store_lines sl RE.tableRE t = store_lines ls RE.tableRE t)
    /\ match tl with
       | [] => starts is_upper l2 = false
       | l :: _ => l2 = l
       end.
Proof.
  intros Hls Htl. destruct tl as [|l p].
  - rewrite app_nil_r. destruct ls as [|l0 ls].
    + exists [""], "". by repeat split.
    + exists (l0 :: ls), (List.last ls l0).
      rewrite collect_plains_end by done. repeat split.
      apply Forall_cons in Hls as [H0 Hls].
      apply (last_Forall (fun l => starts is_upper l = false)); [apply H0|].
      eapply Forall_impl; [exact Hls|]. by intros l [? _].
  - exists ls, l. by rewrite collect_plains by done.
Qed.

Lemma prefix_not_upper (h l : string) :
  starts is_upper h = true -> starts is_upper l = false -> String.prefix h l = false.
Proof.
  destruct h as [|a h]; [done|]. destruct l as [|b l]; [done|]. simpl.
  intros Ha Hb. destruct (ascii_dec a b) as [->|]; [congruence|done].
Qed.

Section GBlocks.
Variables (fI fS fC : bool) (fields : gmap string Z) (tI tS tC : list Entry).

(** The counters stanza: the line that ends it is looked up in no
    stanza. *)
Lemma scan_counters_block (title : string) (rows : list lrow) (n : nat)
    (tl : list string) :
  forallb lrow_ok rows = true -> ends_stanza tl ->
  scan_all Pf.collect
    (("Counters" +:+ title) :: ((lrow_line <$> rows) ++ replicate n "") ++ tl)
    (stanzas fI fS fC) fields (mkTables tI tS tC)
  = match store_fields (read_rows rows tC) fields with
    | (f', Some e) =>
        Some (stanzas fI fS fC, f', mkTables tI tS (read_rows rows tC), Some e)
    | (f', None) =>
        scan_all Pf.collect (drop 1 tl) (stanzas fI fS true) f'
          (mkTables tI tS (read_rows rows tC))
    end.
Proof.
  intros Hr Htl.
  destruct (collect_block _ tl (plain_lrows rows n Hr) Htl) as (sl & l2 & Hc & Hsl & _).
  rewrite (scan_all_cons _ Pf_collect_le). unfold stanzas.
  rewrite !range_miss by (cbn [HeaderRE]; by rewrite header_prefix).
  erewrite range_hit;
    [|cbn [HeaderRE]; rewrite header_prefix; apply prefix_app|exact Hc].
  cbn [ParseFunc HeaderRE Optional].
  unfold parseCounterTable at 1, RE.counterTableRE. cbn [counterTable].
  assert (storeFieldValues sl RE.tableRE fields tC
          = storeFieldValues ((lrow_line <$> rows) ++ replicate n "") RE.tableRE fields tC)
    as -> by (unfold storeFieldValues; by rewrite Hsl).
  rewrite storeFieldValues_lrows by done.
  destruct (store_fields (read_rows rows tC) fields) as [f' [e|]]; by cbn.
Qed.

(** The state stanza: the line that ends it is looked up among the
    stanzas after it in the table, the counters stanza. *)
Lemma scan_state_block (title : string) (rows : list lrow) (n : nat)
    (tl : list string) :
  forallb lrow_ok rows = true -> ends_stanza tl ->
  match tl with
  | [] => True
  | l :: _ => String.prefix "Interface Stats" l = false
              /\ String.prefix "State Table" l = false
  end ->
  scan_all Pf.collect
    (("State Table" +:+ title) :: ((lrow_line <$> rows) ++ replicate n "") ++ tl)
    (stanzas fI fS fC) fields (mkTables tI tS tC)
  = match store_fields (read_rows rows tS) fields with
    | (f', Some e) =>
        Some (stanzas fI fS fC, f', mkTables tI (read_rows rows tS) tC, Some e)
    | (f', None) =>
        scan_all Pf.collect tl (stanzas fI true fC) f'
          (mkTables tI (read_rows rows tS) tC)
    end.
Proof.
  intros Hr Htl Hnot.
  destruct (collect_block _ tl (plain_lrows rows n Hr) Htl) as (sl & l2 & Hc & Hsl & Hl2).
  rewrite (scan_all_cons _ Pf_collect_le). unfold stanzas.
  rewrite range_miss by (cbn [HeaderRE]; by rewrite header_prefix).
  erewrite range_hit;
    [|cbn [HeaderRE]; rewrite header_prefix; apply prefix_app|exact Hc].
  cbn [ParseFunc HeaderRE Optional].
  unfold parseStateTable at 1, RE.stateTableRE. cbn [stateTable].
  assert (storeFieldValues sl RE.tableRE fields tS
          = storeFieldValues ((lrow_line <$> rows) ++ replicate n "") RE.tableRE fields tS)
    as -> by (unfold storeFieldValues; by rewrite Hsl).
  rewrite storeFieldValues_lrows by done.
  destruct (store_fields (read_rows rows tS) fields) as [f' [e|]]; [by cbn|].
  cbn [fst snd interfaceTable counterTable].
  destruct tl as [|l p].
  - rewrite range_miss
      by (cbn [HeaderRE]; rewrite header_prefix; by apply prefix_not_upper).
    reflexivity.
  - subst l2. destruct Hnot as [Hn1 Hn2]. change (drop 1 (l :: p)) with p.
    rewrite (scan_all_cons _ Pf_collect_le).
    rewrite (range_miss _ (mkStanza (Bol +> Lit "Interface Stats") _ _ _))
      by (cbn [HeaderRE]; by rewrite header_prefix).
    rewrite (range_miss _ (mkStanza (Bol +> Lit "State Table") _ _ _))
      by (cbn [HeaderRE]; by rewrite header_prefix).
    by destruct (range_stanzas Pf.collect _ l p f' _) as [[[[ss' p'] f''] T''] [e|]].
Qed.

(** The interface stanza. *)
Lemma scan_interface_block (i : interface_stanza) (vI : list Z) (l : string)
    (p : list string) :
  interface_ok i = true -> length vI = 12 ->
  starts is_upper l = true -> String.prefix "Interface Stats" l = false ->
  scan_all Pf.collect (interface_header i :: interface_rows i ++ l :: p)
    (stanzas fI fS fC) fields (mkTables (with_values Pf.InterfaceTable vI) tS tC)
  = scan_all Pf.collect (l :: p) (stanzas true fS fC)
      (put_all (with_values Pf.InterfaceTable (interface_values i)) fields)
      (mkTables (with_values Pf.InterfaceTable (interface_values i)) tS tC).
Proof.
  intros Hi HvI Hl Hn.
  rewrite !(scan_all_cons _ Pf_collect_le). unfold stanzas.
  erewrite range_hit;
    [|cbn [HeaderRE]; rewrite header_prefix; apply prefix_app
     |apply (collect_interface i []); [done|constructor|done]].
  cbn [ParseFunc HeaderRE Optional].
  unfold parseInterfaceTable at 1, RE.interfaceTableRE.
  cbn [interfaceTable]. rewrite app_nil_r, <- (app_nil_r (replicate _ _)).
  rewrite extract_interface by done. cbn [stateTable counterTable].
  rewrite (range_miss _ (mkStanza (Bol +> Lit "Interface Stats") _ _ _))
    by (cbn [HeaderRE]; by rewrite header_prefix).
  by destruct (range_stanzas Pf.collect _ l p _ _) as [[[[ss' p'] f''] T''] [e|]].
Qed.
End GBlocks.

Lemma store_fields_complete (t : list Entry) (fields : gmap string Z) :
  complete t -> store_fields t fields = (put_all t fields, None).
Proof.
  revert fields. induction t as [|e t IH]; intros fields Ht; [done|].
  apply Forall_cons in Ht as [He Ht]. simpl.
  destruct (Z.eqb_spec (Value e) (-1)); [done|]. by apply IH.
Qed.

(** The completeness check stops at the first entry without a value. *)
Lemma store_fields_missing (t1 : list Entry) (e : Entry) (t2 : list Entry)
    (fields : gmap string Z) :
  complete t1 -> Value e = (-1)%Z ->
  store_fields (t1 ++ e :: t2) fields
  = (put_all t1 fields, Some (errMissingData (PfctlTitle e))).
Proof.
  revert fields. induction t1 as [|e1 t1 IH]; intros fields Ht He; simpl.
  - by rewrite He.
  - apply Forall_cons in Ht as [He1 Ht].
    destruct (Z.eqb_spec (Value e1) (-1)); [done|]. by apply IH.
Qed.

Lemma forallb_clean_no_header (ls : list string) :
  forallb (fun l => clean l && no_header l) ls = true ->
  forallb clean ls = true /\ forallb no_header ls = true.
Proof.
  induction ls as [|l ls IH]; [done|]. simpl.
  rewrite !andb_true_iff. intros [[H1 H2] H3].
  destruct (IH H3) as [-> ->]. by rewrite H1, H2.
Qed.

Lemma section_ok_parts (g : list string) :
  section_ok g = true ->
  ends_stanza g /\ forallb clean g = true /\ forallb no_header g = true.
Proof.
  unfold section_ok. intros [Hh Hg]%andb_prop.
  apply forallb_clean_no_header in Hg as [? ?]. split; [|done].
  by destruct g.
Qed.

Lemma lrows_clean (rows : list lrow) :
  forallb lrow_ok rows = true -> forallb clean (lrow_line <$> rows) = true.
Proof.
  induction rows as [|lr rows IH]; [done|]. cbn [fmap list_fmap forallb].
  intros [[[_ HL]%andb_prop Hr]%andb_prop Hrs]%andb_prop.
  unfold lrow_line at 1. by rewrite row_clean, IH.
Qed.

Lemma gsample_ok_parts (gs : gsample) :
  gsample_ok gs = true ->
  (forallb clean (g_preamble gs) = true /\ forallb no_header (g_preamble gs) = true)
  /\ from_option interface_ok true (g_interface gs) = true
  /\ section_ok (g_section1 gs) = true
  /\ clean (g_st_title gs) = true /\ forallb lrow_ok (g_state gs) = true
  /\ section_ok (g_section2 gs) = true
  /\ clean (g_ct_title gs) = true /\ forallb lrow_ok (g_counters gs) = true
  /\ section_ok (g_section3 gs) = true.
Proof.
  unfold gsample_ok. rewrite !andb_true_iff. intros H. destruct_and!.
  split_and!; try done; by apply forallb_clean_no_header.
Qed.

Lemma g_interface_lines_clean (gs : gsample) :
  from_option interface_ok true (g_interface gs) = true ->
  forallb clean (g_interface_lines gs) = true.
Proof.
  unfold g_interface_lines. destruct (g_interface gs) as [i|]; [|done].
  cbn [from_option]. intros Hi.
  rewrite forallb_cons, interface_rows_clean by done.
  unfold interface_header. rewrite header_clean; [done|done|].
  unfold interface_ok in Hi. rewrite !andb_true_iff in Hi. by destruct_and!.
Qed.

Lemma g_blocks_clean (gs : gsample) :
  gsample_ok gs = true ->
  forallb clean (g_state_lines gs) = true /\ forallb clean (g_counter_lines gs) = true.
Proof.
  intros (_ & _ & _ & Hst & Hs & _ & Hct & Hc & _)%gsample_ok_parts.
  unfold g_state_lines, g_counter_lines.
  rewrite !forallb_cons, !forallb_app, !blanks_clean, !lrows_clean by done.
  by rewrite !header_clean.
Qed.

Lemma gsample_clean (gs : gsample) :
  gsample_ok gs = true ->
  forallb clean (gsample_lines gs) = true /\ forallb clean (counters_first gs) = true.
Proof.
  intros Hgs. destruct (g_blocks_clean gs Hgs) as [HS HC].
  pose proof Hgs as ([Hp _] & Hi & H1 & _ & _ & H2 & _ & _ & H3)%gsample_ok_parts.
  apply section_ok_parts in H1 as (_ & H1 & _).
  apply section_ok_parts in H2 as (_ & H2 & _).
  apply section_ok_parts in H3 as (_ & H3 & _).
  unfold gsample_lines, counters_first. rewrite !forallb_app.
  by rewrite Hp, g_interface_lines_clean, H1, H2, H3, HS, HC.
Qed.

Lemma ends_stanza_app (g rest : list string) :
  section_ok g = true -> ends_stanza rest -> ends_stanza (g ++ rest).
Proof. intros (Hg & _)%section_ok_parts Hr. by destruct g. Qed.

Lemma no_header_parts (l : string) :
  no_header l = true ->
  String.prefix "Interface Stats" l = false
  /\ String.prefix "State Table" l = false
  /\ String.prefix "Counters" l = false.
Proof.
  unfold no_header. rewrite !andb_true_iff, !negb_true_iff. by intros [[? ?] ?].
Qed.

(** The interface stanza, when there is one, and the section after it. *)
Lemma scan_g_prefix (gs : gsample) (fI fS fC : bool) (vI : list Z)
    (tS tC : list Entry) (l : string) (p : list string) :
  gsample_ok gs = true -> length vI = 12 ->
  starts is_upper l = true -> String.prefix "Interface Stats" l = false ->
  let T := mkTables (with_values Pf.InterfaceTable vI) tS tC in
  scan_all Pf.collect (g_interface_lines gs ++ g_section1 gs ++ l :: p)
    (stanzas fI fS fC) ∅ T
  = scan_all Pf.collect (l :: p)
      (stanzas (match g_interface gs with Some _ => true | None => fI end) fS fC)
      (match g_interface gs with
       | Some i => put_all (interfaceTable (g_tables gs T)) ∅
       | None => ∅
       end)
      (mkTables (interfaceTable (g_tables gs T)) tS tC).
Proof.
  intros Hgs HvI Hl Hn. cbv zeta. unfold g_tables. cbn [interfaceTable].
  pose proof Hgs as (_ & Hi & H1 & _)%gsample_ok_parts.
  pose proof H1 as (E1 & _ & N1)%section_ok_parts.
  unfold g_interface_lines.
  destruct (g_interface gs) as [i|]; cbn [from_option] in Hi.
  - rewrite <- app_comm_cons.
    destruct (g_section1 gs) as [|l1 g1] eqn:Eg.
    + rewrite app_nil_l. by rewrite scan_interface_block by done.
    + rewrite <- app_comm_cons. cbn in E1. cbn [forallb] in N1.
      pose proof N1 as [(? & _)%no_header_parts _]%andb_prop.
      rewrite scan_interface_block by done.
      by rewrite app_comm_cons, (scan_all_skip _ Pf_collect_le) by done.
  - by rewrite app_nil_l, (scan_all_skip _ Pf_collect_le) by done.
Qed.

(** The lines of the text, in [pf.go], from any state of the tables. *)
Lemma Pf_scan_gsample (gs : gsample) (fI fS fC : bool) (vI : list Z)
    (tS tC : list Entry) :
  gsample_ok gs = true -> length vI = 12 ->
  let T := mkTables (with_values Pf.InterfaceTable vI) tS tC in
  let fI' := match g_interface gs with Some _ => true | None => fI end in
  let f1 := match g_interface gs with
            | Some i => put_all (interfaceTable (g_tables gs T)) ∅
            | None => ∅
            end in
  scan_all Pf.collect (gsample_lines gs) (stanzas fI fS fC) ∅ T
  = match store_fields (stateTable (g_tables gs T)) f1 with
    | (f2, Some e) =>
        Some (stanzas fI' fS fC, f2,
              mkTables (interfaceTable (g_tables gs T)) (stateTable (g_tables gs T)) tC,
              Some e)
    | (f2, None) =>
        match store_fields (counterTable (g_tables gs T)) f2 with
        | (f3, Some e) => Some (stanzas fI' true fC, f3, g_tables gs T, Some e)
        | (f3, None) => Some (stanzas fI' true true, f3, g_tables gs T, None)
        end
    end.
Proof.
  intros Hgs HvI. cbv zeta.
  pose proof Hgs as ([_ Hp] & Hi & H1 & _ & HS & H2 & _ & HC & H3)%gsample_ok_parts.
  pose proof H2 as (E2 & _ & N2)%section_ok_parts.
  pose proof H3 as (E3 & _ & N3)%section_ok_parts.
  unfold gsample_lines. rewrite (scan_all_skip _ Pf_collect_le) by done.
  unfold g_state_lines at 1. rewrite <- app_comm_cons.
  rewrite scan_g_prefix by done.
  unfold g_tables. cbn [interfaceTable stateTable counterTable].
  rewrite scan_state_block; [|done| |].
  2:{ apply ends_stanza_app; [done|]. by unfold g_counter_lines. }
  2:{ destruct (g_section2 gs) as [|l g2]; [by unfold g_counter_lines|].
      cbn [forallb] in N2. apply andb_prop in N2 as [(? & ? & _)%no_header_parts _].
      done. }
  destruct (store_fields (read_rows (g_state gs) tS) _) as [f2 [e|]]; [done|].
  rewrite (scan_all_skip _ Pf_collect_le) by done.
  unfold g_counter_lines at 1. rewrite <- app_comm_cons.
  rewrite scan_counters_block by done.
  destruct (store_fields (read_rows (g_counters gs) tC) f2) as [f3 [e|]]; [done|].
  rewrite <- (app_nil_r (drop 1 _)), (scan_all_skip _ Pf_collect_le).
  - done.
  - clear -N3. destruct (g_section3 gs) as [|l g]; [done|].
    cbn [forallb] in N3. by apply andb_prop in N3 as [_ ?].
Qed.

Lemma lrows_no_header (rows : list lrow) :
  forallb lrow_ok rows = true -> forallb no_header (lrow_line <$> rows) = true.
Proof.
  induction rows as [|lr rows IH]; [done|]. cbn [fmap list_fmap forallb].
  intros [[_ Hr]%andb_prop Hrs]%andb_prop. rewrite IH by done.
  unfold lrow_line, row_line. rewrite no_header_indented; [done|].
  unfold row_ok in Hr. rewrite !andb_true_iff in Hr. by destruct_and!.
Qed.

(** The counters stanza right before the state table: the header of the
    state table ends the counters stanza and is looked up in no stanza. *)
Lemma Pf_scan_counters_first (gs : gsample) (fI fS fC : bool) (vI : list Z)
    (tS tC : list Entry) :
  gsample_ok gs = true -> length vI = 12 -> g_section2 gs = [] ->
  complete (read_rows (g_counters gs) tC) ->
  let T := mkTables (with_values Pf.InterfaceTable vI) tS tC in
  exists fields,
    scan_all Pf.collect (counters_first gs) (stanzas fI fS fC) ∅ T
    = Some (stanzas (match g_interface gs with Some _ => true | None => fI end) fS true,
            fields,
            mkTables (interfaceTable (g_tables gs T)) tS (read_rows (g_counters gs) tC),
            None).
Proof.
  intros Hgs HvI E2 Hc. cbv zeta.
  pose proof Hgs as ([_ Hp] & Hi & H1 & _ & HS & H2 & _ & HC & H3)%gsample_ok_parts.
  pose proof H3 as (E3 & _ & N3)%section_ok_parts.
  unfold counters_first. rewrite (scan_all_skip _ Pf_collect_le) by done.
  unfold g_counter_lines at 1. rewrite <- app_comm_cons.
  rewrite scan_g_prefix by done.
  unfold g_tables. cbn [interfaceTable stateTable counterTable].
  rewrite E2, app_nil_l.
  rewrite scan_counters_block by (done || by unfold g_state_lines).
  rewrite store_fields_complete by done.
  unfold g_state_lines. rewrite <- app_comm_cons. cbn [drop].
  rewrite drop_0, <- app_assoc. 
  rewrite (scan_all_skip _ Pf_collect_le) by by apply lrows_no_header.
  rewrite (scan_all_skip _ Pf_collect_le) by apply blanks_no_header.
  rewrite <- (app_nil_r (g_section3 gs)), (scan_all_skip _ Pf_collect_le) by done.
  rewrite scan_all_nil. by eexists.
Qed.

Lemma last_row_None (title : string) (rows : list lrow) :
  title ∉ rows.*1 -> last_row title rows = None.
Proof.
  induction rows as [|lr rows IH]; [done|]. cbn [fmap list_fmap last_row].
  intros [Hne Hr]%not_elem_of_cons. rewrite (IH Hr).
  destruct (String.eqb_spec title lr.1); [done|done].
Qed.

Lemma last_row_Some (title : string) (rows : list lrow) :
  title ∈ rows.*1 -> exists r, last_row title rows = Some r /\ (title, r) ∈ rows.
Proof.
  induction rows as [|[L r0] rows IH]; cbn [fmap list_fmap last_row fst snd].
  - by intros ?%elem_of_nil.
  - destruct (last_row title rows) as [r|] eqn:E.
    + intros _. exists r. split; [done|]. right.
      destruct (decide (title ∈ rows.*1)) as [Hin|Hn].
      * destruct (IH Hin) as (r' & [= <-] & ?). done.
      * by rewrite last_row_None in E.
    + intros [->|Hin]%elem_of_cons.
      * rewrite String.eqb_refl. exists r0. split; [done|]. by left.
      * by destruct (IH Hin) as (r' & ? & _).
Qed.

Lemma last_value_Some (title : string) (rows : list lrow) (v : Z) (r : row) :
  last_row title rows = Some r -> last_value title rows v = value (digits r).
Proof. unfold last_value. by intros ->. Qed.

Lemma last_value_None (title : string) (rows : list lrow) (v : Z) :
  title ∉ rows.*1 -> last_value title rows v = v.
Proof. unfold last_value. by intros ->%last_row_None. Qed.

(** Rows for every title complete a table, whatever it held. *)
Lemma read_rows_complete (rows : list lrow) (t : list Entry) :
  (forall e, e ∈ t -> Value e <> (-1)%Z \/ PfctlTitle e ∈ rows.*1) ->
  complete (read_rows rows t).
Proof.
  intros Ht. unfold complete, read_rows. apply Forall_fmap, Forall_forall.
  intros e He. simpl. destruct (decide (PfctlTitle e ∈ rows.*1)) as [Hin|Hn].
  - destruct (last_row_Some _ _ Hin) as (r & Hr & _).
    rewrite (last_value_Some _ _ _ r Hr). pose proof (value_nonneg (digits r)). lia.
  - rewrite last_value_None by done. by destruct (Ht e He).
Qed.

(** [pf.go] on a text with any rows, from any state of the tables: when
    the rows and the values of the tables leave no entry without a value,
    the parse returns no error. *)
Lemma Pf_parse_gsample (gs : gsample) (eol : string) (acc : list acc_call)
    (fI fS fC : bool) (vI vS vC : list Z) :
  gsample_ok gs = true -> is_eol eol = true -> length vI = 12 ->
  let G := globals_of Pf.InterfaceTable fI fS fC vI vS vC in
  complete (stateTable (g_tables gs (tables G))) ->
  complete (counterTable (g_tables gs (tables G))) ->
  Pf.parsePfctlOutput (unlines eol (gsample_lines gs)) acc G
  = Some (mkGlobals
            (stanzas (match g_interface gs with Some _ => true | None => fI end)
               true true)
            (g_tables gs (tables G)),
          acc ++ [AddFields measurement (g_fields gs (tables G)) ∅], None).
Proof.
  intros Hgs Heol HvI G HS HC.
  unfold Pf.parsePfctlOutput, parsePfctlOutput.
  rewrite ScanLines_unlines by (done || by apply gsample_clean).
  subst G. unfold globals_of in *. cbn [pfctlOutputStanzas tables] in *.
  rewrite Pf_scan_gsample by done.
  rewrite (store_fields_complete _ _ HS), (store_fields_complete _ _ HC).
  cbn [check_found stanzas Optional Found negb]. unfold g_fields.
  by destruct (g_interface gs).
Qed.

(** The values of the map, key by key. *)
Lemma g_fields_state (gs : gsample) (fI fS fC : bool) (vI vS vC : list Z) :
  length vS = 4 -> length vC = 15 ->
  Forall2 (fun e v =>
    g_fields gs (tables (globals_of Pf.InterfaceTable fI fS fC vI vS vC)) !! Field e
    = Some (last_value (PfctlTitle e) (g_state gs) v)) StateTable vS.
Proof.
  intros HS HC. explode vS HS. explode vC HC.
  unfold g_fields, g_tables, globals_of, read_rows.
  cbn [tables interfaceTable stateTable counterTable with_values zip_with
       StateTable CounterTable fmap list_fmap Field PfctlTitle Value].
  destruct (g_interface gs) as [i|]; [unfold interface_values|];
    repeat (constructor; [reflexivity|]); constructor.
Qed.

Lemma g_fields_counters (gs : gsample) (fI fS fC : bool) (vI vS vC : list Z) :
  length vS = 4 -> length vC = 15 ->
  Forall2 (fun e v =>
    g_fields gs (tables (globals_of Pf.InterfaceTable fI fS fC vI vS vC)) !! Field e
    = Some (last_value (PfctlTitle e) (g_counters gs) v)) CounterTable vC.
Proof.
  intros HS HC. explode vS HS. explode vC HC.
  unfold g_fields, g_tables, globals_of, read_rows.
  cbn [tables interfaceTable stateTable counterTable with_values zip_with
       StateTable CounterTable fmap list_fmap Field PfctlTitle Value].
  destruct (g_interface gs) as [i|]; [unfold interface_values|];
    repeat (constructor; [reflexivity|]); constructor.
Qed.

Lemma g_fields_interface (gs : gsample) (i : interface_stanza) (fI fS fC : bool)
    (vI vS vC : list Z) :
  g_interface gs = Some i -> length vS = 4 -> length vC = 15 ->
  Forall2 (fun k v =>
    g_fields gs (tables (globals_of Pf.InterfaceTable fI fS fC vI vS vC)) !! k = Some v)
    (keys_of Pf.InterfaceTable) (interface_values i).
Proof.
  intros Ei HS HC. explode vS HS. explode vC HC.
  unfold g_fields, g_tables, globals_of, read_rows. rewrite Ei.
  cbn [tables interfaceTable stateTable counterTable with_values zip_with
       StateTable CounterTable fmap list_fmap Field PfctlTitle Value].
  unfold interface_values.
  cbn [keys_of Pf.InterfaceTable fmap list_fmap Field].
  repeat (constructor; [reflexivity|]); constructor.
Qed.

Lemma Forall2_replicate_r {A B} (P : A -> B -> Prop) (l : list A) (n : nat) (v : B) :
  Forall2 P l (replicate n v) -> forall a, a ∈ l -> P a v.
Proof.
  intros H a [k Hk]%list_elem_of_lookup.
  destruct (Forall2_lookup_l _ _ _ _ _ H Hk) as (b & Hb & HP).
  by apply lookup_replicate in Hb as [-> _].
Qed.

Lemma has_rows_spec (t : list Entry) (rows : list lrow) :
  has_rows t rows = true -> forall e, e ∈ t -> PfctlTitle e ∈ rows.*1.
Proof.
  unfold has_rows. rewrite forallb_forall. intros H e He.
  specialize (H e). rewrite bool_decide_eq_true in H. apply H. by apply list_elem_of_In.
Qed.

Lemma complete_init_rows (rows : list lrow) (t : list Entry) :
  has_rows t rows = true -> complete (read_rows rows t).
Proof.
  intros H. apply read_rows_complete. intros e He. right. by apply (has_rows_spec t).
Qed.





Lemma Pf_after_globals (s : sample) (G : Globals) :
  sample_ok s = true -> reachable Pf.InterfaceTable G ->
  exists fI vI,
    length vI = 12
    /\ Pf_after s G
       = globals_of Pf.InterfaceTable fI true true vI
           (values_of (state s)) (values_of (counters s)).
Proof.
  intros Hs (fI & fS & fC & vI & vS & vC & HvI & HvS & HvC & ->).
  unfold Pf_after, globals_of. cbn [pfctlOutputStanzas tables interfaceTable].
  destruct (interface s) as [i|].
  - by exists true, (interface_values i).
  - by exists fI, vI.
Qed.





(** ** A number that does not fit [int64] *)

Section DigitsRow.
Variables (L : string) (r : row).
Hypothesis HL : label_ok L = true.
Hypothesis Hi : blank (ind r) = true.
Hypothesis Hg : blank (gap r) = true.
Hypothesis Hne : digits r <> "".
Hypothesis Hd : all is_digit (digits r) = true.
Hypothesis Hrest : starts is_digit (rest r) = false.

(** The table expression reads the label and the digits of a row,
    however many digits there are. *)
Lemma tableRE_digits :
  FindStringSubmatch RE.tableRE (row_line L r)
  = Some ["" +:+ ind r +:+ L +:+ gap r +:+ digits r; L; digits r].
Proof.
  destruct (label_parts L HL) as (HLne & HLs & HLd & HLn & HLe).
  assert (all is_space (ind r) = true /\ ind r <> "") as [His Hine].
  { unfold blank in Hi. apply andb_prop in Hi as [? ?].
    split; [by apply (all_impl is_blank); [apply is_blank_space|]|by apply eqb_empty]. }
  assert (all is_space (gap r) = true /\ gap r <> "") as [Hgs Hgne].
  { unfold blank in Hg. apply andb_prop in Hg as [? ?].
    split; [by apply (all_impl is_blank); [apply is_blank_space|]|by apply eqb_empty]. }
  unfold RE.tableRE, sp, num, any_lazy, row_line.
  rewrite find_anchored. cbn [exec ngroups replicate Nat.max].
  apply rep_greedy_run; [done| |by apply length_pos|].
  { by rewrite starts_app. }
  apply rep_lazy_first; [done| |].
  { intros m0 x -> Hx.
    apply (sp_digits_none x _ (fun m1 m2 s2 => _)); [done| |].
    - by apply no_sp_digit_app_r in HLn.
    - by rewrite ends_app_r in HLe. }
  apply rep_greedy_run; [done| |by apply length_pos|].
  { rewrite starts_app by done. destruct (digits r) as [|d ?]; [done|].
    simpl in *. apply is_digit_not_space. by destruct (is_digit d). }
  apply rep_greedy_run; [done|done|by apply length_pos|].
  by rewrite !app_nil_l_s.
Qed.
End DigitsRow.

Lemma plain_indented (L i x : string) :
  plain_label L = true -> blank i = true -> plain (i +:+ L +:+ x).
Proof.
  unfold plain_label. intros [HL HP]%andb_prop Hi.
  destruct (label_parts L HL) as (HLne & HLs & _).
  assert (starts is_space (L +:+ x) = false) as Hbody by by rewrite starts_app.
  assert (starts (Ascii.eqb "P") (L +:+ x) = false
          /\ starts (Ascii.eqb "B") (L +:+ x) = false) as HPB.
  { rewrite !starts_app by done. destruct L as [|c L0]; [done|].
    simpl in *. apply negb_true_iff, orb_false_elim in HP. done. }
  repeat split.
  - apply blank_starts; [done|apply is_blank_not_upper].
  - apply packetsRE_none; [done|done| |].
    + apply (strip_prefix_first _ _ "P" "ackets In" eq_refl), HPB.
    + apply (strip_prefix_first _ _ "P" "ackets Out" eq_refl), HPB.
  - apply bytesRE_none; [done|done| |].
    + apply (strip_prefix_first _ _ "B" "ytes In" eq_refl), HPB.
    + apply (strip_prefix_first _ _ "B" "ytes Out" eq_refl), HPB.
Qed.

(** The value [ParseUint] returns is the number the digits stand for. *)
Lemma parse_uint_decimal (s : string) (n m : N) :
  parse_uint s n = inl m -> m = decimal_from n s.
Proof.
  revert n. induction s as [|c s IH]; intros n; simpl; [congruence|].
  destruct (is_digit c); [|done]. destruct (_ <=? n)%N; [done|].
  destruct (_ <? _)%N; [done|]. apply IH.
Qed.

(** Digits for 2^63 or more: [ParseInt] returns the largest [int64] and
    the error [ErrRange]. *)
Lemma ParseInt_big (d : string) :
  d <> "" -> all is_digit d = true -> (2 ^ 63 <= decimal d)%N ->
  ParseInt d = ((2 ^ 63 - 1)%Z, Some (NumError "ParseInt" d ErrRange)).
Proof.
  intros Hne Hd Hbig. destruct (ParseInt d) as [v [e|]] eqn:E.
  - by apply ParseInt_range in E as (-> & -> & _).
  - exfalso. revert E. unfold ParseInt. destruct d as [|c d]; [done|].
    assert (Ascii.eqb c "+" = false /\ Ascii.eqb c "-" = false) as [-> ->].
    { simpl in Hd. apply andb_prop in Hd as [Hc _]. clear -Hc.
      by destruct c as [[] [] [] [] [] [] [] []]. }
    cbn [orb negb andb]. unfold ParseUint.
    destruct (parse_uint (String c d) 0) as [n|[|]] eqn:Ep; [|done|done].
    apply parse_uint_decimal in Ep. fold (decimal (String c d)) in Ep. subst n.
    destruct (N.leb_spec (2 ^ 63) (decimal (String c d))); [done|lia].
Qed.

(** The first entry with the title takes the value, and the loop over
    the table stops there. *)
Lemma store_value_error (title d : string) (v : Z) (e : error) (t : list Entry) :
  ParseInt d = (v, Some e) -> title ∈ PfctlTitle <$> t ->
  exists t1 e0 t2,
    t = t1 ++ e0 :: t2 /\ PfctlTitle e0 = title /\ title ∉ PfctlTitle <$> t1
    /\ store_value title d t = (t1 ++ mkEntry (Field e0) title v :: t2, Some e).
Proof.
  intros Hp. induction t as [|f t IH]; [by intros ?%elem_of_nil|].
  cbn [fmap list_fmap store_value]. rewrite Hp.
  destruct (String.eqb_spec (PfctlTitle f) title) as [Ht|Ht].
  - intros _. exists [], f, t. rewrite Ht. repeat split. apply not_elem_of_nil.
  - intros [?|Hin]%elem_of_cons; [congruence|].
    destruct (IH Hin) as (t1 & e0 & t2 & -> & H1 & H2 & ->).
    exists (f :: t1), e0, t2. repeat split; [done|].
    cbn [fmap list_fmap]. apply not_elem_of_cons. split; [congruence|done].
Qed.

(** The lines collected so far stay where they are. *)
Lemma Pf_stanza_lines_acc l p acc :
  exists extra, (Pf.stanza_lines l p acc).1.1 = acc ++ extra.
Proof.
  remember (length p) as n eqn:Hn. revert l p acc Hn.
  induction (lt_wf n) as [n _ IH]. intros l p acc ->.
  assert (forall entries x a, exists extra,
            Pf.expand_packets entries x a = a ++ extra) as Hexp.
  { intros entries x a. unfold Pf.expand_packets.
    destruct (FindStringSubmatch RE.IPvRE x); [by eexists|].
    exists []. by rewrite app_nil_r. }
  destruct p as [|l1 p]; simpl.
  - destruct (MatchString _ l); [exists []; by rewrite app_nil_r|].
    destruct (FindStringSubmatch RE.packetsRE l); [exists []; by rewrite app_nil_r|].
    destruct (FindStringSubmatch RE.bytesRE l); by eexists.
  - destruct (MatchString _ l); [exists []; by rewrite app_nil_r|].
    destruct (FindStringSubmatch RE.packetsRE l) as [entries|].
    + destruct (Hexp entries l1 acc) as [x1 E1].
      destruct p as [|l2 [|l3 p]]; simpl.
      * by exists x1.
      * destruct (Hexp entries l2 (acc ++ x1)) as [x2 E2].
        rewrite E1, E2. exists (x1 ++ x2). by rewrite app_assoc.
      * destruct (Hexp entries l2 (acc ++ x1)) as [x2 E2]. rewrite E1, E2.
        destruct (IH (length p)) with (l := l3) (p := p) (acc := (acc ++ x1) ++ x2)
          as [x3 E3]; [simpl; lia|done|].
        rewrite E3. exists (x1 ++ x2 ++ x3). by rewrite <- !app_assoc.
    + destruct (FindStringSubmatch RE.bytesRE l);
        match goal with
        | |- context [Pf.stanza_lines l1 p (acc ++ ?x)] =>
            destruct (IH (length p)) with (l := l1) (p := p) (acc := acc ++ x)
              as [x3 E3]; [simpl; lia|done|];
            rewrite E3; exists (x ++ x3); by rewrite <- !app_assoc
        end.
Qed.

Lemma Pf_next_turn_prefix (q r : list string) :
  Forall plain q -> forall x acc,
  exists extra, (Pf.next_turn x (q ++ r) acc).1.1 = acc ++ q ++ extra.
Proof.
  induction q as [|l1 q IH]; intros Hq x acc.
  - rewrite app_nil_l. destruct r as [|l p]; simpl.
    + exists []. by rewrite app_nil_r.
    + apply Pf_stanza_lines_acc.
  - apply Forall_cons in Hq as [H1 Hq].
    change ((l1 :: q) ++ r) with (l1 :: (q ++ r)). cbn [Pf.next_turn].
    rewrite stanza_lines_plain by done.
    destruct (IH Hq l1 (acc ++ [l1])) as [extra E]. exists extra.
    rewrite E. by rewrite <- app_assoc.
Qed.

Lemma Pf_collect_prefix (l : string) (q r : list string) :
  Forall plain (l :: q) ->
  exists extra l2 p2, Pf.collect ((l :: q) ++ r) = (l :: q ++ extra, l2, p2).
Proof.
  intros Hq.
  change (Pf.collect ((l :: q) ++ r)) with (Pf.next_turn "" ((l :: q) ++ r) []).
  destruct (Pf_next_turn_prefix (l :: q) r Hq "" []) as [extra E].
  destruct (Pf.next_turn "" ((l :: q) ++ r) []) as [[sl l2] p2]. simpl in E.
  exists extra, l2, p2. by rewrite E.
Qed.

Lemma big_row_clean (L : string) (r : row) :
  big_row_ok L r = true -> clean (row_line L r) = true.
Proof.
  unfold big_row_ok, rest_ok. rewrite !andb_true_iff. intros H. destruct_and!.
  assert (clean (ind r) = true) by by apply blank_clean.
  assert (clean (gap r) = true) by by apply blank_clean.
  assert (clean (digits r) = true)
    by by apply (all_impl is_digit); [apply is_digit_clean|].
  unfold row_line, clean in *. rewrite !all_app.
  repeat match goal with H : all _ _ = true |- _ => rewrite H; clear H end.
  done.
Qed.



(** ** Line endings *)

Lemma split_lines_last (l : string) :
  all (fun c => negb (Ascii.eqb c LF)) l = true -> l <> "" -> split_lines l = [l].
Proof.
  induction l as [|c l IH]; [done|]. intros [Hc Hl]%andb_prop _.
  simpl. apply negb_true_iff in Hc. rewrite Hc.
  destruct l as [|c' l']; [done|]. by rewrite IH.
Qed.

(** A last line needs no line ending. *)
Lemma ScanLines_last (eol : string) (ls : list string) (l : string) :
  is_eol eol = true -> forallb clean ls = true -> clean l = true -> l <> "" ->
  ScanLines (unlines eol ls +:+ l) = ls ++ [l].
Proof.
  intros Heol Hls Hl Hne. unfold ScanLines.
  induction ls as [|l0 ls IH].
  - simpl. rewrite split_lines_last by (done || by apply clean_no_LF).
    simpl. by rewrite dropCR_clean.
  - simpl in Hls. apply andb_prop in Hls as [Hl0 Hls]. specialize (IH Hls).
    cbn [unlines]. rewrite !app_assoc_s.
    apply orb_prop in Heol as [->%String.eqb_eq| ->%String.eqb_eq].
    + rewrite app_cons_s, app_nil_l_s, split_lines_line by by apply clean_no_LF.
      cbn. by rewrite dropCR_clean, IH.
    + rewrite !app_cons_s, app_nil_l_s.
      match goal with
      | |- context [l0 +:+ String CR (String LF ?t)] =>
          change (l0 +:+ String CR (String LF t))
            with (l0 +:+ String CR "" +:+ String LF t)
      end.
      rewrite <- app_assoc_s, split_lines_line.
      * cbn. by rewrite dropCR_CR, IH.
      * rewrite all_app. rewrite clean_no_LF by done. done.
Qed.

Section SameTokens.
Variable collect : list string -> list string * string * list string.

(** The parse reads its text through the tokens of the scanner only. *)
Lemma parse_same_tokens (t1 t2 : string) (acc : list acc_call) (G : Globals) :
  ScanLines t1 = ScanLines t2 ->
  parsePfctlOutput collect t1 acc G = parsePfctlOutput collect t2 acc G.
Proof. intros H. unfold parsePfctlOutput. by rewrite H. Qed.
End SameTokens.



(** ** The plugin *)

Section Appends.
Variable collect : list string -> list string * string * list string.

(** The parse only adds to the calls of the sink. *)
Lemma parse_appends (text : string) (acc : list acc_call) (G : Globals) :
  parsePfctlOutput collect text acc G
  = match parsePfctlOutput collect text [] G with
    | Some (G', out, e) => Some (G', acc ++ out, e)
    | None => None
    end.
Proof.
  unfold parsePfctlOutput.
  destruct (scan_all _ _ _ _ _) as [[[[ss fi] T] [e|]]|]; [by rewrite app_nil_r| |done].
  destruct (check_found ss); by rewrite ?app_nil_r.
Qed.
End Appends.

Section GatherFacts.
Variable collect : list string -> list string * string * list string.
Hypothesis collect_le : forall p, length (collect p).2 <= length p.
Variable infoFunc : PF -> string * option plugin_error.

(** Every call of [Gather] returns [nil] and gives the sink one call:
    an error, or the map of a parse without error. *)
Lemma Gather_one_call (env : Env) (pf : PF) (G : Globals) (acc : list gather_call) :
  exists pf' G' c,
    Gather infoFunc (parsePfctlOutput collect) env pf G acc
    = Some (pf', G', acc ++ [c], None)
    /\ UseSudo pf' = true
    /\ match c with
       | GatherFields m fields tags =>
           m = measurement /\ tags = ∅ /\ (infoFunc pf').2 = None
           /\ parsePfctlOutput collect (infoFunc pf').1 [] G
              = Some (G', [AddFields m fields tags], None)
       | GatherError _ => True
       end.
Proof.
  unfold Gather. cbn [PfctlCommand PfctlArgs UseSudo PF_StateTable].
  set (pf1 := if String.eqb (PfctlCommand pf) "" then _ else _).
  assert (UseSudo pf1.1 = true) as Hsudo.
  { subst pf1. destruct (String.eqb (PfctlCommand pf) ""); [|done].
    by destruct (buildPfctlCmd env _) as [[cmd args] err]. }
  destruct pf1 as [pf' [err|]]; simpl in Hsudo.
  { by eexists _, _, (GatherError _). }
  destruct (infoFunc pf') as [o [err|]] eqn:Ei.
  { by eexists _, _, (GatherError _). }
  destruct (parse_emits_iff collect collect_le o [] G) as (G' & out & e & Hp & He).
  rewrite Hp. destruct e as [perr|].
  - subst out. by eexists _, _, (GatherError _).
  - destruct He as [fields ->]. rewrite app_nil_r.
    eexists _, _, (GatherFields measurement fields ∅). by rewrite Ei.
Qed.
End GatherFacts.

(** [Gather] returns [nil], always, and gives the sink one call, no
    more and no less: an error, or the map of a parse without error of the
    text [infoFunc] has returned without error.  [UseSudo] is set.  This
    holds for both versions of the file and for every [infoFunc]. *)
Theorem X10_Gather_one_call (infoFunc : PF -> string * option plugin_error)
    (env : Env) (pf : PF) (G : Globals) (acc : list gather_call) :
  (exists pf' G' c,
     Gather infoFunc Pf.parsePfctlOutput env pf G acc = Some (pf', G', acc ++ [c], None)
     /\ UseSudo pf' = true
     /\ match c with
        | GatherFields m fields tags =>
            m = measurement /\ tags = ∅ /\ (infoFunc pf').2 = None
            /\ Pf.parsePfctlOutput (infoFunc pf').1 [] G
               = Some (G', [AddFields m fields tags], None)
        | GatherError _ => True
        end)
  /\ (exists pf' G' c,
     Gather infoFunc Pf0.parsePfctlOutput env pf G acc = Some (pf', G', acc ++ [c], None)
     /\ UseSudo pf' = true
     /\ match c with
        | GatherFields m fields tags =>
            m = measurement /\ tags = ∅ /\ (infoFunc pf').2 = None
            /\ Pf0.parsePfctlOutput (infoFunc pf').1 [] G
               = Some (G', [AddFields m fields tags], None)
        | GatherError _ => True
        end).
Proof.
  split.
  - apply Gather_one_call, Pf_collect_le.
  - apply Gather_one_call, Pf0_collect_le.
Qed.

(** The setting [use_sudo] has no effect: [Gather] sets [UseSudo]
    before it builds the command line.  When no command line has been
    built yet and [execLookPath] finds both programs, the command that
    [callPfctl] runs is [doas], with the path of [pfctl], [-s] and [info] as
    its arguments, and the command line is kept in the receiver.  When
    [doas] is not found the command is not run: the sink receives the
    error, and the receiver has no command line. *)
Theorem X11_Gather_runs_doas (parse : string -> list acc_call -> Globals
      -> option (Globals * list acc_call * option error))
    (env : Env) (pf : PF) (G : Globals) (acc : list gather_call)
    (pfctl : string) :
  PfctlCommand pf = "" -> execLookPath env pfctlCommand = (pfctl, None) ->
  (forall doas, execLookPath env "doas" = (doas, None) ->
     let pf' := mkPF doas [pfctl; "-s"; "info"] true (PF_StateTable pf) in
     Gather (callPfctl env) parse env pf G acc
     = match cmdOutput env doas [pfctl; "-s"; "info"] with
       | (o, None) =>
           match parse o [] G with
           | None => None
           | Some (G', out, perr) =>
               Some (pf', G',
                     acc ++ (gather_call_of <$> out)
                     ++ match perr with
                        | Some perr => [GatherError (ParseError perr)]
                        | None => []
                        end, None)
           end
       | (o, Some (ExitError msg stderr)) =>
           Some (pf', G,
                 acc ++ [GatherError
                           (Errorf ("error running pfctl: " +:+ msg +:+ ": " +:+ stderr))],
                 None)
       | (o, Some (OtherError msg)) =>
           Some (pf', G,
                 acc ++ [GatherError
                           (Errorf ("error running pfctl: " +:+ msg
                                    +:+ ": (unable to get stderr)"))],
                 None)
       end)
  /\ (forall x msg, execLookPath env "doas" = (x, Some msg) ->
      Gather (callPfctl env) parse env pf G acc
      = Some (mkPF "" [] true (PF_StateTable pf), G,
              acc ++ [GatherError
                        (Errorf ("Can't construct pfctl commandline: can't locate doas: "
                                 +:+ msg))],
              None)).
Proof.
  intros Hc Hp. split.
  - intros doas Hd. cbv zeta. unfold Gather, buildPfctlCmd.
    cbn [PfctlCommand PfctlArgs UseSudo PF_StateTable]. rewrite Hc, Hp, Hd.
    cbn [String.eqb app]. unfold callPfctl at 1.
    cbn [PfctlCommand PfctlArgs].
    by destruct (cmdOutput env doas [pfctl; "-s"; "info"]) as [o [[m s|m]|]].
  - intros x msg Hd. unfold Gather, buildPfctlCmd.
    cbn [PfctlCommand PfctlArgs UseSudo PF_StateTable]. rewrite Hc, Hp, Hd.
    reflexivity.
Qed.

Lemma X11_witness :
  Gather (callPfctl example_env) Pf.parsePfctlOutput example_env newPF Pf.init []
  = Some (example_PF, Pf.init, [GatherError (ParseError errParseHeader)], None).
Proof.
  exact (proj1 (X11_Gather_runs_doas Pf.parsePfctlOutput example_env newPF Pf.init []
                  "/sbin/pfctl" eq_refl eq_refl)
           "/usr/bin/doas" eq_refl).
Defined.



(** ** The earlier variant on well-formed samples *)

Lemma find_from_here (r : regexp) (n pos : nat) (s : string) (x : list string) :
  exec r pos s (replicate (S n) "") (fun m _ c => Some (<[0 := m]> c)) = Some x ->
  find_from r n pos s = Some x.
Proof. intros H. destruct s; cbn [find_from]; by rewrite H. Qed.

Section Matcher0.
Context {R : Type}.

Lemma rep_greedy_none cls min (s : string) (k : string -> string -> option R) :
  (forall m s', s = m +:+ s' -> k m s' = None) -> rep_greedy cls min s k = None.
Proof.
  intros Hk. destruct (rep_greedy cls min s k) as [r|] eqn:E; [|done].
  apply rep_greedy_Some in E as (m & s' & Hs & _ & _ & E). by rewrite Hk in E.
Qed.
End Matcher0.

Lemma no_P_app (s t : string) : no_P (s +:+ t) = no_P s && no_P t.
Proof. apply all_app. Qed.

Lemma strip_prefix_no_P (x s : string) :
  no_P s = true -> strip_prefix (String "P" x) s = None.
Proof.
  destruct s as [|b s]; [done|]. unfold no_P. cbn [all strip_prefix].
  intros [Hb _]%andb_prop.
  apply negb_true_iff in Hb. rewrite Ascii.eqb_sym. by rewrite Hb.
Qed.

Lemma exec_packetsRE0_none (pos : nat) (s : string) (c : list string)
    (k : string -> string -> list string -> option (list string)) :
  no_P s = true -> exec RE.packetsRE0 pos s c k = None.
Proof.
  intros Hs. unfold RE.packetsRE0, sp. cbn [exec].
  assert (forall (A : string) (k' : string -> string -> option (list string)),
            rep_greedy is_space 1 s
              (fun m s' => match strip_prefix (String "P" A) s' with
                           | Some s'' => k' m s''
                           | None => None
                           end) = None) as Hnone.
  { intros A k'. apply rep_greedy_none. intros m s' ->.
    rewrite no_P_app in Hs. apply andb_prop in Hs as [_ Hs'].
    by rewrite strip_prefix_no_P. }
  destruct pos; [|by rewrite Hnone]. by rewrite !Hnone.
Qed.

(** No [P] in the line: the earlier variant's [packetsRE] finds nothing. *)
Lemma packetsRE0_none (l : string) :
  no_P l = true -> FindStringSubmatch RE.packetsRE0 l = None.
Proof.
  unfold FindStringSubmatch. generalize 0 as pos.
  induction l as [|a l IH]; intros pos Hl.
  - cbn [find_from]. by rewrite exec_packetsRE0_none.
  - cbn [find_from]. rewrite exec_packetsRE0_none by done.
    apply IH. simpl in Hl. by apply andb_prop in Hl as [_ ?].
Qed.

Section Packets0.
Variables (i t : string).
Hypothesis Hi : blank i = true.

Lemma packetsRE0_in :
  FindStringSubmatch RE.packetsRE0 (i +:+ "Packets In" +:+ t)
  = Some [i +:+ "Packets In"; "Packets In"; ""].
Proof.
  destruct (indent_parts i Hi) as [Hsp Hne].
  unfold FindStringSubmatch. apply find_from_here.
  unfold RE.packetsRE0, sp. cbn [exec ngroups replicate Nat.max].
  erewrite rep_greedy_run; [done|done|done|by apply length_pos|].
  by rewrite strip_prefix_app.
Qed.

Lemma packetsRE0_out :
  FindStringSubmatch RE.packetsRE0 (i +:+ "Packets Out" +:+ t)
  = Some [i +:+ "Packets Out"; ""; "Packets Out"].
Proof.
  destruct (indent_parts i Hi) as [Hsp Hne].
  unfold FindStringSubmatch. apply find_from_here.
  unfold RE.packetsRE0, sp. cbn [exec ngroups replicate Nat.max].
  rewrite sp_lit_none; [|done|done|done|done].
  erewrite rep_greedy_run; [done|done|done|by apply length_pos|].
  by rewrite strip_prefix_app.
Qed.
End Packets0.

Lemma TrimLeft_spaces (sp x : string) :
  all (Ascii.eqb " ") sp = true -> starts (Ascii.eqb " ") x = false ->
  Pf0.TrimLeft_space (sp +:+ x) = x.
Proof.
  intros Hsp Hx. induction sp as [|c sp IH].
  - rewrite app_nil_l_s. destruct x as [|b x]; [done|]. simpl in Hx.
    destruct b as [[] [] [] [] [] [] [] []]; done.
  - cbn [all] in Hsp. apply andb_prop in Hsp as [Hc Hsp].
    apply Ascii.eqb_eq in Hc as <-. rewrite app_cons_s.
    cbn [Pf0.TrimLeft_space]. by apply IH.
Qed.

(** *** What the stanza loop of the earlier variant collects *)

Lemma stanza_lines0_header l p acc :
  starts is_upper l = true -> Pf0.stanza_lines l p acc = (acc, l, p).
Proof. intros H. destruct p; simpl; by rewrite anyTableHeaderRE_starts, H. Qed.

Lemma stanza_lines0_plain l q acc :
  plain0 l -> Pf0.stanza_lines l q acc = Pf0_next_turn l q (acc ++ [l]).
Proof.
  intros (H1 & H2). destruct q; simpl; by rewrite anyTableHeaderRE_starts, H1, H2.
Qed.

Lemma next_turn0_plains q : forall x l p acc,
  Forall plain0 q -> starts is_upper l = true ->
  Pf0_next_turn x (q ++ l :: p) acc = (acc ++ q, l, p).
Proof.
  induction q as [|l1 q IH]; intros x l p acc Hq Hl.
  - rewrite app_nil_l, app_nil_r. simpl. by apply stanza_lines0_header.
  - apply Forall_cons in Hq as [H1 Hq].
    change ((l1 :: q) ++ l :: p) with (l1 :: (q ++ l :: p)).
    cbn [Pf0_next_turn]. rewrite stanza_lines0_plain, IH by done.
    by rewrite <- app_assoc.
Qed.

Lemma next_turn0_plains_end q : forall x acc,
  Forall plain0 q -> Pf0_next_turn x q acc = (acc ++ q, List.last q x, []).
Proof.
  induction q as [|l1 q IH]; intros x acc Hq.
  - by rewrite app_nil_r.
  - apply Forall_cons in Hq as [H1 Hq].
    cbn [Pf0_next_turn]. rewrite stanza_lines0_plain, IH by done.
    by rewrite <- app_assoc, last_cons_default.
Qed.

Lemma is_blank_no_P (c : ascii) : is_blank c = true -> negb (Ascii.eqb c "P") = true.
Proof. by destruct c as [[] [] [] [] [] [] [] []]. Qed.

Lemma is_digit_no_P (c : ascii) : is_digit c = true -> negb (Ascii.eqb c "P") = true.
Proof. by destruct c as [[] [] [] [] [] [] [] []]. Qed.

Lemma blank_no_P (i : string) : blank i = true -> no_P i = true.
Proof. intros [_ H]%andb_prop. by apply (all_impl is_blank); [apply is_blank_no_P|]. Qed.

Lemma number_no_P (d : string) : number d = true -> no_P d = true.
Proof.
  unfold number. rewrite !andb_true_iff. intros [[_ H] _].
  by apply (all_impl is_digit); [apply is_digit_no_P|].
Qed.

Lemma plain0_empty : plain0 "".
Proof. by split. Qed.

Lemma plain0_row (L : string) (r : row) :
  no_P L = true -> row_ok r = true -> no_P (rest r) = true -> plain0 (row_line L r).
Proof.
  intros HL Hr Hrest. unfold row_ok in Hr. rewrite !andb_true_iff in Hr.
  destruct Hr as [[[Hi Hg] Hd] _]. split.
  - unfold row_line. apply blank_starts; [done|apply is_blank_not_upper].
  - apply packetsRE0_none. unfold row_line. rewrite !no_P_app.
    by rewrite (blank_no_P _ Hi), HL, (blank_no_P _ Hg), (number_no_P _ Hd), Hrest.
Qed.

Lemma plain0_rows_of (table : list Entry) (rows : list row) :
  forallb no_P (PfctlTitle <$> table) = true ->
  forallb row_ok rows = true -> forallb (fun r => no_P (rest r)) rows = true ->
  Forall plain0 (rows_of table rows).
Proof.
  unfold rows_of. revert rows.
  induction table as [|e table IH]; intros [|r rows]; simpl; try by constructor.
  intros [He Ht]%andb_prop [Hr Hrs]%andb_prop [Hp Hps]%andb_prop.
  constructor; [by apply plain0_row|by apply IH].
Qed.

Lemma plain0_blanks (n : nat) : Forall plain0 (replicate n "").
Proof. apply Forall_replicate, plain0_empty. Qed.

Lemma plain0_row2 (L : string) (r : row2) :
  no_P L = true -> row2_ok r = true -> no_P (rest2 r) = true ->
  plain0 (row2_line L r).
Proof.
  intros HL Hr Hrest. rewrite row2_line_first.
  pose proof (first_column_ok r Hr) as Hok.
  apply plain0_row; [done|done|]. cbn [first_column rest].
  unfold row2_ok in Hr. rewrite !andb_true_iff in Hr.
  destruct Hr as [[[[[_ _] _] Hm] H6] _]. rewrite !no_P_app.
  by rewrite (blank_no_P _ Hm), (number_no_P _ H6), Hrest.
Qed.

(** The line made of a line after a [Packets] line. *)
Lemma joined_line (A L AL i : string) (r : row2) :
  spaces (ind2 r) = true -> L <> "" -> starts (Ascii.eqb " ") L = false ->
  A +:+ " " +:+ L = AL ->
  (i +:+ A) +:+ " " +:+ Pf0.TrimLeft_space (row2_line L r) = joined AL i r.
Proof.
  intros [_ Hsp]%andb_prop Hne HL <-. unfold row2_line.
  rewrite TrimLeft_spaces; [|done|by destruct L].
  unfold joined, row_line. cbn [ind gap digits rest].
  by rewrite !app_assoc_s.
Qed.

Section Packets0Rows.
Variables (i t : string) (r1 r2 : row2).
Hypothesis Hi : blank i = true.
Hypothesis Hr1 : spaces (ind2 r1) = true.
Hypothesis Hr2 : spaces (ind2 r2) = true.

Lemma stanza_lines0_packets_in q acc :
  Pf0.stanza_lines (i +:+ "Packets In" +:+ t)
    (row2_line "Passed" r1 :: row2_line "Blocked" r2 :: q) acc
  = Pf0_next_turn (row2_line "Blocked" r2) q
      (acc ++ [joined "Packets In Passed" i r1; joined "Packets In Blocked" i r2]).
Proof.
  assert (starts is_upper (i +:+ "Packets In" +:+ t) = false) as Hu
    by (apply blank_starts; [done|apply is_blank_not_upper]).
  destruct q; cbn [Pf0.stanza_lines Pf0_next_turn];
    rewrite anyTableHeaderRE_starts, Hu, packetsRE0_in by done;
    unfold Pf0.expand_packets; cbn [lookup_total list_lookup_total];
    rewrite (joined_line _ "Passed" "Packets In Passed"),
            (joined_line _ "Blocked" "Packets In Blocked") by done;
    by rewrite <- app_assoc.
Qed.

Lemma stanza_lines0_packets_out q acc :
  Pf0.stanza_lines (i +:+ "Packets Out" +:+ t)
    (row2_line "Passed" r1 :: row2_line "Blocked" r2 :: q) acc
  = Pf0_next_turn (row2_line "Blocked" r2) q
      (acc ++ [joined "Packets Out Passed" i r1; joined "Packets Out Blocked" i r2]).
Proof.
  assert (starts is_upper (i +:+ "Packets Out" +:+ t) = false) as Hu
    by (apply blank_starts; [done|apply is_blank_not_upper]).
  destruct q; cbn [Pf0.stanza_lines Pf0_next_turn];
    rewrite anyTableHeaderRE_starts, Hu, packetsRE0_out by done;
    unfold Pf0.expand_packets; cbn [lookup_total list_lookup_total];
    rewrite (joined_line _ "Passed" "Packets Out Passed"),
            (joined_line _ "Blocked" "Packets Out Blocked") by done;
    by rewrite <- app_assoc.
Qed.
End Packets0Rows.

Lemma Pf0_interface_ok_parts (i : interface_stanza) :
  Pf0_interface_ok i = true ->
  no_P (rest2 (bytes_in i)) = true /\ no_P (rest2 (bytes_out i)) = true
  /\ spaces (ind2 (in_passed i)) = true /\ spaces (ind2 (in_blocked i)) = true
  /\ spaces (ind2 (out_passed i)) = true /\ spaces (ind2 (out_blocked i)) = true.
Proof. unfold Pf0_interface_ok. rewrite !andb_true_iff. intros. by destruct_and!. Qed.

Lemma collect0_interface_rows (i : interface_stanza) (q : list string) :
  interface_ok i = true -> Pf0_interface_ok i = true ->
  Pf0.collect (interface_rows i ++ q)
  = Pf0_next_turn (row2_line "Blocked" (out_blocked i))
      (replicate (if_blank i) "" ++ q) (Pf0_interface_collected i).
Proof.
  intros (Hbi & Hbo & Hpi & Hip & Hib & Hpo & Hop & Hob)%interface_ok_parts
         (Pbi & Pbo & Sip & Sib & Sop & Sob)%Pf0_interface_ok_parts.
  unfold interface_rows. rewrite <- app_assoc.
  cbn [app Pf0.collect].
  rewrite stanza_lines0_plain by by apply plain0_row2. cbn [Pf0_next_turn].
  rewrite stanza_lines0_plain by by apply plain0_row2. cbn [Pf0_next_turn].
  rewrite stanza_lines0_packets_in by done. cbn [Pf0_next_turn].
  by rewrite stanza_lines0_packets_out.
Qed.

Lemma collect0_interface (i : interface_stanza) (l : string) (p : list string) :
  interface_ok i = true -> Pf0_interface_ok i = true -> starts is_upper l = true ->
  Pf0.collect (interface_rows i ++ l :: p)
  = (Pf0_interface_collected i ++ replicate (if_blank i) "", l, p).
Proof.
  intros Hi Hi0 Hl. rewrite collect0_interface_rows by done.
  rewrite next_turn0_plains; [done|apply plain0_blanks|done].
Qed.

Lemma collect0_plains (ls : list string) (l : string) (p : list string) :
  Forall plain0 ls -> starts is_upper l = true ->
  Pf0.collect (ls ++ l :: p) = (ls, l, p).
Proof.
  intros Hls Hl. destruct ls as [|l0 ls].
  - simpl. by apply stanza_lines0_header.
  - change (Pf0.collect ((l0 :: ls) ++ l :: p))
      with (Pf0_next_turn "" ((l0 :: ls) ++ l :: p) []).
    by rewrite next_turn0_plains.
Qed.

Lemma collect0_plains_last (ls : list string) :
  ls <> [] -> Forall plain0 ls -> Pf0.collect ls = (ls, List.last ls "", []).
Proof.
  destruct ls as [|l0 ls]; [done|]. intros _ Hls.
  change (Pf0.collect (l0 :: ls)) with (Pf0_next_turn "" (l0 :: ls) []).
  by rewrite next_turn0_plains_end.
Qed.

(** *** What the extractor reads *)

Lemma joined_row_ok (i : string) (r : row2) :
  blank i = true -> row2_ok r = true ->
  row_ok (Row i (gap2 r) (ipv4 r) (mid r +:+ ipv6 r +:+ rest2 r)) = true.
Proof.
  intros Hi Hr. pose proof (first_column_ok r Hr) as Hok.
  unfold row_ok, first_column in *. cbn [ind gap digits rest] in *.
  rewrite !andb_true_iff in Hok. destruct Hok as [[[_ Hg] Hd] Hrest].
  by rewrite Hi, Hg, Hd, Hrest.
Qed.

Lemma Pf0_interface_values_nonneg (i : interface_stanza) :
  Forall (fun e => (0 <= Value e)%Z)
    (with_values Pf0.InterfaceTable (Pf0_interface_values i)).
Proof. repeat constructor; apply value_nonneg. Qed.

Lemma extract0_interface (i : interface_stanza) (n : nat) (vs0 : list Z)
    (fields : gmap string Z) :
  interface_ok i = true -> length vs0 = 6 ->
  storeFieldValues (Pf0_interface_collected i ++ replicate n "") RE.tableRE fields
    (with_values Pf0.InterfaceTable vs0)
  = (with_values Pf0.InterfaceTable (Pf0_interface_values i),
     put_all (with_values Pf0.InterfaceTable (Pf0_interface_values i)) fields, None).
Proof.
  intros Hi Hvs. unfold storeFieldValues.
  assert (store_lines (Pf0_interface_collected i ++ replicate n "") RE.tableRE
            (with_values Pf0.InterfaceTable vs0)
          = (with_values Pf0.InterfaceTable (Pf0_interface_values i), None)) as ->.
  { pose proof Hi as (Hbi & Hbo & Hpi & Hip & Hib & Hpo & Hop & Hob)%interface_ok_parts.
    explode vs0 Hvs.
    cbn [Pf0_interface_collected app]. unfold joined. rewrite !row2_line_first.
    rewrite !store_lines_row by (done || by apply first_column_ok || by apply joined_row_ok).
    rewrite <- (app_nil_r (replicate n "")), store_lines_blanks.
    reflexivity. }
  by rewrite store_fields_nonneg by apply Pf0_interface_values_nonneg.
Qed.

(** *** The stanzas of a sample, in the earlier variant *)

Lemma no_P_titles_state : forallb no_P (PfctlTitle <$> StateTable) = true.
Proof. reflexivity. Qed.

Lemma no_P_titles_counters : forallb no_P (PfctlTitle <$> CounterTable) = true.
Proof. reflexivity. Qed.

Lemma Pf0_sample_ok_parts (s : sample) :
  Pf0_sample_ok s = true ->
  from_option Pf0_interface_ok true (interface s) = true
  /\ forallb (fun r => no_P (rest r)) (state s) = true
  /\ forallb (fun r => no_P (rest r)) (counters s) = true.
Proof. unfold Pf0_sample_ok. rewrite !andb_true_iff. by intros [[? ?] ?]. Qed.

Section Blocks0.
Variable s : sample.
Hypothesis Hs : sample_ok s = true.
Hypothesis Hs0 : Pf0_sample_ok s = true.

Lemma plain0_state_rows : Forall plain0 (state_rows s).
Proof.
  destruct (sample_state_ok s Hs) as [_ Hr].
  destruct (Pf0_sample_ok_parts s Hs0) as (_ & Hp & _).
  apply Forall_app. split; [|apply plain0_blanks].
  by apply plain0_rows_of; [apply no_P_titles_state|..].
Qed.

Lemma plain0_counter_rows : Forall plain0 (counter_rows s).
Proof.
  destruct (sample_counters_ok s Hs) as [_ Hr].
  destruct (Pf0_sample_ok_parts s Hs0) as (_ & _ & Hp).
  apply Forall_app. split; [|apply plain0_blanks].
  by apply plain0_rows_of; [apply no_P_titles_counters|..].
Qed.

Lemma range0_counters fC fields tI tS vC :
  length vC = 15 ->
  range_stanzas Pf0.collect
    [mkStanza (Bol +> Lit "Counters") parseCounterTable fC false]
    (counter_header s) (counter_rows s) fields
    (mkTables tI tS (with_values CounterTable vC))
  = ([mkStanza (Bol +> Lit "Counters") parseCounterTable true false], [],
     put_all (with_values CounterTable (values_of (counters s))) fields,
     mkTables tI tS (with_values CounterTable (values_of (counters s))), None).
Proof.
  intros HvC. destruct (sample_counters_ok s Hs) as [Hlen Hrows].
  erewrite range_hit;
    [|cbn [HeaderRE]; rewrite header_prefix; apply prefix_app
     |apply collect0_plains_last;
        [apply (counter_rows_not_nil s (sample_counters_ok s Hs))
        |apply plain0_counter_rows]].
  cbn [ParseFunc]. unfold parseCounterTable, RE.counterTableRE. cbn [counterTable].
  unfold counter_rows at 1. by rewrite extract_counters.
Qed.

Lemma range0_state_counters fS fC fields tI vS vC :
  length vS = 4 -> length vC = 15 ->
  range_stanzas Pf0.collect
    [mkStanza (Bol +> Lit "State Table") parseStateTable fS false;
     mkStanza (Bol +> Lit "Counters") parseCounterTable fC false]
    (state_header s) (state_rows s ++ counter_header s :: counter_rows s) fields
    (mkTables tI (with_values StateTable vS) (with_values CounterTable vC))
  = ([mkStanza (Bol +> Lit "State Table") parseStateTable true false;
      mkStanza (Bol +> Lit "Counters") parseCounterTable true false], [],
     put_all (with_values CounterTable (values_of (counters s)))
       (put_all (with_values StateTable (values_of (state s))) fields),
     mkTables tI (with_values StateTable (values_of (state s)))
       (with_values CounterTable (values_of (counters s))), None).
Proof.
  intros HvS HvC. destruct (sample_state_ok s Hs) as [Hlen Hrows].
  erewrite range_hit;
    [|cbn [HeaderRE]; rewrite header_prefix; apply prefix_app
     |apply collect0_plains; [apply plain0_state_rows|by apply starts_upper_app]].
  cbn [ParseFunc]. unfold parseStateTable, RE.stateTableRE. cbn [stateTable].
  unfold state_rows at 1. rewrite extract_state by done.
  cbn [interfaceTable counterTable]. by rewrite range0_counters.
Qed.

Lemma range0_interface i fI fS fC fields vI vS vC :
  interface s = Some i ->
  length vI = 6 -> length vS = 4 -> length vC = 15 ->
  range_stanzas Pf0.collect (stanzas fI fS fC) (interface_header i)
    (interface_rows i ++ state_header s :: state_rows s
       ++ counter_header s :: counter_rows s) fields
    (mkTables (with_values Pf0.InterfaceTable vI) (with_values StateTable vS)
       (with_values CounterTable vC))
  = (stanzas true true true, [],
     put_all (with_values CounterTable (values_of (counters s)))
       (put_all (with_values StateTable (values_of (state s)))
          (put_all (with_values Pf0.InterfaceTable (Pf0_interface_values i)) fields)),
     mkTables (with_values Pf0.InterfaceTable (Pf0_interface_values i))
       (with_values StateTable (values_of (state s)))
       (with_values CounterTable (values_of (counters s))), None).
Proof.
  intros Ei HvI HvS HvC.
  destruct (sample_ok_parts s Hs) as (_ & _ & Hi & _). rewrite Ei in Hi.
  destruct (Pf0_sample_ok_parts s Hs0) as (Hi0 & _). rewrite Ei in Hi0.
  cbn [from_option] in Hi, Hi0. unfold stanzas.
  erewrite range_hit;
    [|cbn [HeaderRE]; rewrite header_prefix; apply prefix_app
     |apply (collect0_interface i); [done|done|by apply starts_upper_app]].
  cbn [ParseFunc]. unfold parseInterfaceTable, RE.interfaceTableRE.
  cbn [interfaceTable]. rewrite extract0_interface by done.
  cbn [stateTable counterTable]. by rewrite range0_state_counters.
Qed.

Lemma range0_state fI fS fC fields tI vS vC :
  length vS = 4 -> length vC = 15 ->
  range_stanzas Pf0.collect (stanzas fI fS fC) (state_header s)
    (state_rows s ++ counter_header s :: counter_rows s) fields
    (mkTables tI (with_values StateTable vS) (with_values CounterTable vC))
  = (stanzas fI true true, [],
     put_all (with_values CounterTable (values_of (counters s)))
       (put_all (with_values StateTable (values_of (state s))) fields),
     mkTables tI (with_values StateTable (values_of (state s)))
       (with_values CounterTable (values_of (counters s))), None).
Proof.
  intros HvS HvC. unfold stanzas.
  rewrite range_miss by (cbn [HeaderRE]; by rewrite header_prefix).
  by rewrite range0_state_counters.
Qed.
End Blocks0.

Lemma put_all_fields0 (rowsS rowsC : list row) (i : interface_stanza) :
  length rowsS = 4 -> length rowsC = 15 ->
  put_all (with_values CounterTable (values_of rowsC))
    (put_all (with_values StateTable (values_of rowsS))
       (put_all (with_values Pf0.InterfaceTable (Pf0_interface_values i)) ∅))
  = table_fields CounterTable (values_of rowsC)
    ∪ table_fields StateTable (values_of rowsS)
    ∪ table_fields Pf0.InterfaceTable (Pf0_interface_values i).
Proof.
  intros HS HC. explode rowsS HS. explode rowsC HC.
  unfold values_of, Pf0_interface_values. cbn [fmap list_fmap].
  forget_values. intros. vm_compute. exact eq_refl.
Qed.

(** The earlier variant on a well-formed sample, from any state of the
    tables. *)
Lemma Pf0_parse_sample (s : sample) (eol : string) (acc : list acc_call) (G : Globals) :
  sample_ok s = true -> Pf0_sample_ok s = true -> is_eol eol = true ->
  reachable Pf0.InterfaceTable G ->
  Pf0.parsePfctlOutput (unlines eol (sample_lines s)) acc G
  = Some (Pf0_after s G, acc ++ [AddFields measurement (Pf0_fields s) ∅], None).
Proof.
  intros Hs Hs0 Heol (fI & fS & fC & vI & vS & vC & HvI & HvS & HvC & ->).
  destruct (sample_ok_parts s Hs) as (Hpre & Hclean & Hi & HS & HC).
  unfold Pf0.parsePfctlOutput, parsePfctlOutput.
  rewrite ScanLines_unlines by done.
  unfold globals_of. cbn [pfctlOutputStanzas tables].
  unfold sample_lines. rewrite (scan_all_skip _ Pf0_collect_le) by done.
  unfold Pf0_after, Pf0_fields, state_counter_fields, interface_lines.
  destruct (interface s) as [i|] eqn:Ei.
  - rewrite <- app_comm_cons, (scan_all_cons _ Pf0_collect_le).
    rewrite (range0_interface s Hs Hs0 i) by done.
    rewrite scan_all_nil. cbn [check_found stanzas Optional Found negb].
    by rewrite (put_all_fields0 _ _ i) by apply HS || apply HC.
  - rewrite app_nil_l, (scan_all_cons _ Pf0_collect_le).
    rewrite (range0_state s Hs Hs0) by done.
    rewrite scan_all_nil. cbn [check_found stanzas Optional Found negb].
    by rewrite put_all_fields_state by apply HS || apply HC.
Qed.

Lemma Pf0_init_reachable : reachable Pf0.InterfaceTable Pf0.init.
Proof.
  exists false, false, false, (replicate 6 (-1)%Z), (replicate 4 (-1)%Z),
    (replicate 15 (-1)%Z). by split_and!.
Qed.

Lemma Pf0_fields_dom (s : sample) :
  sample_ok s = true -> is_Some (interface s) -> dom (Pf0_fields s) = spec_keys.
Proof.
  intros Hs [i Ei]. destruct (sample_ok_parts s Hs) as (_ & _ & _ & [HS _] & [HC _]).
  unfold Pf0_fields, state_counter_fields. rewrite Ei.
  remember (state s) as rs eqn:Ers. clear Ers. explode rs HS.
  remember (counters s) as rc eqn:Erc. clear Erc. explode rc HC.
  unfold values_of, Pf0_interface_values. cbn [fmap list_fmap].
  forget_values. intros. vm_compute. exact eq_refl.
Qed.

Lemma Pf0_fields_interface (s : sample) (i : interface_stanza) :
  sample_ok s = true -> interface s = Some i ->
  Forall2 (fun k v => Pf0_fields s !! k = Some v)
    (keys_of Pf0.InterfaceTable) (Pf0_interface_values i).
Proof.
  intros Hs Ei. destruct (sample_ok_parts s Hs) as (_ & _ & _ & [HS _] & [HC _]).
  unfold Pf0_fields, state_counter_fields. rewrite Ei.
  remember (state s) as rs eqn:Ers. clear Ers. explode rs HS.
  remember (counters s) as rc eqn:Erc. clear Erc. explode rc HC.
  unfold values_of, Pf0_interface_values. cbn [fmap list_fmap].
  cbn [keys_of Pf0.InterfaceTable fmap list_fmap Field].
  repeat (constructor; [reflexivity|]); constructor.
Qed.

Lemma Pf0_fields_rows (s : sample) :
  sample_ok s = true ->
  Forall2 (fun k r => Pf0_fields s !! k = Some (value (digits r)))
    (keys_of StateTable ++ keys_of CounterTable) (state s ++ counters s).
Proof.
  intros Hs. destruct (sample_ok_parts s Hs) as (_ & _ & _ & [HS _] & [HC _]).
  unfold Pf0_fields, state_counter_fields.
  remember (state s) as rs eqn:Ers. clear Ers. explode rs HS.
  remember (counters s) as rc eqn:Erc. clear Erc. explode rc HC.
  unfold values_of. cbn [fmap list_fmap].
  destruct (interface s) as [i|]; [unfold Pf0_interface_values|];
    cbn [keys_of StateTable CounterTable fmap list_fmap Field app];
    repeat (constructor; [reflexivity|]); constructor.
Qed.


